(** * HSR-Database-Web: text resolution, template rendering, stat curves,
      reference extraction and module closure

    A shallow embedding of the algorithmic core of the repository
    ([serve.py], [build_db.py], [build_module_dbs.py]) together with the
    properties stated about it.

    Conventions of the embedding.
    - A Python [str] is a [string]; each character stands for one code point
      below 256 (whitespace and decimal-digit classes are the ones Python
      assigns to these code points).
    - A Python [int] is a [Z].  [int(s)] of a string is [py_int]: it raises
      [ValueError] on a text that is no integer literal and on one of more
      than 4300 digits (CPython's default limit).  [str(n)] is applied only
      to integers of at most 4300 digits, where it does not raise.
    - A Python [float] is a [pyfloat]: a rational that stands for a finite
      binary64 value other than the negative zero, the negative zero, the
      two infinities, or NaN.  Arithmetic is the exact rational operation
      followed by rounding to the nearest binary64 value (ties to even),
      overflowing to an infinity; a zero result carries the sign IEEE 754
      gives it.
    - A function whose Python body can raise returns a [result]; a function
      that catches everything it can raise returns a plain value.
    - Library routines the repository calls but does not define
      ([json.loads], [float(str)], the xxHash implementations) are fields of
      an environment record, so every statement holds for any behaviour of
      theirs. *)

From Stdlib Require Import ZArith QArith Qround Qabs Qpower Lqa Lia.
From Stdlib Require Import String Ascii List Bool Permutation Sorted.
From stdpp Require Import base gmap strings list.

Import ListNotations.
Local Open Scope Z_scope.
Local Open Scope string_scope.
Local Open Scope list_scope.

(** ** Exceptions *)

Inductive exn : Type :=
  | OverflowError
  | ValueError.

Inductive result (A : Type) : Type :=
  | Ok (a : A)
  | Raise (e : exn).
Arguments Ok {A} a.
Arguments Raise {A} e.

#[global] Instance result_ret : MRet result := fun A a => Ok a.
#[global] Instance result_bind : MBind result := fun A B k r =>
  match r with
  | Ok a => k a
  | Raise e => Raise e
  end.

(** ** Python floats *)

Module PyFloat.

Inductive pyfloat : Type :=
  | Fin (q : Q)
  | Inf (neg : bool)
  | NaN
  | NZero.

Definition prec : Z := 53.
Definition emin : Z := -1074.
Definition emax : Z := 1024.

Definition pow2 (e : Z) : Q := Qpower 2%Q e.

(** Round to the nearest integer, ties to the even one. *)
Definition round_half_even (q : Q) : Z :=
  let f := Qfloor q in
  match Qcompare (q - inject_Z f)%Q (1 # 2)%Q with
  | Lt => f
  | Gt => f + 1
  | Eq => if Z.even f then f else f + 1
  end.

(** For [0 < q], the exponent [e] with [2^(e-1) <= q < 2^e]. *)
Definition mag (q : Q) : Z :=
  let e0 := Z.log2 (Qnum q) - Z.log2 (Zpos (Qden q)) in
  if Qle_bool (pow2 e0) q then e0 + 1 else e0.

(** Exponent of the last mantissa bit of the binary64 values around [q]. *)
Definition cexp (q : Q) : Z := Z.max (mag q - prec) emin.

(** For [0 < q]: the multiple of [2^(cexp q)] nearest to [q]. *)
Definition rnd_val (q : Q) : Q :=
  (inject_Z (round_half_even (q / pow2 (cexp q))) * pow2 (cexp q))%Q.

Definition rnd_pos (q : Q) : pyfloat :=
  let v := rnd_val q in
  if Qle_bool (pow2 emax) v then Inf false else Fin (Qred v).

Definition is_neg (q : Q) : bool := negb (Qle_bool 0%Q q).
Definition is_zero (q : Q) : bool := Qeq_bool q 0%Q.

(** [-x]: the negation of the positive zero is the negative zero. *)
Definition fneg (x : pyfloat) : pyfloat :=
  match x with
  | Fin q => if is_zero q then NZero else Fin (Qred (- q)%Q)
  | Inf s => Inf (negb s)
  | NaN => NaN
  | NZero => Fin 0%Q
  end.

(** The binary64 value nearest to the rational [q]. *)
Definition rnd64 (q : Q) : pyfloat :=
  match Qcompare q 0%Q with
  | Eq => Fin 0%Q
  | Gt => rnd_pos q
  | Lt => fneg (rnd_pos (- q)%Q)
  end.

(** The rational a finite value stands for; both zeros stand for 0. *)
Definition fval (x : pyfloat) : Q :=
  match x with
  | Fin q => q
  | _ => 0%Q
  end.

(** The sign bit. *)
Definition signbit (x : pyfloat) : bool :=
  match x with
  | Fin q => is_neg q
  | Inf s => s
  | NaN => false
  | NZero => true
  end.

(** The zero with the given sign bit. *)
Definition fzero (neg : bool) : pyfloat := if neg then NZero else Fin 0%Q.

(** [x + y]: a sum that is exactly zero is the positive zero, unless both
    operands are the negative zero. *)
Definition fadd (x y : pyfloat) : pyfloat :=
  match x, y with
  | NaN, _ | _, NaN => NaN
  | Inf s, Inf t => if Bool.eqb s t then Inf s else NaN
  | Inf s, _ => Inf s
  | _, Inf t => Inf t
  | NZero, NZero => NZero
  | _, _ => rnd64 (fval x + fval y)%Q
  end.

(** [x * y]: the sign of a zero product is the exclusive or of the signs of
    the factors. *)
Definition fmul (x y : pyfloat) : pyfloat :=
  match x, y with
  | NaN, _ | _, NaN => NaN
  | Inf s, Inf t => Inf (xorb s t)
  | Inf s, f | f, Inf s =>
      if is_zero (fval f) then NaN else Inf (xorb s (signbit f))
  | _, _ =>
      let p := (fval x * fval y)%Q in
      if is_zero p then fzero (xorb (signbit x) (signbit y)) else rnd64 p
  end.

(** The float nearest to an integer.  Python raises [OverflowError] where
    this yields an infinity (see [float_of_int]). *)
Definition of_Z (n : Z) : pyfloat := rnd64 (inject_Z n).

(** [float(n)] for an [int] [n]. *)
Definition float_of_int (n : Z) : result pyfloat :=
  match of_Z n with
  | Inf _ | NaN => Raise OverflowError
  | x => Ok x
  end.

(** A decimal literal [n / 10^k] as Python reads it. *)
Definition lit (n : Z) (k : Z) : pyfloat := rnd64 (inject_Z n / inject_Z (10 ^ k))%Q.

(** [round(x)]: the nearest integer, ties to even, as an [int]. *)
Definition round0 (x : pyfloat) : result Z :=
  match x with
  | Fin q => Ok (round_half_even q)
  | Inf _ => Raise OverflowError
  | NaN => Raise ValueError
  | NZero => Ok 0
  end.

(** [round(x, nd)] for a float [x]: keeps a float; infinities, NaN and the
    zeros round to themselves, and a value that rounds to zero keeps its
    sign. *)
Definition round_nd (nd : Z) (x : pyfloat) : pyfloat :=
  match x with
  | Fin q =>
      let k := round_half_even (q * inject_Z (10 ^ nd))%Q in
      if (k =? 0)%Z then fzero (is_neg q)
      else rnd64 (inject_Z k / inject_Z (10 ^ nd))%Q
  | _ => x
  end.

(** [x.is_integer()] *)
Definition is_integer (x : pyfloat) : bool :=
  match x with
  | Fin q => Qeq_bool q (inject_Z (Qfloor q))
  | NZero => true
  | _ => false
  end.

(** [int(x)]: truncation towards zero. *)
Definition trunc (x : pyfloat) : result Z :=
  match x with
  | Fin q => Ok (if is_neg q then - Qfloor (- q)%Q else Qfloor q)
  | Inf _ => Raise OverflowError
  | NaN => Raise ValueError
  | NZero => Ok 0
  end.

(** Neither an infinity nor NaN. *)
Definition finite (x : pyfloat) : Prop :=
  match x with
  | Fin _ | NZero => True
  | _ => False
  end.

(** Order and equality of values as [<=] and [==] decide them: the two
    zeros are equal, NaN is unordered. *)
Definition fle (x y : pyfloat) : Prop :=
  match x, y with
  | NaN, _ | _, NaN => False
  | Inf true, _ => True
  | _, Inf false => True
  | Inf false, _ => False
  | _, Inf true => False
  | _, _ => (fval x <= fval y)%Q
  end.

Definition feq (x y : pyfloat) : Prop :=
  match x, y with
  | NaN, _ | _, NaN => False
  | Inf s, Inf t => s = t
  | Inf _, _ | _, Inf _ => False
  | _, _ => (fval x == fval y)%Q
  end.

End PyFloat.
Export PyFloat.

(** ** Python strings *)

Module PyStr.

Definition code (c : ascii) : N := N_of_ascii c.

(** [c.isspace()] on code points below 256. *)
Definition is_space (c : ascii) : bool :=
  let n := code c in
  ((9 <=? n) && (n <=? 13) || (28 <=? n) && (n <=? 32) || (n =? 133) || (n =? 160))%N.

(** The class [\d] on code points below 256. *)
Definition is_digit (c : ascii) : bool :=
  let n := code c in ((48 <=? n) && (n <=? 57))%N.

Definition is_hex (c : ascii) : bool :=
  let n := code c in
  (is_digit c || (65 <=? n) && (n <=? 70) || (97 <=? n) && (n <=? 102))%N.

Definition lower_char (c : ascii) : ascii :=
  let n := code c in
  if ((65 <=? n) && (n <=? 90) || (192 <=? n) && (n <=? 222) && negb (n =? 215))%N
  then ascii_of_N (n + 32) else c.

Fixpoint lower (s : string) : string :=
  match s with
  | EmptyString => EmptyString
  | String c r => String (lower_char c) (lower r)
  end.

Fixpoint forallb_str (p : ascii -> bool) (s : string) : bool :=
  match s with
  | EmptyString => true
  | String c r => p c && forallb_str p r
  end.

(** The longest prefix of characters satisfying [p], and the rest. *)
Fixpoint span (p : ascii -> bool) (s : string) : string * string :=
  match s with
  | EmptyString => (EmptyString, EmptyString)
  | String c r =>
      if p c then let (a, b) := span p r in (String c a, b)
      else (EmptyString, s)
  end.

Fixpoint lstrip_with (p : ascii -> bool) (s : string) : string :=
  match s with
  | EmptyString => EmptyString
  | String c r => if p c then lstrip_with p r else s
  end.

(** Drop the trailing characters satisfying [p]. *)
Fixpoint rstrip_with (p : ascii -> bool) (s : string) : string :=
  match s with
  | EmptyString => EmptyString
  | String c r =>
      match rstrip_with p r with
      | EmptyString => if p c then EmptyString else String c EmptyString
      | r' => String c r'
      end
  end.

(** [s.strip()] *)
Definition strip (s : string) : string :=
  rstrip_with is_space (lstrip_with is_space s).

(** [s.rstrip(c)] for a one-character argument. *)
Definition rstrip_char (c : ascii) (s : string) : string :=
  rstrip_with (Ascii.eqb c) s.

(** [s.startswith(p)] *)
Fixpoint startswith (p s : string) : bool :=
  match p, s with
  | EmptyString, _ => true
  | String a p', String b s' => Ascii.eqb a b && startswith p' s'
  | String _ _, EmptyString => false
  end.

Definition is_empty (s : string) : bool :=
  match s with EmptyString => true | _ => false end.

(** [bool(s)] *)
Definition truthy (s : string) : bool := negb (is_empty s).

(** Value of a digit string in base 10 (every character a decimal digit). *)
Fixpoint int_of_digits_acc (s : string) (acc : Z) : Z :=
  match s with
  | EmptyString => acc
  | String c r => int_of_digits_acc r (10 * acc + (Z.of_N (code c) - 48))
  end.

Definition int_of_digits (s : string) : Z := int_of_digits_acc s 0.

(** Whitespace that [int(s)] skips at the ends of a string: the ASCII
    whitespace characters, and NEL and NBSP, which the conversion turns
    into blanks beforehand.  The separators 28 to 31, which [str.strip]
    removes, are not skipped. *)
Definition is_int_space (c : ascii) : bool :=
  let n := code c in
  ((9 <=? n) && (n <=? 13) || (n =? 32) || (n =? 133) || (n =? 160))%N.

(** The body of a decimal integer literal: digits, with single underscores
    between digits only.  [after_digit] tells that the previous character
    was a digit. *)
Fixpoint int_body_ok (s : string) (after_digit : bool) : bool :=
  match s with
  | EmptyString => after_digit
  | String c r =>
      if is_digit c then int_body_ok r true
      else if Ascii.eqb c "_" then after_digit && int_body_ok r false
      else false
  end.

(** The characters of [s] that satisfy [p]. *)
Fixpoint filter_str (p : ascii -> bool) (s : string) : string :=
  match s with
  | EmptyString => EmptyString
  | String c r => if p c then String c (filter_str p r) else filter_str p r
  end.

(** CPython's default limit on the number of digits of a decimal string
    converted to an [int] ([sys.int_info.default_max_str_digits]). *)
Definition MAX_STR_DIGITS : Z := 4300.

(** [int(s)] for a string [s]: whitespace at the ends is skipped, a sign may
    precede the digits; a text of another form, and one of more than
    [MAX_STR_DIGITS] digits, raises [ValueError]. *)
Definition py_int (s : string) : result Z :=
  let t := rstrip_with is_int_space (lstrip_with is_int_space s) in
  let '(neg, body) :=
    match t with
    | String c r =>
        if Ascii.eqb c "-" then (true, r)
        else if Ascii.eqb c "+" then (false, r) else (false, t)
    | EmptyString => (false, t)
    end in
  let digits := filter_str is_digit body in
  if int_body_ok body false && (Z.of_nat (String.length digits) <=? MAX_STR_DIGITS)%Z
  then Ok (if neg then - int_of_digits digits else int_of_digits digits)
  else Raise ValueError.

Definition hex_val (c : ascii) : Z :=
  let n := Z.of_N (code c) in
  if is_digit c then n - 48
  else if (97 <=? n)%Z then n - 87 else n - 55.

Fixpoint int_of_hex_acc (s : string) (acc : Z) : Z :=
  match s with
  | EmptyString => acc
  | String c r => int_of_hex_acc r (16 * acc + hex_val c)
  end.

(** [int(s, 16)] for a string of hexadecimal digits. *)
Definition int_of_hex (s : string) : Z := int_of_hex_acc s 0.

Definition digit_char (d : N) : ascii := ascii_of_N (48 + d).

Fixpoint digits_go (fuel : nat) (n : N) (acc : string) : string :=
  match fuel with
  | O => acc
  | S f =>
      let acc' := String (digit_char (n mod 10)) acc in
      if (n / 10 =? 0)%N then acc' else digits_go f (n / 10)%N acc'
  end.

(** Decimal digits of a natural number, most significant first. *)
Definition str_of_N (n : N) : string :=
  digits_go (S (N.to_nat (N.log2 n))) n EmptyString.

(** [str(n)] for an [int]. *)
Definition str_of_Z (n : Z) : string :=
  match n with
  | Z0 => "0"
  | Zpos p => str_of_N (Npos p)
  | Zneg p => String "-" (str_of_N (Npos p))
  end.

Fixpoint repeat_char (c : ascii) (n : nat) : string :=
  match n with
  | O => EmptyString
  | S k => String c (repeat_char c k)
  end.

Fixpoint take (n : nat) (s : string) : string :=
  match n, s with
  | S k, String c r => String c (take k r)
  | _, _ => EmptyString
  end.

Fixpoint drop (n : nat) (s : string) : string :=
  match n, s with
  | S k, String _ r => drop k r
  | _, _ => s
  end.

End PyStr.
Export PyStr.

(** ** Number formatting ([serve.py]) *)

Definition INT_MAX : Z := 2147483647.

(** The fixed-point text of a finite value with the given sign bit: the
    magnitude scaled and rounded, ties to even, then the point set
    [decimals] digits before the end. *)
Definition fixed_text (neg : bool) (q : Q) (decimals : Z) : string :=
  let d := Z.to_nat decimals in
  let k := round_half_even (Qabs q * inject_Z (10 ^ decimals))%Q in
  let ds := str_of_N (Z.to_N k) in
  let padded := repeat_char "0" (S d - String.length ds) +:+ ds in
  let n := (String.length padded - d)%nat in
  (if neg then "-" else EmptyString)
    +:+ take n padded
    +:+ (if (0 <? decimals)%Z then String "." (drop n padded) else EmptyString).

(** The format [f"{value:.{decimals}f}"]: the exact value rounded, ties to
    even, to [decimals] places; the negative zero keeps its sign.  A
    precision above [INT_MAX] is refused by the formatter, a negative one
    by the format-spec parser. *)
Definition format_fixed (value : pyfloat) (decimals : Z) : result string :=
  if (decimals <? 0)%Z || (INT_MAX <? decimals)%Z then Raise ValueError
  else
    Ok match value with
       | NaN => "nan"
       | Inf s => if s then "-inf" else "inf"
       | Fin q => fixed_text (is_neg q) q decimals
       | NZero => fixed_text true 0%Q decimals
       end.

(** [format_num(value, decimals=None, trim=True)] *)
Definition format_num (value : pyfloat) (decimals : option Z) (trim : bool)
  : result string :=
  match decimals with
  | Some d =>
      out ← format_fixed value d;
      if trim && (0 <? d)%Z
      then Ok (rstrip_char "." (rstrip_char "0" out))
      else Ok out
  | None =>
      if is_integer value then n ← trunc value; Ok (str_of_Z n)
      else out ← format_fixed value 4;
           Ok (rstrip_char "." (rstrip_char "0" out))
  end.

(** ** Python values

    The values that reach the core as [Any]: what [json.load] and the
    database rows produce.  An object keeps its members in insertion
    order. *)

#[local] Set Warnings "-register-all".

Inductive json : Type :=
  | JNull
  | JBool (b : bool)
  | JInt (n : Z)
  | JFloat (x : pyfloat)
  | JStr (s : string)
  | JArr (items : list json)
  | JObj (members : list (string * json)).

(** [d.get(key)] on the members of an object. *)
Fixpoint dict_get (key : string) (members : list (string * json)) : option json :=
  match members with
  | [] => None
  | (k, v) :: rest => if String.eqb k key then Some v else dict_get key rest
  end.

(** Library routines used by the core: [json.loads] ([None] when it raises)
    and [float(s)] on a string ([None] when it raises [ValueError]). *)
Record pylib : Type := {
  json_loads : string -> option json;
  float_of_str : string -> option pyfloat
}.

(** ** Regular expressions of [serve.py] *)

Record re_match : Type := {
  group0 : string;          (* the matched text *)
  group1 : string;
  group2 : option string;
  group3 : option string
}.

Definition not_rbracket (c : ascii) : bool := negb (Ascii.eqb c "]").

(** The optional part [(?:\[([^\]]+)\])?] tried at [s]: the bracket body and
    what follows the closing bracket. *)
Definition bracket_group (s : string) : option (string * string) :=
  match s with
  | String c r =>
      if Ascii.eqb c "[" then
        match span not_rbracket r with
        | (String b body, String _ r') => Some (String b body, r')
        | _ => None
        end
      else None
  | EmptyString => None
  end.

(** [SKILL_PARAM_RE = #(\d+)(?:\[([^\]]+)\])?(%)?] matched at the start of
    [s]: the match and the text after it.  Every quantifier is greedy and
    everything after the digits is optional, so the first attempt of the
    backtracking matcher is the one that succeeds. *)
Definition SKILL_PARAM_RE (s : string) : option (re_match * string) :=
  match s with
  | String c r =>
      if Ascii.eqb c "#" then
        let (ds, r1) := span is_digit r in
        if is_empty ds then None
        else
          let '(g2, r2) :=
            match bracket_group r1 with
            | Some (body, r') => (Some body, r')
            | None => (None, r1)
            end in
          let '(g3, r3) :=
            match r2 with
            | String p r' =>
                if Ascii.eqb p "%" then (Some "%", r') else (None, r2)
            | EmptyString => (None, r2)
            end in
          Some ({| group0 :=
                     "#" +:+ ds
                       +:+ match g2 with Some body => "[" +:+ body +:+ "]" | None => EmptyString end
                       +:+ match g3 with Some p => p | None => EmptyString end;
                   group1 := ds; group2 := g2; group3 := g3 |}, r3)
      else None
  | EmptyString => None
  end.

(** [pattern.sub(repl, s)] for a pattern that never matches the empty string:
    scan left to right; at a match, call [repl] and resume after the matched
    text ([skip] counts the characters of the current match still to pass). *)
Fixpoint re_sub_go (re : string -> option (re_match * string))
    (repl : re_match -> result string) (s : string) (skip : nat) : result string :=
  match s with
  | EmptyString => Ok EmptyString
  | String c r =>
      match skip with
      | S k => re_sub_go re repl r k
      | O =>
          match re s with
          | Some (m, _) =>
              out ← repl m;
              tail ← re_sub_go re repl r (String.length (group0 m) - 1);
              Ok (out +:+ tail)
          | None =>
              tail ← re_sub_go re repl r 0;
              Ok (String c tail)
          end
      end
  end.

Definition re_sub (re : string -> option (re_match * string))
    (repl : re_match -> result string) (s : string) : result string :=
  re_sub_go re repl s 0.

(** [re.match(r"f(\d+)", fmt)]: the digits after a leading [f]. *)
Definition match_f_digits (fmt : string) : option string :=
  match fmt with
  | String c r =>
      if Ascii.eqb c "f" then
        let (ds, _) := span is_digit r in
        if is_empty ds then None else Some ds
      else None
  | EmptyString => None
  end.

(** ** Template rendering ([serve.py]) *)

Section Template.
Variable lib : pylib.

Definition param_src (item : json) : json :=
  match item with
  | JObj members => default JNull (dict_get "Value" members)
  | _ => item
  end.

Fixpoint collect_params (data : list json) : result (list pyfloat) :=
  match data with
  | [] => Ok []
  | item :: rest =>
      match param_src item with
      | JBool b => x ← float_of_int (if b then 1 else 0);
                   vals ← collect_params rest; Ok (x :: vals)
      | JInt n => x ← float_of_int n;
                  vals ← collect_params rest; Ok (x :: vals)
      | JFloat x => vals ← collect_params rest; Ok (x :: vals)
      | JStr s =>
          match float_of_str lib s with
          | Some x => vals ← collect_params rest; Ok (x :: vals)
          | None => collect_params rest
          end
      | _ => collect_params rest
      end
  end.

Definition parse_param_values (raw : json) : result (list pyfloat) :=
  match raw with
  | JNull => Ok []
  | JStr s =>
      match json_loads lib s with
      | Some (JArr data) => collect_params data
      | _ => Ok []
      end
  | JArr data => collect_params data
  | _ => Ok []
  end.

(** [int(match.group(1)) - 1] *)
Definition token_index (m : re_match) : result Z :=
  n ← py_int (group1 m); Ok (n - 1).

(** [(match.group(2) or '').strip().lower()] *)
Definition token_format (m : re_match) : string :=
  lower (strip (default EmptyString (group2 m))).

(** [bool(match.group(3))] *)
Definition token_percent (m : re_match) : bool :=
  match group3 m with Some p => truthy p | None => false end.

(** [params[index] * 100.0 if is_percent else params[index]] *)
Definition scaled (m : re_match) (p : pyfloat) : pyfloat :=
  if token_percent m then fmul p (of_Z 100) else p.

Definition percent_suffix (m : re_match) : string :=
  if token_percent m then "%" else EmptyString.

(** The inner function [repl] of [apply_param_template]. *)
Definition repl (params : list pyfloat) (m : re_match) : result string :=
  index ← token_index m;
  let fmt := token_format m in
  if (index <? 0)%Z || (Z.of_nat (length params) <=? index)%Z then Ok (group0 m)
  else
    let value := scaled m (default NaN (params !! Z.to_nat index)) in
    rendered ←
      (if startswith "i" fmt then n ← round0 value; Ok (str_of_Z n)
       else if startswith "f" fmt then
         decimals ←
           match match_f_digits fmt with
           | Some ds => py_int ds
           | None => Ok 0
           end;
         format_num value (Some decimals) false
       else format_num value None true);
    Ok (rendered +:+ percent_suffix m).

Definition apply_param_template (template : option string) (raw_params : json)
  : result (option string) :=
  match template with
  | None => Ok None
  | Some t =>
      params ← parse_param_values raw_params;
      match params with
      | [] => Ok (Some t)
      | _ => out ← re_sub SKILL_PARAM_RE (repl params) t; Ok (Some out)
      end
  end.

End Template.

(** ** Hash-key resolution and text lookup ([serve.py]) *)

(** The two hashing paths as the process finds them at start-up.
    [xxhash]: the in-process module, absent when its import failed; applied
    to a key it yields the 64-bit digest, or nothing when the call raises.
    [XXHSUM_BIN]: the external utility, absent when [shutil.which] found
    none; run on a key it yields the return code and the decoded standard
    output, or nothing when [subprocess.run] raises. *)
Record hashers : Type := {
  xxhash : option (string -> option N);
  XXHSUM_BIN : option (string -> option (Z * string))
}.

(** [RAW_HASH_RE.fullmatch]: one or more decimal digits. *)
Definition RAW_HASH_RE (s : string) : bool := truthy s && forallb_str is_digit s.

(** [XXH64_TOKEN_RE.fullmatch]: exactly sixteen hexadecimal digits. *)
Definition XXH64_TOKEN_RE (s : string) : bool :=
  (String.length s =? 16)%nat && forallb_str is_hex s.

(** The first element of [s.strip().split()], when there is one. *)
Definition first_word (s : string) : option string :=
  match lstrip_with is_space s with
  | EmptyString => None
  | t => Some (fst (span (fun c => negb (is_space c)) t))
  end.

Definition hash_with_xxhash (h : hashers) (token : string) : option string :=
  match xxhash h with
  | Some xxh64 =>
      match xxh64 token with
      | Some digest => Some (str_of_N digest)
      | None => None
      end
  | None => None
  end.

Definition hash_with_xxhsum (h : hashers) (token : string) : option string :=
  match XXHSUM_BIN h with
  | Some run =>
      match run token with
      | Some (returncode, stdout) =>
          if (returncode =? 0)%Z then
            match first_word stdout with
            | Some w => if XXH64_TOKEN_RE w then Some (str_of_Z (int_of_hex w)) else None
            | None => None
            end
          else None
      | None => None
      end
  | None => None
  end.

(** [hash_text_key(raw_key)]; memoisation does not change the result. *)
Definition hash_text_key (h : hashers) (raw_key : string) : option string :=
  let token := strip raw_key in
  if is_empty token then None
  else if RAW_HASH_RE token then Some token
  else
    match hash_with_xxhash h token with
    | Some address => Some address
    | None => hash_with_xxhsum h token
    end.

(** The [text_map] table: primary key (lang, hash). *)
Abbreviation text_store := (gmap (string * string) string).

Definition resolve_text_from_key (h : hashers) (text_map : text_store)
    (lang : string) (raw_key : option string) : option string :=
  match raw_key with
  | None => None
  | Some key =>
      if is_empty key then None
      else
        match hash_text_key h key with
        | None => None
        | Some hashed =>
            if is_empty hashed then None else text_map !! (lang, hashed)
        end
  end.

Definition found (text : option string) : bool :=
  match text with Some t => truthy t | None => false end.

Definition resolve_text_with_fallback (h : hashers) (text_map : text_store)
    (lang : string) (raw_key : option string) (fallback : option string)
  : option string :=
  let text := resolve_text_from_key h text_map lang raw_key in
  if found text then text
  else
    let text_chs := resolve_text_from_key h text_map "CHS" raw_key in
    if negb (String.eqb lang "CHS") && found text_chs then text_chs
    else
      let text_en := resolve_text_from_key h text_map "EN" raw_key in
      if negb (String.eqb lang "EN") && found text_en then text_en
      else fallback.

(** ** Per-level stats ([serve.py]) *)

(** A row of [avatar_promotion] as the dictionary the builder reads; a
    missing or NULL entry is [None]. *)
Record promotion_row : Type := {
  promotion : option Z;
  max_level : option Z;
  hp_base : option pyfloat;
  hp_add : option pyfloat;
  attack_base : option pyfloat;
  attack_add : option pyfloat;
  defence_base : option pyfloat;
  defence_add : option pyfloat;
  speed_base : option pyfloat
}.

Record level_stats : Type := {
  row_level : Z;
  row_promotion : option Z;
  row_hp : option pyfloat;
  row_attack : option pyfloat;
  row_defence : option pyfloat;
  row_speed : option pyfloat
}.

(** [stat_at_level(base, growth, level)].  The level is a loop index; its
    conversion to a float is [of_Z]. *)
Definition stat_at_level (base growth : option pyfloat) (level : Z) : option pyfloat :=
  match base with
  | None => None
  | Some b =>
      match growth with
      | None => Some (round_nd 4 b)
      | Some g => Some (round_nd 4 (fadd b (fmul g (of_Z (level - 1)))))
      end
  end.

(** The sort key [int(x.get("max_level") or 0)]. *)
Definition level_key (p : promotion_row) : Z := default 0 (max_level p).

(** [list.sort(key=...)] is stable: equal keys keep their order. *)
Fixpoint insert_by_key {A : Type} (key : A -> Z) (x : A) (l : list A) : list A :=
  match l with
  | [] => [x]
  | y :: l' => if (key x <=? key y)%Z then x :: l else y :: insert_by_key key x l'
  end.

Fixpoint sort_by_key {A : Type} (key : A -> Z) (l : list A) : list A :=
  match l with
  | [] => []
  | x :: l' => insert_by_key key x (sort_by_key key l')
  end.

(** [range(1, n + 1)] *)
Definition levels_upto (n : Z) : list Z :=
  map (fun i => Z.of_nat i) (seq 1 (Z.to_nat n)).

Definition has_max_level (p : promotion_row) : bool :=
  match max_level p with Some _ => true | None => false end.

(** [next((p for p in valid if level <= key(p)), valid[-1])] for a non-empty
    [valid], whose last element is [final]. *)
Definition pick_stage (valid : list promotion_row) (final : promotion_row)
    (level : Z) : promotion_row :=
  default final (List.find (fun p => (level <=? level_key p)%Z) valid).

Definition stats_row (stage : promotion_row) (level : Z) : level_stats :=
  {| row_level := level;
     row_promotion := promotion stage;
     row_hp := stat_at_level (hp_base stage) (hp_add stage) level;
     row_attack := stat_at_level (attack_base stage) (attack_add stage) level;
     row_defence := stat_at_level (defence_base stage) (defence_add stage) level;
     row_speed := stat_at_level (speed_base stage) None level |}.

Definition build_avatar_level_stats (promotions : list promotion_row) (max_level : Z)
  : list level_stats :=
  let valid := sort_by_key level_key (List.filter has_max_level promotions) in
  match valid with
  | [] => []
  | first :: _ =>
      let final := List.last valid first in
      map (fun level => stats_row (pick_stage valid final level) level)
          (levels_upto max_level)
  end.

(** ** Module closure ([build_module_dbs.py], schema of [build_db.py])

    Of every table the columns that hold content addresses or keys are
    kept, together with the primary key; a TEXT column holds NULL or a
    string. *)

Record avatar_row : Type := {
  avatar_id : Z;
  avatar_name_hash : option string;
  avatar_full_name_hash : option string
}.

Record skill_row : Type := {
  skill_id : Z;
  skill_level : Z;
  skill_name_hash : option string;
  skill_desc_hash : option string;
  skill_tag_hash : option string
}.

Record rank_row : Type := {
  rank_id : Z;
  rank_trigger_hash : option string;
  rank_name_raw : option string;
  rank_desc_raw : option string;
  rank_ability_json : option string
}.

Record talk_row : Type := {
  talk_sentence_id : Z;
  talk_speaker_hash : option string;
  talk_text_hash : option string
}.

Record main_mission_row : Type := {
  main_mission_id : Z;
  mission_name_hash : option string
}.

Record sub_mission_row : Type := {
  sub_mission_id : Z;
  sub_target_hash : option string;
  sub_description_hash : option string
}.

Record item_row : Type := {
  item_id : Z;
  item_name_hash : option string;
  item_desc_hash : option string;
  item_bg_desc_hash : option string
}.

Record database : Type := {
  avatar : list avatar_row;
  avatar_promotion : list promotion_row;
  avatar_skill : list skill_row;
  avatar_rank : list rank_row;
  talk_sentence : list talk_row;
  main_mission : list main_mission_row;
  sub_mission : list sub_mission_row;
  item : list item_row
}.

(** The index structures read from the resource files; a loader that raises
    yields [None].  Entries keep the fields the closure reads; a field that
    is not a string is [None]. *)
Record monster_item : Type := {
  monster_name_hash : option string;
  monster_introduction_hash : option string;
  ability_name_keys : list string
}.

Record monster_skill : Type := {
  mskill_name_hash : option string;
  mskill_desc_hash : option string;
  mskill_type_desc_hash : option string;
  mskill_tag_hash : option string
}.

Record resources : Type := {
  (* [stories_by_avatar.values()] as lists of [story_hash], and
     [story_name_hash_by_id.values()] *)
  avatar_story_index : option (list (list (option string)) * list (option string));
  (* per light cone, the [(skill_name_hash, skill_desc_hash)] of its levels *)
  light_cone_index : option (list (list (option string * option string)));
  monster_index : option (list monster_item * list monster_skill)
}.

Inductive module : Type :=
  | Avatar | Dialogue | Mission | Item | Monster.

(** [add_hash_if_any(out, raw)] *)
Definition add_hash_if_any (h : hashers) (out : gset string) (raw : option string)
  : gset string :=
  match raw with
  | None => out
  | Some r =>
      if is_empty r then out
      else
        match hash_text_key h r with
        | Some address => if is_empty address then out else {[ address ]} ∪ out
        | None => out
        end
  end.

Definition add_hashes (h : hashers) (out : gset string) (raws : list (option string))
  : gset string :=
  fold_left (add_hash_if_any h) raws out.

(** [add_hashes_from_sql] with the statement
    [SELECT col FROM table WHERE col IS NOT NULL AND col != '']. *)
Definition add_hashes_from_sql {R : Type} (needed_hash : gset string)
    (col : R -> option string) (table : list R) : gset string :=
  fold_left
    (fun acc r =>
       match col r with
       | Some v => if is_empty v then acc else {[ v ]} ∪ acc
       | None => acc
       end)
    table needed_hash.

(** [add_hashes_from_iter] *)
Definition add_hashes_from_iter (needed_hash : gset string) (hashes : gset string)
  : gset string :=
  needed_hash ∪ filter (fun v => is_empty v = false) hashes.

(** The string elements of the array decoded from [rank_ability_json]. *)
Definition rank_ability_keys (lib : pylib) (raw : option string) : list (option string) :=
  match json_loads lib (default "[]" raw) with
  | Some (JArr items) =>
      map (fun v => match v with JStr s => Some s | _ => None end) items
  | _ => []
  end.

(** [gather_module_hashes]: the addresses inserted into [needed_hash] by the
    SQL statements, and the returned set [out]. *)
Definition gather_module_hashes (lib : pylib) (h : hashers) (db : database)
    (res : resources) (m : module) (needed_hash : gset string)
  : gset string * gset string :=
  match m with
  | Avatar =>
      let n1 := add_hashes_from_sql needed_hash avatar_name_hash (avatar db) in
      let n2 := add_hashes_from_sql n1 avatar_full_name_hash (avatar db) in
      let n3 := add_hashes_from_sql n2 skill_name_hash (avatar_skill db) in
      let n4 := add_hashes_from_sql n3 skill_desc_hash (avatar_skill db) in
      let n5 := add_hashes_from_sql n4 skill_tag_hash (avatar_skill db) in
      let out1 :=
        fold_left
          (fun out row =>
             add_hashes h out
               (rank_name_raw row :: rank_desc_raw row
                  :: rank_ability_keys lib (rank_ability_json row)))
          (avatar_rank db) ∅ in
      let out2 :=
        match avatar_story_index res with
        | Some (stories_by_avatar, story_name_hash_by_id) =>
            add_hashes h (add_hashes h out1 (concat stories_by_avatar))
              story_name_hash_by_id
        | None => out1
        end in
      (n5, out2)
  | Dialogue =>
      let n1 := add_hashes_from_sql needed_hash talk_speaker_hash (talk_sentence db) in
      let n2 := add_hashes_from_sql n1 talk_text_hash (talk_sentence db) in
      (n2, ∅)
  | Mission =>
      let n1 := add_hashes_from_sql needed_hash mission_name_hash (main_mission db) in
      let n2 := add_hashes_from_sql n1 sub_target_hash (sub_mission db) in
      let n3 := add_hashes_from_sql n2 sub_description_hash (sub_mission db) in
      (n3, ∅)
  | Item =>
      let n1 := add_hashes_from_sql needed_hash item_name_hash (item db) in
      let n2 := add_hashes_from_sql n1 item_desc_hash (item db) in
      let n3 := add_hashes_from_sql n2 item_bg_desc_hash (item db) in
      let out :=
        match light_cone_index res with
        | Some lc_index =>
            add_hashes h ∅
              (flat_map (fun lv => [fst lv; snd lv]) (concat lc_index))
        | None => ∅
        end in
      (n3, out)
  | Monster =>
      let out :=
        match monster_index res with
        | Some (items, skills) =>
            let out1 :=
              fold_left
                (fun out it =>
                   add_hashes h out
                     ([monster_name_hash it; monster_introduction_hash it]
                        ++ map Some (ability_name_keys it)))
                items ∅ in
            fold_left
              (fun out sk =>
                 add_hashes h out
                   [mskill_name_hash sk; mskill_desc_hash sk;
                    mskill_type_desc_hash sk; mskill_tag_hash sk])
              skills out1
        | None => ∅
        end in
      (needed_hash, out)
  end.

(** The tables a module database receives from the source database
    ([copy_module_tables]). *)
Definition copy_module_tables (src : database) (m : module) : database :=
  let empty := {| avatar := []; avatar_promotion := []; avatar_skill := [];
                  avatar_rank := []; talk_sentence := []; main_mission := [];
                  sub_mission := []; item := [] |} in
  match m with
  | Avatar =>
      {| avatar := avatar src; avatar_promotion := avatar_promotion src;
         avatar_skill := avatar_skill src; avatar_rank := avatar_rank src;
         talk_sentence := []; main_mission := []; sub_mission := []; item := [] |}
  | Dialogue =>
      {| avatar := []; avatar_promotion := []; avatar_skill := []; avatar_rank := [];
         talk_sentence := talk_sentence src; main_mission := []; sub_mission := [];
         item := [] |}
  | Mission =>
      {| avatar := []; avatar_promotion := []; avatar_skill := []; avatar_rank := [];
         talk_sentence := []; main_mission := main_mission src;
         sub_mission := sub_mission src; item := [] |}
  | Item =>
      {| avatar := []; avatar_promotion := []; avatar_skill := []; avatar_rank := [];
         talk_sentence := []; main_mission := []; sub_mission := []; item := item src |}
  | Monster => empty
  end.

(** The contents of [needed_hash] when [build_one_module] projects the text
    map: the table starts empty, [gather_module_hashes] fills it and returns
    [extra], which [add_hashes_from_iter] inserts. *)
Definition module_closure (lib : pylib) (h : hashers) (src : database)
    (res : resources) (m : module) : gset string :=
  let db := copy_module_tables src m in
  let '(needed_hash, extra) := gather_module_hashes lib h db res m ∅ in
  add_hashes_from_iter needed_hash extra.

(** [copy_text_map_for_hashes]: the rows of the source text map whose
    address is needed and whose language is requested. *)
Definition copy_text_map_for_hashes (text_map : text_store) (needed_hash : gset string)
    (langs : list string) : text_store :=
  filter (fun kv => fst (fst kv) ∈ langs ∧ snd (fst kv) ∈ needed_hash) text_map.

(** ** Reference extraction ([build_db.py]) *)

(** [re.fullmatch(r"-?\d+", s)] *)
Definition SIGNED_INT_RE (s : string) : bool :=
  match s with
  | String c r => if Ascii.eqb c "-" then RAW_HASH_RE r else RAW_HASH_RE s
  | EmptyString => false
  end.

(** [to_int(value)], applied to the result of [node.get(...)].  The pattern
    is tried on the stripped string, the conversion is of the string as it
    is; its [ValueError] is caught. *)
Definition to_int (value : option json) : option Z :=
  match value with
  | Some (JInt n) => Some n
  | Some (JStr s) =>
      if SIGNED_INT_RE (strip s) then
        match py_int s with
        | Ok n => Some n
        | Raise _ => None
        end
      else None
  | _ => None
  end.

(** [as_custom(value)] *)
Definition as_custom (value : option json) : option string :=
  match value with
  | Some (JStr s) => Some s
  | Some (JObj members) =>
      match dict_get "Value" members with
      | Some (JStr s) => Some s
      | _ => None
      end
  | _ => None
  end.

(** [value if isinstance(value, str) else None] *)
Definition as_str (value : option json) : option string :=
  match value with
  | Some (JStr s) => Some s
  | _ => None
  end.

(** [TALK_SENTENCE_RE.search(s)]: group 1 of the leftmost match of
    [TalkSentence_(\d+)], the longest run of digits after the prefix. *)
Fixpoint TALK_SENTENCE_RE (s : string) : option string :=
  match s with
  | EmptyString => None
  | String _ r =>
      if startswith "TalkSentence_" s then
        match span is_digit (drop 13 s) with
        | (String d ds, _) => Some (String d ds)
        | _ => TALK_SENTENCE_RE r
        end
      else TALK_SENTENCE_RE r
  end.

Fixpoint replace_char (a b : ascii) (s : string) : string :=
  match s with
  | EmptyString => EmptyString
  | String c r => String (if Ascii.eqb c a then b else c) (replace_char a b r)
  end.

(** [s.split(sep)] for a one-character separator. *)
Fixpoint split_char (sep : ascii) (s : string) : list string :=
  match s with
  | EmptyString => [EmptyString]
  | String c r =>
      if Ascii.eqb c sep then EmptyString :: split_char sep r
      else
        match split_char sep r with
        | w :: ws => String c w :: ws
        | [] => [String c EmptyString]
        end
  end.

Definition source_group (path : string) : string :=
  let parts := split_char "/" (replace_char "\" "/" path) in
  match parts with
  | p0 :: p1 :: rest =>
      if String.eqb p0 "Story" then "Story/" +:+ p1
      else
        match rest with
        | p2 :: _ =>
            if String.eqb p0 "Config" && String.eqb p1 "Level"
            then "Config/Level/" +:+ p2 else p0
        | [] => p0
        end
  | [p0] => p0
  | [] => "Unknown"
  end.

Record reference_row : Type := {
  source_path : string;
  ref_group : string;
  json_path : string;
  task_type : option string;
  ref_talk_sentence_id : option Z;
  timeline_name : option string;
  performance_type : option string;
  performance_id : option Z;
  trigger_custom_string : option string;
  custom_string : option string
}.

(** The de-duplication key of a row. *)
Definition ref_key : Type :=
  string * option string * option Z * option string * option string
  * option Z * option string * option string.

Definition key_of (r : reference_row) : ref_key :=
  (json_path r, task_type r, ref_talk_sentence_id r, timeline_name r,
   performance_type r, performance_id r, trigger_custom_string r, custom_string r).

Record walk_state : Type := {
  rows : list reference_row;
  seen : gset ref_key
}.

(** The tag an object node carries itself: its [$type] when a string. *)
Definition own_tag (node : json) : option string :=
  match node with
  | JObj members => as_str (dict_get "$type" members)
  | _ => None
  end.

(** The id a candidate string yields: none when the string is missing or
    empty or the pattern is not found; the conversion of the digits found
    can raise. *)
Definition talk_id_from (candidate : option string) : result (option Z) :=
  match candidate with
  | Some s =>
      if truthy s then
        match TALK_SENTENCE_RE s with
        | Some digits => n ← py_int digits; Ok (Some n)
        | None => Ok None
        end
      else Ok None
  | None => Ok None
  end.

(** The talk-sentence id of a node: the typed field, else the first match of
    the numeral-suffix pattern in the trigger string, then the custom
    string. *)
Definition talk_id_of (members : list (string * json)) (trigger custom : option string)
  : result (option Z) :=
  match to_int (dict_get "TalkSentenceID" members) with
  | Some n => Ok (Some n)
  | None =>
      found_id ← talk_id_from trigger;
      match found_id with
      | Some n => Ok (Some n)
      | None => talk_id_from custom
      end
  end.

(** The row an object node stands for under a given type tag, when at least
    one of its reference fields is present. *)
Definition node_row (rel_path group : string) (members : list (string * json))
    (path : string) (tag : option string) : result (option reference_row) :=
  let trigger := as_custom (dict_get "TriggerCustomString" members) in
  let custom := as_custom (dict_get "CustomString" members) in
  talk_id ← talk_id_of members trigger custom;
  let timeline := as_str (dict_get "TimelineName" members) in
  let perf_type := as_str (dict_get "PerformanceType" members) in
  let perf_id := to_int (dict_get "PerformanceID" members) in
  if bool_decide (is_Some talk_id) || found timeline || found perf_type
     || bool_decide (is_Some perf_id) || found trigger || found custom
  then Ok (Some {| source_path := rel_path; ref_group := group; json_path := path;
                   task_type := tag; ref_talk_sentence_id := talk_id;
                   timeline_name := timeline; performance_type := perf_type;
                   performance_id := perf_id; trigger_custom_string := trigger;
                   custom_string := custom |})
  else Ok None.

(** Append a row unless its key was seen. *)
Definition emit (st : walk_state) (r : reference_row) : walk_state :=
  if bool_decide (key_of r ∈ seen st) then st
  else {| rows := rows st ++ [r]; seen := {[ key_of r ]} ∪ seen st |}.

Definition emit_opt (st : walk_state) (r : option reference_row) : walk_state :=
  match r with
  | Some row => emit st row
  | None => st
  end.

Definition child_path (path key : string) : string :=
  if String.eqb path "$" then "$." +:+ key else path +:+ "." +:+ key.

Definition index_path (path : string) (i : nat) : string :=
  path +:+ "[" +:+ str_of_N (N.of_nat i) +:+ "]".

(** The inner function [walk] of [extract_reference_rows]; the lists [rows]
    and [seen] it updates are threaded as a state, and an exception ends
    the walk. *)
Fixpoint walk (rel_path group : string) (node : json) (path : string)
    (inherited_task_type : option string) (st : walk_state) {struct node}
  : result walk_state :=
  match node with
  | JObj members =>
      let tag :=
        match as_str (dict_get "$type" members) with
        | Some t => Some t
        | None => inherited_task_type
        end in
      match node_row rel_path group members path tag with
      | Raise e => Raise e
      | Ok row =>
          (fix walk_members (ms : list (string * json)) (st : walk_state)
               {struct ms} : result walk_state :=
             match ms with
             | [] => Ok st
             | (key, value) :: rest =>
                 match walk rel_path group value (child_path path key) tag st with
                 | Ok st' => walk_members rest st'
                 | Raise e => Raise e
                 end
             end) members (emit_opt st row)
      end
  | JArr items =>
      (fix walk_items (vs : list json) (i : nat) (st : walk_state)
           {struct vs} : result walk_state :=
         match vs with
         | [] => Ok st
         | value :: rest =>
             match walk rel_path group value (index_path path i)
                     inherited_task_type st with
             | Ok st' => walk_items rest (S i) st'
             | Raise e => Raise e
             end
         end) items O st
  | _ => Ok st
  end.

Definition extract_reference_rows (rel_path : string) (data : json)
  : result (list reference_row) :=
  st ← walk rel_path (source_group rel_path) data "$" None
         {| rows := []; seen := ∅ |};
  Ok (rows st).

(** ** Statements about the stat curve *)


Definition stat_eq (x y : option pyfloat) : Prop :=
  match x, y with
  | Some a, Some b => feq a b
  | None, None => True
  | _, _ => False
  end.










(** [stage] is the breakpoint the specification selects for [level] in the
    sorted list [valid]: the first whose ceiling reaches the level, or the
    last one when none does. *)
Definition selected (valid : list promotion_row) (level : Z) (stage : promotion_row)
  : Prop :=
  (exists before after,
      valid = before ++ stage :: after /\ level <= level_key stage
      /\ forall p, p ∈ before -> level_key p < level)
  \/ ((forall p, p ∈ valid -> level_key p < level) /\ List.last (map Some valid) None = Some stage).

(** Order of two elements by their sort key. *)
Definition le_key {A : Type} (key : A -> Z) (x y : A) : Prop := key x <= key y.

Definition ascending (valid : list promotion_row) : Prop :=
  StronglySorted (le_key level_key) valid.

(** The interpolated value the specification gives for a defined base and
    growth. *)
Definition interpolated (base growth : pyfloat) (level : Z) : pyfloat :=
  round_nd 4 (fadd base (fmul growth (of_Z (level - 1)))).

(** The speed of every emitted row is the base of some breakpoint,
    value for value. *)
Definition speed_unmodified_claim (promotions : list promotion_row) (level_max : Z)
  : Prop :=
  forall r, r ∈ build_avatar_level_stats promotions level_max ->
    exists stage, stage ∈ promotions /\ stat_eq (row_speed r) (speed_base stage).

(** ** Statements about template rendering *)

(** The pieces [re.sub] cuts a template into: characters copied as they
    are, and matches handed to the replacement function. *)
Inductive segment : Type :=
  | Lit (c : ascii)
  | Tok (m : re_match).

Fixpoint scan_go (re : string -> option (re_match * string)) (s : string) (skip : nat)
  : list segment :=
  match s with
  | EmptyString => []
  | String c r =>
      match skip with
      | S k => scan_go re r k
      | O =>
          match re s with
          | Some (m, _) => Tok m :: scan_go re r (String.length (group0 m) - 1)
          | None => Lit c :: scan_go re r 0
          end
      end
  end.

(** The tokens and literal characters of a template, in order. *)
Definition scan (template : string) : list segment := scan_go SKILL_PARAM_RE template 0.

Definition segment_text (sg : segment) : string :=
  match sg with
  | Lit c => String c EmptyString
  | Tok m => group0 m
  end.

Fixpoint concat_text (sgs : list segment) : string :=
  match sgs with
  | [] => EmptyString
  | sg :: rest => segment_text sg +:+ concat_text rest
  end.

(** The output of [re.sub]: each segment rendered in order, stopping at the
    first replacement that raises. *)
Fixpoint render_segments (repl : re_match -> result string) (sgs : list segment)
  : result string :=
  match sgs with
  | [] => Ok EmptyString
  | Lit c :: rest => tail ← render_segments repl rest; Ok (String c tail)
  | Tok m :: rest =>
      out ← repl m; tail ← render_segments repl rest; Ok (out +:+ tail)
  end.

(** The 1-based index of a token is [0] or exceeds the number of
    parameters. *)
Definition out_of_range (params : list pyfloat) (m : re_match) : Prop :=
  int_of_digits (group1 m) <= 0 \/ Z.of_nat (length params) < int_of_digits (group1 m).

(** The number of digits the index of a token is written with. *)
Definition index_digits (m : re_match) : Z := Z.of_nat (String.length (group1 m)).

(** The index of every token of the template is written with at most
    [MAX_STR_DIGITS] digits. *)
Definition short_index (sg : segment) : bool :=
  match sg with
  | Tok m => (index_digits m <=? MAX_STR_DIGITS)%Z
  | Lit _ => true
  end.

Definition short_indices (template : string) : bool :=
  forallb short_index (scan template).

(** A template of one token, [#] and 4301 nines. *)
Definition long_token : string := "#" +:+ repeat_char "9" 4301.

(** The token carries the integer format. *)
Definition integer_format (m : re_match) : Prop :=
  startswith "i" (token_format m) = true.

(** The value lies halfway between the integers [n] and [n + 1]. *)
Definition halfway (x : pyfloat) (n : Z) : Prop :=
  exists q, x = Fin q /\ (q == inject_Z n + (1 # 2))%Q.

Definition even_neighbour (n : Z) : Z := if Z.even n then n else n + 1.

(** Rendering returns a text. *)
Definition renders (lib : pylib) (template : string) (raw_params : json) : Prop :=
  exists out, apply_param_template lib (Some template) raw_params = Ok (Some out).

(** A library whose parsers accept nothing; the inputs it is used with
    hold no string to parse. *)
Definition no_parsers : pylib :=
  {| json_loads := fun _ => None; float_of_str := fun _ => None |}.

(** ** Statements about text lookup *)

(** The specification's [get_with_fallback]: the first language of the chain
    with a text under [lookup], else the fallback. *)
Fixpoint first_text (lookup : string -> option string) (chain : list string)
    (fallback : option string) : option string :=
  match chain with
  | [] => fallback
  | lang :: rest =>
      match lookup lang with
      | Some t => Some t
      | None => first_text lookup rest fallback
      end
  end.

(** A stored text counts when it is not empty. *)
Definition nonempty_text (text : option string) : option string :=
  match text with
  | Some t => if truthy t then Some t else None
  | None => None
  end.

(** The in-process path yields no digest for the token. *)
Definition xxhash_fails (h : hashers) (token : string) : Prop :=
  match xxhash h with
  | None => True
  | Some xxh64 => xxh64 token = None
  end.

(** The external path yields no digest for the token. *)
Definition xxhsum_fails (h : hashers) (token : string) : Prop :=
  match XXHSUM_BIN h with
  | None => True
  | Some run =>
      match run token with
      | None => True
      | Some (returncode, stdout) =>
          returncode <> 0
          \/ match first_word stdout with
             | Some w => XXH64_TOKEN_RE w = false
             | None => True
             end
      end
  end.

Definition no_hashers : hashers := {| xxhash := None; XXHSUM_BIN := None |}.

(** ** Statements about the module closure *)

(** The hash fields of the rows of the avatar module, table by table. *)
Definition avatar_fields (r : avatar_row) : list (option string) :=
  [avatar_name_hash r; avatar_full_name_hash r].

Definition skill_fields (r : skill_row) : list (option string) :=
  [skill_name_hash r; skill_desc_hash r; skill_tag_hash r].

Definition rank_fields (r : rank_row) : list (option string) :=
  [rank_trigger_hash r].

(** [avatar_promotion] has no hash field. *)
Definition promotion_fields (r : promotion_row) : list (option string) := [].

(** The hash fields the closure collects: all but those of [avatar_rank]. *)
Definition collected_fields (db : database) : list (option string) :=
  flat_map avatar_fields (avatar db)
    ++ flat_map promotion_fields (avatar_promotion db)
    ++ flat_map skill_fields (avatar_skill db).

Definition all_hash_fields (db : database) : list (option string) :=
  collected_fields db ++ flat_map rank_fields (avatar_rank db).

Definition is_address (v : option string) (a : string) : Prop :=
  v = Some a /\ a <> EmptyString.

(** The indices the loaders return when the resource files are absent. *)
Definition no_resources : resources :=
  {| avatar_story_index := Some ([], []); light_cone_index := Some [];
     monster_index := Some ([], []) |}.

(** ** Statements about reference extraction *)

(** The tag of the nearest node of a chain (root first) that carries one. *)
Definition nearest_tag (chain : list json) : option string :=
  fold_left (fun acc node => match own_tag node with Some t => Some t | None => acc end)
            chain None.

(** Every object node of a document in visiting order, with its path and
    the chain of its ancestors, root first. *)
Fixpoint object_nodes (node : json) (path : string) (ancestors : list json)
    {struct node} : list (string * list json * list (string * json)) :=
  match node with
  | JObj members =>
      (path, ancestors, members)
        :: (fix in_members (ms : list (string * json)) {struct ms} :=
              match ms with
              | [] => []
              | (key, value) :: rest =>
                  object_nodes value (child_path path key) (ancestors ++ [node])
                    ++ in_members rest
              end) members
  | JArr items =>
      (fix in_items (vs : list json) (i : nat) {struct vs} :=
         match vs with
         | [] => []
         | value :: rest =>
             object_nodes value (index_path path i) (ancestors ++ [node])
               ++ in_items rest (S i)
         end) items O
  | _ => []
  end.

(** The row of an object node when its tag is the nearest one on the chain
    from the root to the node itself. *)
Definition row_by_nearest_tag (rel_path : string)
    (n : string * list json * list (string * json)) : result (option reference_row) :=
  let '(path, ancestors, members) := n in
  node_row rel_path (source_group rel_path) members path
    (nearest_tag (ancestors ++ [JObj members])).

(** The results in order, up to the first exception. *)
Fixpoint collect {A : Type} (rs : list (result A)) : result (list A) :=
  match rs with
  | [] => Ok []
  | r :: rest => a ← r; others ← collect rest; Ok (a :: others)
  end.

(** The rows of the results emitted in order onto a state, up to the first
    exception. *)
Definition emit_all (rs : list (result (option reference_row))) (st : walk_state)
  : result walk_state :=
  found_rows ← collect rs; Ok (fold_left emit_opt found_rows st).

(** Rows in order, a row dropped when an earlier one has its key. *)
Definition dedup_rows (rs : list (option reference_row)) : list reference_row :=
  rows (fold_left emit_opt rs {| rows := []; seen := ∅ |}).

(** The lookup order as the specification words it: the primary language,
    then CHS, then EN, a stored text of any length ending the search. *)
Definition fallback_claim (h : hashers) (text_map : text_store) (lang : string)
    (raw_key fallback : option string) : Prop :=
  resolve_text_with_fallback h text_map lang raw_key fallback
  = first_text (fun l => resolve_text_from_key h text_map l raw_key)
      [lang; "CHS"; "EN"] fallback.

(** A store whose JP text for address 123 is the empty string. *)
Definition empty_jp_store : text_store :=
  <[("JP", "123") := EmptyString]> {[ ("CHS", "123") := "Trailblazer" ]}.

(** The closure property as the specification words it: every non-empty
    hash field of every row of the avatar module is in the closure. *)
Definition closure_claim (lib : pylib) (h : hashers) (db : database) (res : resources)
  : Prop :=
  forall v a, v ∈ all_hash_fields db -> is_address v a ->
    a ∈ module_closure lib h db res Avatar.

(** A source database with one eidolon row, whose trigger carries the
    address 7100101. *)
Definition one_rank_db : database :=
  {| avatar := []; avatar_promotion := []; avatar_skill := [];
     avatar_rank :=
       [{| rank_id := 100101; rank_trigger_hash := Some "7100101";
           rank_name_raw := Some "AvatarRankName_100101";
           rank_desc_raw := Some "AvatarRankDesc_100101";
           rank_ability_json := Some "[]" |}];
     talk_sentence := []; main_mission := []; sub_mission := []; item := [] |}.

(** A source database with one character and one skill level. *)
Definition one_avatar_db : database :=
  {| avatar :=
       [{| avatar_id := 1001; avatar_name_hash := Some "1493290868";
           avatar_full_name_hash := Some EmptyString |}];
     avatar_promotion := [];
     avatar_skill :=
       [{| skill_id := 100101; skill_level := 1; skill_name_hash := Some "371857150";
           skill_desc_hash := Some "2048737107"; skill_tag_hash := None |}];
     avatar_rank := [];
     talk_sentence := []; main_mission := []; sub_mission := []; item := [] |}.

(** Structural induction on documents: a property that holds of every leaf,
    and of an array or object whenever it holds of all children, holds of
    every document. *)
Section JsonInduction.
Variable P : json -> Prop.
Hypothesis P_null : P JNull.
Hypothesis P_bool : forall b, P (JBool b).
Hypothesis P_int : forall n, P (JInt n).
Hypothesis P_float : forall x, P (JFloat x).
Hypothesis P_str : forall s, P (JStr s).
Hypothesis P_arr : forall items, Forall P items -> P (JArr items).
Hypothesis P_obj : forall members, Forall (fun kv => P (snd kv)) members -> P (JObj members).

Fixpoint json_induction (node : json) : P node :=
  match node with
  | JNull => P_null
  | JBool b => P_bool b
  | JInt n => P_int n
  | JFloat x => P_float x
  | JStr s => P_str s
  | JArr items =>
      P_arr items
        ((fix all (vs : list json) : Forall P vs :=
            match vs with
            | [] => List.Forall_nil P
            | v :: rest => @List.Forall_cons _ P v rest (json_induction v) (all rest)
            end) items)
  | JObj members =>
      P_obj members
        ((fix all (ms : list (string * json)) : Forall (fun kv => P (snd kv)) ms :=
            match ms with
            | [] => List.Forall_nil _
            | kv :: rest =>
                @List.Forall_cons _ (fun kv => P (snd kv)) kv rest
                  (json_induction (snd kv)) (all rest)
            end) members)
  end.

End JsonInduction.

(** A scene whose second child carries its own tag; the third has none. *)
Definition sample_document : json :=
  JObj [("$type", JStr "PlayTimeline");
        ("TimelineName", JStr "Intro");
        ("TaskList",
         JArr [JObj [("CustomString", JStr "TalkSentence_1010")];
               JObj [("$type", JStr "PlayOptionTalk");
                     ("PerformanceID", JInt 7)];
               JObj [("TriggerCustomString", JObj [("Value", JStr "Talk_End")])]])].

(** ** Inputs used in the examples *)

Definition breakpoint (stage ceiling : Z) (hp hp_g atk atk_g def def_g spd : Q)
  : promotion_row :=
  {| promotion := Some stage; max_level := Some ceiling;
     hp_base := Some (Fin hp); hp_add := Some (Fin hp_g);
     attack_base := Some (Fin atk); attack_add := Some (Fin atk_g);
     defence_base := Some (Fin def); defence_add := Some (Fin def_g);
     speed_base := Some (Fin spd) |}.



(** Two stages whose bases rise at the promotion. *)
Definition rising_promotions : list promotion_row :=
  [breakpoint 0 20 100 5 50 2 30 1 100; breakpoint 1 30 240 5 120 2 72 1 100].

(** One stage whose speed has more than four decimals: 2^-14. *)
Definition fine_speed : list promotion_row :=
  [breakpoint 0 20 100 5 50 2 30 1 (1 # 16384)].

(** The token [#1[i]%]. *)
Definition percent_token : re_match :=
  {| group0 := "#1[i]%"; group1 := "1"; group2 := Some "i"; group3 := Some "%" |}.

(** * Further functions *)

(** ** Further functions of [build_db.py] *)

(** [as_hash(value)], applied to the result of [item.get(...)]. *)
Definition as_hash (value : option json) : option string :=
  let raw :=
    match value with
    | Some (JObj members) =>
        match dict_get "Hash" members with
        | Some v => Some v
        | None => value
        end
    | _ => value
    end in
  match raw with
  | Some (JInt n) => Some (str_of_Z n)
  | Some (JStr s) => let t := strip s in if is_empty t then None else Some t
  | _ => None
  end.

(** [resolve(lang_maps, lang, hash_key)]; a dictionary is the list of its
    items. *)
Fixpoint assoc_get {V : Type} (key : string) (items : list (string * V)) : option V :=
  match items with
  | [] => None
  | (k, v) :: rest => if String.eqb k key then Some v else assoc_get key rest
  end.

Definition resolve (lang_maps : list (string * list (string * string)))
    (lang : string) (hash_key : option string) : option string :=
  match hash_key with
  | None => None
  | Some k =>
      if is_empty k then None
      else
        match assoc_get lang lang_maps with
        | Some mapping => assoc_get k mapping
        | None => None
        end
  end.

(** The rows [insert_text_map] hands to [executemany], in order. *)
Definition text_rows (lang_maps : list (string * list (string * string)))
  : list (string * string * string) :=
  flat_map (fun lm => map (fun kv => (fst lm, fst kv, snd kv)) (snd lm)) lang_maps.

(** [INSERT ... ON CONFLICT(lang, hash) DO UPDATE SET text=excluded.text] *)
Definition upsert_text (text_map : text_store) (row : string * string * string)
  : text_store :=
  <[(fst (fst row), snd (fst row)) := snd row]> text_map.

(** [insert_text_map(conn, lang_maps)]: the table afterwards and the
    returned row count. *)
Definition insert_text_map (text_map : text_store)
    (lang_maps : list (string * list (string * string))) : text_store * nat :=
  let rows := text_rows lang_maps in
  (fold_left upsert_text rows text_map, length rows).

(** ** Further functions of [serve.py] *)

(** [extract_hash_value(raw)]; a boolean is an [int] for [isinstance]. *)
Definition extract_hash_value (raw : option json) : option string :=
  let raw' :=
    match raw with
    | Some (JObj members) => dict_get "Hash" members
    | _ => raw
    end in
  match raw' with
  | Some (JBool b) => Some (if b then "True" else "False")
  | Some (JInt n) => Some (str_of_Z n)
  | Some (JStr s) => let t := strip s in if is_empty t then None else Some t
  | _ => None
  end.

(** [as_int(value, default, min_value, max_value)]; [int_of_str] is
    [int(value)], [None] when it raises [ValueError]. *)
Definition as_int (int_of_str : string -> option Z) (value : string)
    (default_value min_value max_value : Z) : Z :=
  match int_of_str value with
  | None => default_value
  | Some iv => Z.max min_value (Z.min max_value iv)
  end.

(** [qv(query, key, default)]; [None] stands for the [IndexError] of
    [[...][0]] on an empty list. *)
Definition qv (query : gmap string (list string)) (key default_value : string)
  : option string :=
  match default [default_value] (query !! key) with
  | [] => None
  | first :: _ => Some (strip (if truthy first then first else default_value))
  end.

(** [paging(query, default_size, max_size)] *)
Definition paging (int_of_str : string -> option Z) (query : gmap string (list string))
    (default_size max_size : Z) : option (Z * Z * Z) :=
  match qv query "page" "1" with
  | None => None
  | Some raw_page =>
      let page := as_int int_of_str raw_page 1 1 100000 in
      match qv query "page_size" (str_of_Z default_size) with
      | None => None
      | Some raw_size =>
          let page_size := as_int int_of_str raw_size default_size 1 max_size in
          Some (page, page_size, (page - 1) * page_size)
      end
  end.

(** The [total_pages] entry of [with_paging_meta]; [//] is floor division. *)
Definition total_pages (page_size total : Z) : Z :=
  if (0 <? page_size)%Z then (total + page_size - 1) / page_size else 0.

(** [with_paging_meta(payload, page, page_size, total)] *)
Definition with_paging_meta (payload : gmap string json) (page page_size total : Z)
  : gmap string json :=
  <["total_pages" := JInt (total_pages page_size total)]>
    (<["total" := JInt total]>
       (<["page_size" := JInt page_size]>
          (<["page" := JInt page]> payload))).

(** [s.replace(old, new)] for a one-character [old]. *)
Fixpoint replace_with (old : ascii) (new : string) (s : string) : string :=
  match s with
  | EmptyString => EmptyString
  | String c r =>
      if Ascii.eqb c old then new +:+ replace_with old new r
      else String c (replace_with old new r)
  end.

(** [escape_like(term)] *)
Definition escape_like (term : string) : string :=
  replace_with "_" "\_" (replace_with "%" "\%" (replace_with "\" "\\" term)).

(** ** The level table of the worker ([cf_worker/src/entry.py]) *)

Record worker_stats : Type := {
  w_level : Z;
  w_promotion : Z;
  w_hp : pyfloat;
  w_attack : pyfloat;
  w_defence : pyfloat;
  w_speed : pyfloat
}.

(** [as_float(value) or 0.0]: a missing value and a zero of either sign
    give [0.0]; NaN is truthy. *)
Definition float_or_zero (value : option pyfloat) : pyfloat :=
  match value with
  | Some (Fin q) => if is_zero q then Fin 0 else Fin q
  | Some NZero => Fin 0
  | Some x => x
  | None => Fin 0
  end.

Definition worker_row (stage : promotion_row) (level : Z) : worker_stats :=
  let hp_base := float_or_zero (hp_base stage) in
  let hp_add := float_or_zero (hp_add stage) in
  let atk_base := float_or_zero (attack_base stage) in
  let atk_add := float_or_zero (attack_add stage) in
  let def_base := float_or_zero (defence_base stage) in
  let def_add := float_or_zero (defence_add stage) in
  let spd := float_or_zero (speed_base stage) in
  {| w_level := level;
     w_promotion := default 0 (promotion stage);
     w_hp := round_nd 4 (fadd hp_base (fmul hp_add (of_Z (level - 1))));
     w_attack := round_nd 4 (fadd atk_base (fmul atk_add (of_Z (level - 1))));
     w_defence := round_nd 4 (fadd def_base (fmul def_add (of_Z (level - 1))));
     w_speed := round_nd 4 spd |}.

(** [build_level_stats(promotions, level_max)] *)
Definition build_level_stats (promotions : list promotion_row) (level_max : Z)
  : list worker_stats :=
  let valid := sort_by_key level_key (List.filter has_max_level promotions) in
  match valid with
  | [] => []
  | first :: _ =>
      let final := List.last valid first in
      map (fun level => worker_row (pick_stage valid final level) level)
          (levels_upto level_max)
  end.

(** ** Search queries ([serve.py]) *)

(** [re.split(r"\s+", s)]: the pieces between the maximal runs of
    whitespace, empty pieces at the ends included.  [in_gap] tells that the
    previous character was whitespace. *)
Fixpoint split_ws_go (s : string) (in_gap : bool) : list string :=
  match s with
  | EmptyString => [EmptyString]
  | String c r =>
      if is_space c then
        if in_gap then split_ws_go r true else EmptyString :: split_ws_go r true
      else
        match split_ws_go r false with
        | piece :: pieces => String c piece :: pieces
        | [] => [String c EmptyString]
        end
  end.

Definition re_split_ws (s : string) : list string := split_ws_go s false.

(** [sep.join(items)] *)
Fixpoint join (sep : string) (items : list string) : string :=
  match items with
  | [] => EmptyString
  | [x] => x
  | x :: rest => x +:+ sep +:+ join sep rest
  end.

(** [norm_fts_query(q)] *)
Definition norm_fts_query (q : string) : string :=
  join " " (List.filter truthy (re_split_ws (strip q))).

(** ** Statements about the further functions *)

(** The value is not a boolean, bare or under [Hash]. *)
Definition no_boolean (value : option json) : Prop :=
  match value with
  | Some (JBool _) => False
  | Some (JObj members) =>
      match dict_get "Hash" members with
      | Some (JBool _) => False
      | _ => True
      end
  | _ => True
  end.

(** At least one of the six reference fields of the row is present. *)
Definition has_reference (r : reference_row) : Prop :=
  is_Some (ref_talk_sentence_id r) \/ found (timeline_name r) = true
  \/ found (performance_type r) = true \/ is_Some (performance_id r)
  \/ found (trigger_custom_string r) = true \/ found (custom_string r) = true.

(** The rows of the state have pairwise different keys, and [seen] holds
    exactly their keys. *)
Definition keys_tracked (st : walk_state) : Prop :=
  NoDup (map key_of (rows st))
  /\ forall k, k ∈ seen st <-> k ∈ map key_of (rows st).

(** No path separator in the string. *)
Definition no_separator (s : string) : bool :=
  forallb_str (fun c => negb (Ascii.eqb c "/") && negb (Ascii.eqb c "\")) s.

(** The character [c] does not occur in the string. *)
Definition without_char (c : ascii) (s : string) : bool :=
  forallb_str (fun x => negb (Ascii.eqb x c)) s.

(** Equal as float values: numerically equal, or both NaN. *)
Definition same_float (x y : pyfloat) : Prop :=
  match x, y with
  | NaN, NaN => True
  | _, _ => feq x y
  end.

(** Every field the level tables read is present. *)
Definition complete (p : promotion_row) : Prop :=
  is_Some (promotion p)
  /\ is_Some (hp_base p) /\ is_Some (hp_add p)
  /\ is_Some (attack_base p) /\ is_Some (attack_add p)
  /\ is_Some (defence_base p) /\ is_Some (defence_add p)
  /\ is_Some (speed_base p).

Definition same_stat (x : pyfloat) (y : option pyfloat) : Prop :=
  match y with Some v => same_float x v | None => False end.

(** A row of the worker's table and a row of the server's table say the
    same. *)
Definition same_stats (w : worker_stats) (r : level_stats) : Prop :=
  w_level w = row_level r
  /\ row_promotion r = Some (w_promotion w)
  /\ same_stat (w_hp w) (row_hp r)
  /\ same_stat (w_attack w) (row_attack r)
  /\ same_stat (w_defence w) (row_defence r)
  /\ same_stat (w_speed w) (row_speed r).

(** The raw keys of an eidolon row that the closure hashes. *)
Definition rank_raw_keys (lib : pylib) (row : rank_row) : list (option string) :=
  rank_name_raw row :: rank_desc_raw row :: rank_ability_keys lib (rank_ability_json row).

(** A non-empty decimal numeral. *)
Definition numeral (a : string) : Prop :=
  a <> EmptyString /\ forallb_str is_digit a = true.

(** A process whose in-process hasher gives every key the digest 42. *)
Definition constant_hasher : hashers :=
  {| xxhash := Some (fun _ => Some 42%N); XXHSUM_BIN := None |}.

(** The items of a Python dictionary: no key occurs twice. *)
Definition dict_like {V : Type} (items : list (string * V)) : Prop :=
  NoDup (map fst items).

(** Text maps as [load_text_maps] builds them: a dictionary of
    dictionaries. *)
Definition text_maps_like (lang_maps : list (string * list (string * string))) : Prop :=
  dict_like lang_maps /\ forall l m, (l, m) ∈ lang_maps -> dict_like m.

(** The text a pattern of [LIKE ... ESCAPE '\'] stands for when it has no
    wildcard: a backslash makes the next character literal; the pattern has
    no such reading when it holds a bare [%] or [_] or ends in a lone
    backslash. *)
Fixpoint like_literal (pattern : string) : option string :=
  match pattern with
  | EmptyString => Some EmptyString
  | String c r =>
      if Ascii.eqb c "\" then
        match r with
        | String e r' => option_map (String e) (like_literal r')
        | EmptyString => None
        end
      else if Ascii.eqb c "%" || Ascii.eqb c "_" then None
      else option_map (String c) (like_literal r)
  end.

(** Two small text maps. *)
Definition sample_text_maps : list (string * list (string * string)) :=
  [("CHS", [("11", "a"); ("12", "b")]); ("EN", [("11", "c")])].

(** A non-empty string without whitespace. *)
Definition word (w : string) : Prop :=
  w <> EmptyString /\ forallb_str (fun c => negb (is_space c)) w = true.

(** The words of a text, read from left to right: its maximal runs of
    characters that are not whitespace.  [cur] is the part already read of
    the word under way. *)
Fixpoint words_from (cur : string) (s : string) : list string :=
  match s with
  | EmptyString => if is_empty cur then [] else [cur]
  | String c r =>
      if is_space c then
        if is_empty cur then words_from EmptyString r
        else cur :: words_from EmptyString r
      else words_from (cur +:+ String c EmptyString) r
  end.

Definition words (s : string) : list string := words_from EmptyString s.

(** The characters of a text that are not whitespace. *)
Definition squeeze (s : string) : string :=
  filter_str (fun c => negb (is_space c)) s.

(** * Proofs *)

(** ** Rounding to binary64 *)

Lemma pow2_pos e : (0 < pow2 e)%Q.
Proof. apply Qpower_0_lt. reflexivity. Qed.

Lemma pow2_add a b : (pow2 (a + b) == pow2 a * pow2 b)%Q.
Proof. apply Qpower_plus. discriminate. Qed.

Lemma pow2_le a b : a <= b -> (pow2 a <= pow2 b)%Q.
Proof. intros H. apply Qpower_le_compat_l; [exact H | discriminate]. Qed.

Lemma pow2_lt_inv a b : (pow2 a < pow2 b)%Q -> a < b.
Proof.
  intros H. destruct (Z_lt_le_dec a b) as [Hlt | Hge]; [exact Hlt |].
  apply pow2_le in Hge. lra.
Qed.

Lemma pow2_inject n : 0 <= n -> (inject_Z (2 ^ n) == pow2 n)%Q.
Proof. intros H. unfold pow2. rewrite Zpower_Qpower by exact H. reflexivity. Qed.

Lemma round_half_even_bounds q :
  (inject_Z (Qfloor q) <= inject_Z (round_half_even q))%Q /\
  (inject_Z (round_half_even q) <= inject_Z (Qfloor q) + 1)%Q.
Proof.
  unfold round_half_even.
  destruct (Qcompare _ _); [destruct (Z.even _) | |];
    rewrite ?inject_Z_plus; change (inject_Z 1) with 1%Q; split; lra.
Qed.

Lemma round_half_even_mono a b : (a <= b)%Q -> round_half_even a <= round_half_even b.
Proof.
  intros Hab.
  pose proof (Qfloor_resp_le _ _ Hab) as Hf.
  destruct (Z.eq_dec (Qfloor a) (Qfloor b)) as [Heq | Hne].
  - unfold round_half_even. rewrite <- Heq.
    destruct (Qcompare_spec (a - inject_Z (Qfloor a)) (1 # 2)) as [Ca | Ca | Ca];
    destruct (Qcompare_spec (b - inject_Z (Qfloor a)) (1 # 2)) as [Cb | Cb | Cb];
      try (destruct (Z.even (Qfloor a))); try lia; exfalso; lra.
  - assert (Qfloor a + 1 <= Qfloor b) by lia.
    pose proof (round_half_even_bounds a) as [_ Ha].
    pose proof (round_half_even_bounds b) as [Hb _].
    change 1%Q with (inject_Z 1) in Ha.
    rewrite <- inject_Z_plus in Ha. rewrite <- Zle_Qle in Ha, Hb. lia.
Qed.

Lemma round_half_even_Z n : round_half_even (inject_Z n) = n.
Proof.
  unfold round_half_even. rewrite Qfloor_Z.
  destruct (Qcompare_spec (inject_Z n - inject_Z n) (1 # 2)) as [C | C | C];
    try reflexivity; exfalso; lra.
Qed.

Lemma round_half_even_eq a b : (a == b)%Q -> round_half_even a = round_half_even b.
Proof.
  intros H. apply Z.le_antisymm; apply round_half_even_mono; rewrite H; apply Qle_refl.
Qed.

(** [mag] brackets a positive rational between consecutive powers of two. *)
Lemma mag_spec q : (0 < q)%Q -> (pow2 (mag q - 1) <= q)%Q /\ (q < pow2 (mag q))%Q.
Proof.
  intros Hq. destruct q as [n d]. 
  assert (Hn : 0 < n) by (unfold Qlt in Hq; simpl in Hq; lia).
  unfold mag. cbn [Qnum Qden].
  set (a := Z.log2 n). set (b := Z.log2 (Zpos d)).
  destruct (Z.log2_spec n Hn) as [Ha1 Ha2]. fold a in Ha1, Ha2.
  destruct (Z.log2_spec (Zpos d) ltac:(lia)) as [Hb1 Hb2]. fold b in Hb1, Hb2.
  assert (Ha0 : 0 <= a) by apply Z.log2_nonneg.
  assert (Hb0 : 0 <= b) by apply Z.log2_nonneg.
  (* n/d as a product *)
  assert (Hnd : (n # d == inject_Z n / inject_Z (Zpos d))%Q) by apply Qmake_Qdiv.
  assert (Hdpos : (0 < inject_Z (Zpos d))%Q) by (rewrite <- (Zlt_Qlt 0); lia).
  assert (A1 : (pow2 a <= inject_Z n)%Q)
    by (rewrite <- pow2_inject by lia; rewrite <- Zle_Qle; lia).
  assert (A2 : (inject_Z n < pow2 (a + 1))%Q)
    by (rewrite <- pow2_inject by lia; rewrite <- Zlt_Qlt; replace (a + 1) with (Z.succ a) by lia; lia).
  assert (B1 : (pow2 b <= inject_Z (Zpos d))%Q)
    by (rewrite <- pow2_inject by lia; rewrite <- Zle_Qle; lia).
  assert (B2 : (inject_Z (Zpos d) < pow2 (b + 1))%Q)
    by (rewrite <- pow2_inject by lia; rewrite <- Zlt_Qlt; replace (b + 1) with (Z.succ b) by lia; lia).
  pose proof (pow2_pos (a - b)) as P0.
  assert (L : (pow2 (a - b - 1) * inject_Z (Zpos d) < inject_Z n)%Q).
  { apply Qlt_le_trans with (pow2 (a - b - 1) * pow2 (b + 1))%Q.
    - apply Qmult_lt_l; [apply pow2_pos | exact B2].
    - rewrite <- pow2_add. replace (a - b - 1 + (b + 1)) with a by lia. exact A1. }
  assert (U : (inject_Z n < pow2 (a - b + 1) * inject_Z (Zpos d))%Q).
  { apply Qlt_le_trans with (pow2 (a + 1)); [exact A2 |].
    replace (a + 1) with (a - b + 1 + b) by lia. rewrite pow2_add.
    apply Qmult_le_l; [apply pow2_pos | exact B1]. }
  assert (Hdiv : forall x, (x * inject_Z (Zpos d) <= inject_Z n)%Q <-> (x <= n # d)%Q).
  { intros x. rewrite Hnd. split; intros H.
    - apply Qle_shift_div_l; assumption.
    - apply (Qmult_le_r _ _ (inject_Z (Zpos d))) in H; [| exact Hdpos].
      unfold Qdiv in H. rewrite <- Qmult_assoc, (Qmult_comm (/ _)), Qmult_inv_r, Qmult_1_r in H; [exact H | lra]. }
  destruct (Qle_bool (pow2 (a - b)) (n # d)) eqn:E.
  - apply Qle_bool_iff in E. replace (a - b + 1 - 1) with (a - b) by lia.
    split; [exact E |].
    apply Qnot_le_lt. intros C. apply Hdiv in C. lra.
  - split.
    + apply Hdiv. lra.
    + apply Qnot_le_lt. intros C. apply Qle_bool_iff in C. congruence.
Qed.

Lemma mag_mono a b : (0 < a)%Q -> (a <= b)%Q -> mag a <= mag b.
Proof.
  intros Ha Hab.
  destruct (mag_spec a Ha) as [La _].
  destruct (mag_spec b ltac:(lra)) as [_ Ub].
  assert (H : (pow2 (mag a - 1) < pow2 (mag b))%Q) by lra.
  apply pow2_lt_inv in H. lia.
Qed.

Lemma cexp_mono a b : (0 < a)%Q -> (a <= b)%Q -> cexp a <= cexp b.
Proof. intros Ha Hab. unfold cexp. pose proof (mag_mono a b Ha Hab). lia. Qed.

Lemma Qdiv_le_compat a b c : (0 < c)%Q -> (a <= b)%Q -> (a / c <= b / c)%Q.
Proof.
  intros Hc Hab. unfold Qdiv. apply Qmult_le_compat_r; [exact Hab |].
  apply Qlt_le_weak, Qinv_lt_0_compat, Hc.
Qed.

Lemma rnd_val_mono a b : (0 < a)%Q -> (a <= b)%Q -> (rnd_val a <= rnd_val b)%Q.
Proof.
  intros Ha Hab. unfold rnd_val.
  pose proof (cexp_mono a b Ha Hab) as He.
  pose proof (pow2_pos (cexp a)) as Pa. pose proof (pow2_pos (cexp b)) as Pb.
  destruct (Z.eq_dec (cexp a) (cexp b)) as [Heq | Hne].
  - rewrite <- Heq. apply Qmult_le_compat_r; [| lra].
    rewrite <- Zle_Qle. apply round_half_even_mono. apply Qdiv_le_compat; assumption.
  - assert (Hlt : cexp a < cexp b) by lia.
    assert (Hb : cexp b = mag b - prec) by (unfold cexp, emin in *; lia).
    assert (Hma : mag a - prec <= cexp a) by (unfold cexp; lia).
    destruct (mag_spec a Ha) as [_ Ua].
    destruct (mag_spec b ltac:(lra)) as [Lb _].
    (* the left value is at most 2^(53 + cexp a) *)
    assert (M1 : round_half_even (a / pow2 (cexp a)) <= 2 ^ prec).
    { rewrite <- (round_half_even_Z (2 ^ prec)). apply round_half_even_mono.
      apply Qle_shift_div_r; [exact Pa |].
      rewrite pow2_inject by (unfold prec; lia). rewrite <- pow2_add.
      apply Qle_trans with (pow2 (mag a)); [lra | apply pow2_le; lia]. }
    (* the right value is at least 2^(52 + cexp b) *)
    assert (M2 : 2 ^ (prec - 1) <= round_half_even (b / pow2 (cexp b))).
    { rewrite <- (round_half_even_Z (2 ^ (prec - 1))) at 1. apply round_half_even_mono.
      apply Qle_shift_div_l; [exact Pb |].
      rewrite pow2_inject by (unfold prec; lia). rewrite <- pow2_add.
      replace (prec - 1 + cexp b) with (mag b - 1) by lia. exact Lb. }
    apply Qle_trans with (inject_Z (2 ^ prec) * pow2 (cexp a))%Q.
    { apply Qmult_le_compat_r; [rewrite <- Zle_Qle; exact M1 | lra]. }
    apply Qle_trans with (inject_Z (2 ^ (prec - 1)) * pow2 (cexp b))%Q.
    { rewrite !pow2_inject by (unfold prec; lia). rewrite <- !pow2_add.
      apply pow2_le. lia. }
    apply Qmult_le_compat_r; [rewrite <- Zle_Qle; exact M2 | lra].
Qed.

Lemma rnd_val_nonneg a : (0 < a)%Q -> (0 <= rnd_val a)%Q.
Proof.
  intros Ha. unfold rnd_val.
  apply Qmult_le_0_compat; [| apply Qlt_le_weak, pow2_pos].
  change 0%Q with (inject_Z 0). rewrite <- Zle_Qle.
  rewrite <- (round_half_even_Z 0). apply round_half_even_mono.
  apply Qle_shift_div_l; [apply pow2_pos | change (inject_Z 0) with 0%Q; lra].
Qed.

Lemma rnd_pos_eq q :
  rnd_pos q = if Qle_bool (pow2 emax) (rnd_val q) then Inf false else Fin (Qred (rnd_val q)).
Proof. reflexivity. Qed.

Lemma rnd_pos_mono a b : (0 < a)%Q -> (a <= b)%Q -> fle (rnd_pos a) (rnd_pos b).
Proof.
  intros Ha Hab. rewrite !rnd_pos_eq.
  pose proof (rnd_val_mono a b Ha Hab) as Hv.
  destruct (Qle_bool (pow2 emax) (rnd_val a)) eqn:Ea;
  destruct (Qle_bool (pow2 emax) (rnd_val b)) eqn:Eb; simpl; try exact I.
  - apply Qle_bool_iff in Ea.
    assert (C : Qle_bool (pow2 emax) (rnd_val b) = true) by (apply Qle_bool_iff; lra).
    congruence.
  - rewrite !Qred_correct. exact Hv.
Qed.

Lemma rnd_pos_nonneg a : (0 < a)%Q -> fle (Fin 0) (rnd_pos a).
Proof.
  intros Ha. rewrite rnd_pos_eq. destruct (Qle_bool _ _); simpl; [exact I |].
  rewrite Qred_correct. apply rnd_val_nonneg, Ha.
Qed.

(** *** The order of float values *)

Lemma is_zero_true q : is_zero q = true <-> (q == 0)%Q.
Proof. unfold is_zero. apply Qeq_bool_iff. Qed.

Lemma is_zero_false q : is_zero q = false <-> ~ (q == 0)%Q.
Proof.
  unfold is_zero. split; intros H.
  - intros C. apply Qeq_bool_iff in C. congruence.
  - destruct (Qeq_bool q 0) eqn:E; [| reflexivity].
    apply Qeq_bool_iff in E. contradiction.
Qed.

Lemma is_neg_true q : is_neg q = true <-> (q < 0)%Q.
Proof.
  unfold is_neg. destruct (Qle_bool 0 q) eqn:E; simpl.
  - apply Qle_bool_iff in E. split; [discriminate | intros; exfalso; lra].
  - split; [intros _ | reflexivity]. apply Qnot_le_lt. intros C.
    apply Qle_bool_iff in C. congruence.
Qed.

Lemma is_neg_false q : is_neg q = false <-> (0 <= q)%Q.
Proof.
  unfold is_neg. destruct (Qle_bool 0 q) eqn:E; simpl.
  - apply Qle_bool_iff in E. tauto.
  - split; [discriminate | intros C]. apply Qle_bool_iff in C. congruence.
Qed.


Lemma fle_refl x : x <> NaN -> fle x x.
Proof. destruct x as [a | [] | |]; simpl; try tauto; intros _; apply Qle_refl. Qed.

Lemma fle_nzero_l y : fle NZero y <-> fle (Fin 0) y.
Proof. destruct y as [b | [] | |]; simpl; tauto. Qed.

Lemma fle_nzero_r x : fle x NZero <-> fle x (Fin 0).
Proof. destruct x as [a | [] | |]; simpl; tauto. Qed.

Lemma fle_fneg x y : fle x y -> fle (fneg y) (fneg x).
Proof.
  destruct x as [a | [] | |], y as [b | [] | |]; simpl; try tauto;
    try destruct (is_zero a) eqn:Ea; try destruct (is_zero b) eqn:Eb; simpl;
    try tauto; rewrite ?Qred_correct;
    try apply is_zero_true in Ea; try apply is_zero_true in Eb; intros H; lra.
Qed.

Lemma fle_trans x y z : fle x y -> fle y z -> fle x z.
Proof.
  destruct x as [a | [] | |], y as [b | [] | |], z as [c | [] | |]; simpl; try tauto;
    intros; lra.
Qed.

Lemma fle_antisym x y : fle x y -> fle y x -> feq x y.
Proof.
  destruct x as [a | [] | |], y as [b | [] | |]; simpl; try tauto; intros; lra.
Qed.

Lemma rnd64_not_nan q : rnd64 q <> NaN.
Proof.
  unfold rnd64. destruct (Qcompare q 0); try discriminate; rewrite rnd_pos_eq;
    destruct (Qle_bool _ _); try discriminate.
  simpl. destruct (is_zero _); discriminate.
Qed.

Lemma rnd64_zero q : (q == 0)%Q -> rnd64 q = Fin 0.
Proof.
  intros H. unfold rnd64.
  destruct (Qcompare_spec q 0) as [C | C | C]; [reflexivity | exfalso; lra | exfalso; lra].
Qed.

(** The negation of a value that is not negative is not positive. *)
Lemma fneg_nonpos r : fle (Fin 0) r -> fle (fneg r) (Fin 0).
Proof. intros H. apply fle_nzero_r. apply (fle_fneg (Fin 0) r H). Qed.

(** Rounding to binary64 is monotone. *)
Lemma rnd64_mono a b : (a <= b)%Q -> fle (rnd64 a) (rnd64 b).
Proof.
  intros Hab. unfold rnd64.
  destruct (Qcompare_spec a 0) as [Ca | Ca | Ca];
  destruct (Qcompare_spec b 0) as [Cb | Cb | Cb]; try (exfalso; lra).
  - simpl. lra.
  - apply rnd_pos_nonneg, Cb.
  - apply fneg_nonpos. apply rnd_pos_nonneg. lra.
  - apply fle_fneg. apply rnd_pos_mono; lra.
  - apply fle_trans with (Fin 0).
    + apply fneg_nonpos. apply rnd_pos_nonneg. lra.
    + apply rnd_pos_nonneg, Cb.
  - apply rnd_pos_mono; lra.
Qed.

(** *** Monotonicity of the float operations *)




(** A product of finite values is the rounded exact product, up to the
    sign of a zero. *)
Lemma fmul_finite x y :
  finite x -> finite y ->
  fle (fmul x y) (rnd64 (fval x * fval y)) /\ fle (rnd64 (fval x * fval y)) (fmul x y).
Proof.
  intros Hx Hy.
  assert (E : fmul x y
              = if is_zero (fval x * fval y)
                then fzero (xorb (signbit x) (signbit y))
                else rnd64 (fval x * fval y))
    by (destruct x as [a | s | |], y as [b | t | |]; simpl in *; tauto || reflexivity).
  rewrite E. destruct (is_zero (fval x * fval y)) eqn:Ez.
  - apply is_zero_true in Ez. rewrite (rnd64_zero _ Ez).
    destruct (xorb _ _); simpl; split; lra.
  - split; apply fle_refl, rnd64_not_nan.
Qed.


Lemma fmul_not_nan x y : finite x -> finite y -> fmul x y <> NaN.
Proof.
  intros Hx Hy. destruct (fmul_finite x y Hx Hy) as [H _].
  intros E. rewrite E in H. exact H.
Qed.






Lemma fadd_inf_r x t : finite x -> fadd x (Inf t) = Inf t.
Proof. destruct x as [a | s | |]; simpl; tauto || reflexivity. Qed.






(** ** Per-level stats *)

(** *** The stable sort *)

Section SortByKey.
Context {A : Type} (key : A -> Z).

Lemma insert_by_key_perm x l : insert_by_key key x l ≡ₚ x :: l.
Proof.
  induction l as [| y l IH]; simpl; [reflexivity |].
  destruct (key x <=? key y)%Z; [reflexivity |].
  rewrite IH. apply perm_swap.
Qed.

Lemma sort_by_key_perm l : sort_by_key key l ≡ₚ l.
Proof.
  induction l as [| x l IH]; simpl; [reflexivity |].
  rewrite insert_by_key_perm, IH. reflexivity.
Qed.

Lemma insert_by_key_sorted x l :
  StronglySorted (le_key key) l -> StronglySorted (le_key key) (insert_by_key key x l).
Proof.
  induction 1 as [| y l Hs IH Hy]; simpl.
  - repeat constructor.
  - destruct (Z.leb_spec (key x) (key y)) as [Hxy | Hxy].
    + constructor; [constructor; assumption |].
      constructor; [exact Hxy |].
      eapply Forall_impl; [exact Hy |]. unfold le_key. intros z Hz. simpl in Hz. lia.
    + constructor; [exact IH |].
      rewrite insert_by_key_perm. constructor; [unfold le_key; lia | exact Hy].
Qed.

Lemma sort_by_key_sorted l : StronglySorted (le_key key) (sort_by_key key l).
Proof.
  induction l as [| x l IH]; simpl; [constructor | apply insert_by_key_sorted, IH].
Qed.

End SortByKey.

(** *** Selection of the stage *)

Lemma last_in (valid : list promotion_row) first :
  valid <> [] -> List.last valid first ∈ valid.
Proof.
  induction valid as [| x l IH]; [congruence |]. intros _.
  destruct l as [| y l]; [simpl; set_solver |].
  apply elem_of_cons. right. apply IH. discriminate.
Qed.

Lemma last_some (valid : list promotion_row) first :
  valid <> [] -> List.last (map Some valid) None = Some (List.last valid first).
Proof.
  induction valid as [| x l IH]; [congruence |]. intros _.
  destruct l as [| y l]; [reflexivity |].
  change (List.last (map Some (y :: l)) None = Some (List.last (y :: l) first)).
  apply IH. discriminate.
Qed.


Lemma pick_stage_in valid final level :
  final ∈ valid -> pick_stage valid final level ∈ valid.
Proof.
  intros Hf. unfold pick_stage.
  destruct (List.find _ valid) as [p |] eqn:E; simpl; [| exact Hf].
  apply find_some in E as [Hin _]. apply list_elem_of_In, Hin.
Qed.

(** What [next(...)] returns is what the specification selects. *)
Lemma pick_stage_selected valid first level :
  valid <> [] -> selected valid level (pick_stage valid (List.last valid first) level).
Proof.
  intros Hne. unfold pick_stage, selected.
  destruct (List.find _ valid) as [p |] eqn:E; simpl.
  - left. clear Hne.
    induction valid as [| x l IH]; [discriminate |]. simpl in E.
    destruct (Z.leb_spec level (level_key x)) as [Hx | Hx].
    + injection E as <-. exists [], l. split; [reflexivity |]. split; [exact Hx | set_solver].
    + destruct (IH E) as (before & after & -> & Hp & Hb).
      exists (x :: before), after. split; [reflexivity |]. split; [exact Hp |].
      intros q Hq. apply elem_of_cons in Hq as [-> | Hq]; [exact Hx | apply Hb, Hq].
  - right. split; [| apply last_some, Hne].
    intros p Hp. apply list_elem_of_In in Hp.
    pose proof (find_none _ _ E p Hp) as H. simpl in H.
    apply Z.leb_gt in H. exact H.
Qed.


(** *** Rows of the builder *)

Lemma levels_upto_lookup n i level :
  levels_upto n !! i = Some level -> level = Z.of_nat (S i) /\ (i < Z.to_nat n)%nat.
Proof.
  unfold levels_upto. rewrite list_lookup_fmap. intros H.
  destruct (seq 1 (Z.to_nat n) !! i) as [k |] eqn:E; [| discriminate].
  apply lookup_seq in E as [-> Hi]. simpl in H. injection H as <-.
  split; [reflexivity | exact Hi].
Qed.

Lemma build_rows_lookup promotions level_max first rest i r :
  sort_by_key level_key (List.filter has_max_level promotions) = first :: rest ->
  build_avatar_level_stats promotions level_max !! i = Some r ->
  let valid := first :: rest in
  let level := Z.of_nat (S i) in
  r = stats_row (pick_stage valid (List.last valid first) level) level
  /\ (i < Z.to_nat level_max)%nat.
Proof.
  intros Hv. unfold build_avatar_level_stats. rewrite Hv.
  rewrite list_lookup_fmap. intros H.
  destruct (levels_upto level_max !! i) as [level |] eqn:E; [| discriminate].
  apply levels_upto_lookup in E as [-> Hi]. simpl in H. injection H as <-.
  split; [reflexivity | exact Hi].
Qed.






(** C3, amended: [build_avatar_level_stats] keeps the breakpoints with a
    defined ceiling (returning the empty list when none remains), orders
    them by ascending ceiling, emits one row per level from 1 to
    [level_max], each for the first breakpoint whose ceiling reaches the
    level or else the last one; hp, attack and defence of the row are
    [base + growth * (level - 1)] rounded to four decimals, and speed is the
    base of the stage rounded to four decimals. *)
Theorem level_stats_amended promotions level_max :
  exists valid,
    valid ≡ₚ List.filter has_max_level promotions
    /\ ascending valid
    /\ (valid = [] -> build_avatar_level_stats promotions level_max = [])
    /\ (valid <> [] ->
        length (build_avatar_level_stats promotions level_max) = Z.to_nat level_max
        /\ forall i r,
             build_avatar_level_stats promotions level_max !! i = Some r ->
             let level := Z.of_nat (S i) in
             exists stage,
               selected valid level stage
               /\ row_level r = level
               /\ (forall b g, hp_base stage = Some b -> hp_add stage = Some g ->
                     row_hp r = Some (interpolated b g level))
               /\ (forall b g, attack_base stage = Some b -> attack_add stage = Some g ->
                     row_attack r = Some (interpolated b g level))
               /\ (forall b g, defence_base stage = Some b -> defence_add stage = Some g ->
                     row_defence r = Some (interpolated b g level))
               /\ (forall b, speed_base stage = Some b ->
                     row_speed r = Some (round_nd 4 b))).
Proof.
  exists (sort_by_key level_key (List.filter has_max_level promotions)).
  split; [apply sort_by_key_perm |]. split; [apply sort_by_key_sorted |].
  split.
  - intros E. unfold build_avatar_level_stats. rewrite E. reflexivity.
  - intros Hne.
    destruct (sort_by_key level_key (List.filter has_max_level promotions))
      as [| first rest] eqn:Hv; [congruence |].
    split.
    + unfold build_avatar_level_stats, levels_upto. rewrite Hv.
      rewrite !length_map, length_seq. reflexivity.
    + intros i r Hr level.
      destruct (build_rows_lookup _ _ _ _ _ _ Hv Hr) as [-> _].
      subst level.
      set (stage := pick_stage (first :: rest) (List.last (first :: rest) first) _).
      exists stage.
      split; [apply pick_stage_selected; discriminate |].
      split; [reflexivity |].
      unfold stats_row, stat_at_level; cbn [row_hp row_attack row_defence row_speed].
      repeat split; intros;
        repeat match goal with H : _ = Some _ |- _ => rewrite H; clear H end;
        reflexivity.
Qed.

(** C3, witness: the amended property at the two rising stages. *)
Lemma level_stats_witness :
  length (build_avatar_level_stats rising_promotions 30) = 30%nat.
Proof.
  destruct (level_stats_amended rising_promotions 30) as (valid & Hperm & _ & _ & H).
  destruct H as [Hlen _]; [| exact Hlen].
  intros ->. apply Permutation_nil in Hperm. discriminate Hperm.
Defined.

(** C3, counterexample: a speed base of 2^-14 is emitted as 0.0001, not
    as it is. *)
Lemma speed_unmodified_claim_fails : ~ speed_unmodified_claim fine_speed 1.
Proof.
  intros H.
  destruct (H (stats_row (breakpoint 0 20 100 5 50 2 30 1 (1 # 16384)) 1))
    as (stage & Hin & Heq).
  - vm_compute. apply elem_of_cons. left. reflexivity.
  - unfold fine_speed in Hin. apply list_elem_of_singleton in Hin. subst stage.
    vm_compute in Heq. discriminate.
Qed.

(** ** Template rendering *)

(** *** Strings *)

Lemma append_cons c (a b : string) : String c a +:+ b = String c (a +:+ b).
Proof. reflexivity. Qed.

Lemma span_app p s a b : span p s = (a, b) -> a +:+ b = s.
Proof.
  revert a b. induction s as [| c r IH]; simpl; intros a b H.
  - injection H as <- <-. reflexivity.
  - destruct (p c).
    + destruct (span p r) as [a' b'] eqn:E. injection H as <- <-.
      rewrite append_cons. f_equal. apply IH. reflexivity.
    + injection H as <- <-. reflexivity.
Qed.

Lemma append_assoc (a b c : string) : (a +:+ b) +:+ c = a +:+ (b +:+ c).
Proof.
  induction a as [| x a IH]; [reflexivity |].
  rewrite !append_cons. f_equal. exact IH.
Qed.

Lemma drop_app a b : drop (String.length a) (a +:+ b) = b.
Proof.
  induction a as [| x a IH]; [destruct b; reflexivity |].
  rewrite append_cons. exact IH.
Qed.

Lemma drop_all k : drop k EmptyString = EmptyString.
Proof. destruct k; reflexivity. Qed.

(** *** Trimming and decimal numerals *)

Lemma lstrip_with_head p s :
  match lstrip_with p s with
  | String c _ => p c = false
  | EmptyString => True
  end.
Proof.
  induction s as [| c r IH]; simpl; [exact I |].
  destruct (p c) eqn:E; [exact IH | exact E].
Qed.

Lemma rstrip_with_idem p s : rstrip_with p (rstrip_with p s) = rstrip_with p s.
Proof.
  induction s as [| c r IH]; [reflexivity |]. simpl.
  destruct (rstrip_with p r) as [| x t] eqn:E.
  - destruct (p c) eqn:Pc; [reflexivity |]. simpl. rewrite Pc. reflexivity.
  - simpl. simpl in IH. rewrite IH. reflexivity.
Qed.

Lemma rstrip_with_keeps_head p c r :
  p c = false -> exists t, rstrip_with p (String c r) = String c t.
Proof.
  intros Pc. simpl. destruct (rstrip_with p r); [rewrite Pc |]; eexists; reflexivity.
Qed.

Lemma lstrip_with_fixed p c r : p c = false -> lstrip_with p (String c r) = String c r.
Proof. intros Pc. simpl. rewrite Pc. reflexivity. Qed.

(** Trimming twice is trimming once. *)
Lemma strip_idem s : strip (strip s) = strip s.
Proof.
  unfold strip. pose proof (lstrip_with_head is_space s) as H.
  destruct (lstrip_with is_space s) as [| c r]; [reflexivity |].
  destruct (rstrip_with_keeps_head is_space c r H) as [t Ht].
  rewrite Ht, (lstrip_with_fixed _ _ _ H), <- Ht. apply rstrip_with_idem.
Qed.

Lemma rstrip_with_none p s :
  forallb_str (fun c => negb (p c)) s = true -> rstrip_with p s = s.
Proof.
  induction s as [| c r IH]; [reflexivity |]. simpl.
  intros H. apply andb_true_iff in H as [Hc Hr]. rewrite (IH Hr).
  destruct r; [| reflexivity]. apply negb_true_iff in Hc. rewrite Hc. reflexivity.
Qed.

(** A string without whitespace is its own trimmed form. *)
Lemma strip_no_space s :
  forallb_str (fun c => negb (is_space c)) s = true -> strip s = s.
Proof.
  intros H. unfold strip.
  assert (Hl : lstrip_with is_space s = s).
  { destruct s as [| c r]; [reflexivity |]. simpl in H.
    apply andb_true_iff in H as [Hc _]. apply negb_true_iff in Hc.
    apply lstrip_with_fixed, Hc. }
  rewrite Hl. apply rstrip_with_none, H.
Qed.

Lemma forallb_str_impl (p q : ascii -> bool) s :
  (forall c, p c = true -> q c = true) ->
  forallb_str p s = true -> forallb_str q s = true.
Proof.
  intros Hpq. induction s as [| c r IH]; [reflexivity |]. simpl.
  intros H. apply andb_true_iff in H as [Hc Hr].
  rewrite (Hpq c Hc), (IH Hr). reflexivity.
Qed.

Lemma digit_not_space c : is_digit c = true -> negb (is_space c) = true.
Proof.
  unfold is_digit, is_space. intros H.
  apply andb_true_iff in H as [H1 H2]. apply N.leb_le in H1, H2.
  apply negb_true_iff.
  repeat match goal with
         | |- context [(?a <=? ?b)%N] => destruct (N.leb_spec a b)
         | |- context [(?a =? ?b)%N] => destruct (N.eqb_spec a b)
         end; simpl; try reflexivity; lia.
Qed.

Lemma strip_digits s : forallb_str is_digit s = true -> strip s = s.
Proof.
  intros H. apply strip_no_space.
  revert H. apply forallb_str_impl, digit_not_space.
Qed.

Lemma forallb_str_app p a b :
  forallb_str p (a +:+ b) = forallb_str p a && forallb_str p b.
Proof.
  induction a as [| c a IH]; [reflexivity |].
  rewrite append_cons. simpl. rewrite IH, andb_assoc. reflexivity.
Qed.

Lemma code_digit_char d : (d < 10)%N -> code (digit_char d) = (48 + d)%N.
Proof.
  intros Hd. unfold code, digit_char. apply N_ascii_embedding. lia.
Qed.

Lemma is_digit_digit_char d : (d < 10)%N -> is_digit (digit_char d) = true.
Proof.
  intros Hd. unfold is_digit. rewrite (code_digit_char d Hd).
  apply andb_true_iff. split; apply N.leb_le; lia.
Qed.

Lemma int_of_digits_acc_snoc s c a :
  int_of_digits_acc (s +:+ String c EmptyString) a
  = 10 * int_of_digits_acc s a + (Z.of_N (code c) - 48).
Proof.
  revert a. induction s as [| x s IH]; intros a; [reflexivity |].
  rewrite append_cons. simpl. apply IH.
Qed.

(** What [digits_go] puts in front of the accumulator: a non-empty run of
    digits that reads back as the number. *)
Lemma digits_go_S fuel n acc :
  digits_go (S fuel) n acc
  = if (n / 10 =? 0)%N then String (digit_char (n mod 10)) acc
    else digits_go fuel (n / 10)%N (String (digit_char (n mod 10)) acc).
Proof. reflexivity. Qed.

Lemma digits_go_spec fuel n acc :
  (n < 10 ^ N.of_nat (S fuel))%N ->
  exists ds,
    digits_go (S fuel) n acc = ds +:+ acc
    /\ int_of_digits ds = Z.of_N n
    /\ forallb_str is_digit ds = true
    /\ ds <> EmptyString.
Proof.
  revert n acc. induction fuel as [| f IH]; intros n acc Hn;
    rewrite digits_go_S;
    assert (Hmod : (n mod 10 < 10)%N) by (apply N.mod_lt; discriminate);
    pose proof (N.div_mod n 10 ltac:(discriminate)) as Hdm;
    (destruct (N.eqb_spec (n / 10) 0) as [Hz | Hnz];
     [ exists (String (digit_char (n mod 10)) EmptyString);
       split; [reflexivity |]; split; [| split; [| discriminate]];
       [ unfold int_of_digits; cbn [int_of_digits_acc]; rewrite (code_digit_char _ Hmod); lia
       | simpl; rewrite (is_digit_digit_char _ Hmod); reflexivity ]
     | ]).
  - exfalso. apply Hnz, N.div_small. exact Hn.
  - assert (Hdiv : (n / 10 < 10 ^ N.of_nat (S f))%N).
    { apply N.Div0.div_lt_upper_bound.
      replace (N.of_nat (S (S f))) with (N.succ (N.of_nat (S f))) in Hn by lia.
      rewrite N.pow_succ_r' in Hn. exact Hn. }
    destruct (IH (n / 10)%N (String (digit_char (n mod 10)) acc) Hdiv)
      as (ds & Hgo & Hval & Hdig & Hne).
    exists (ds +:+ String (digit_char (n mod 10)) EmptyString).
    split; [rewrite Hgo, append_assoc; reflexivity |].
    split; [| split].
    + unfold int_of_digits in *. rewrite int_of_digits_acc_snoc, Hval.
      rewrite (code_digit_char _ Hmod). lia.
    + rewrite forallb_str_app, Hdig. simpl.
      rewrite (is_digit_digit_char _ Hmod). reflexivity.
    + destruct ds; [congruence | discriminate].
Qed.

Lemma str_of_N_fuel n : (n < 10 ^ N.of_nat (S (N.to_nat (N.log2 n))))%N.
Proof.
  replace (N.of_nat (S (N.to_nat (N.log2 n)))) with (N.succ (N.log2 n)) by lia.
  destruct n as [| p]; [reflexivity |].
  apply N.lt_le_trans with (2 ^ N.succ (N.log2 (N.pos p)))%N.
  - apply N.log2_spec. reflexivity.
  - apply N.pow_le_mono_l. lia.
Qed.

(** [str(n)] of a natural number is a non-empty run of digits that [int]
    reads back. *)
Lemma str_of_N_spec n :
  int_of_digits (str_of_N n) = Z.of_N n
  /\ forallb_str is_digit (str_of_N n) = true
  /\ str_of_N n <> EmptyString.
Proof.
  unfold str_of_N.
  destruct (digits_go_spec _ n EmptyString (str_of_N_fuel n)) as (ds & Hgo & H).
  rewrite Hgo.
  assert (E : ds +:+ EmptyString = ds).
  { clear. induction ds as [| c ds IH]; [reflexivity |].
    rewrite append_cons, IH. reflexivity. }
  rewrite E. exact H.
Qed.

Lemma str_of_Z_nonneg n :
  0 <= n ->
  int_of_digits (str_of_Z n) = n
  /\ forallb_str is_digit (str_of_Z n) = true
  /\ str_of_Z n <> EmptyString.
Proof.
  intros Hn. destruct n as [| p | p]; [repeat split; discriminate | | lia].
  apply (str_of_N_spec (Npos p)).
Qed.

Lemma int_of_digits_acc_nonneg s a :
  forallb_str is_digit s = true -> 0 <= a -> 0 <= int_of_digits_acc s a.
Proof.
  revert a. induction s as [| c s IH]; intros a Hs Ha; [exact Ha |].
  simpl in Hs. apply andb_true_iff in Hs as [Hc Hs]. simpl. apply IH; [exact Hs |].
  unfold is_digit in Hc. apply andb_true_iff in Hc as [H1 _]. apply N.leb_le in H1. lia.
Qed.

Lemma digit_not_minus c : is_digit c = true -> Ascii.eqb c "-" = false.
Proof.
  intros H. destruct (Ascii.eqb_spec c "-") as [-> |]; [discriminate | reflexivity].
Qed.

Lemma startswith_app p s : startswith p s = true -> s = p +:+ drop (String.length p) s.
Proof.
  revert s. induction p as [| a p IH]; intros s H; [destruct s; reflexivity |].
  destruct s as [| b s]; [discriminate |]. simpl in H.
  apply andb_true_iff in H as [Hab Hp]. apply Ascii.eqb_eq in Hab. subst b.
  rewrite append_cons. simpl. f_equal. apply IH, Hp.
Qed.

Lemma span_forall p s a b : span p s = (a, b) -> forallb_str p a = true.
Proof.
  revert a b. induction s as [| c r IH]; simpl; intros a b H.
  - injection H as <- <-. reflexivity.
  - destruct (p c) eqn:Pc.
    + destruct (span p r) as [a' b'] eqn:E. injection H as <- <-.
      simpl. rewrite Pc. eapply IH. reflexivity.
    + injection H as <- <-. reflexivity.
Qed.

Lemma span_all p s : forallb_str p s = true -> span p s = (s, EmptyString).
Proof.
  induction s as [| c r IH]; [reflexivity |]. simpl.
  intros H. apply andb_true_iff in H as [Hc Hr]. rewrite Hc, (IH Hr). reflexivity.
Qed.

(** *** Conversion of numerals to integers *)

Lemma str_length_app (a b : string) :
  String.length (a +:+ b) = (String.length a + String.length b)%nat.
Proof.
  induction a as [| c a IH]; [reflexivity |].
  rewrite append_cons. simpl. rewrite IH. reflexivity.
Qed.

Lemma digit_not_int_space c : is_digit c = true -> is_int_space c = false.
Proof.
  unfold is_digit, is_int_space. intros H.
  apply andb_true_iff in H as [H1 H2]. apply N.leb_le in H1, H2.
  repeat match goal with
         | |- context [(?a <=? ?b)%N] => destruct (N.leb_spec a b)
         | |- context [(?a =? ?b)%N] => destruct (N.eqb_spec a b)
         end; simpl; try reflexivity; lia.
Qed.

Lemma digit_not_plus c : is_digit c = true -> Ascii.eqb c "+" = false.
Proof.
  intros H. destruct (Ascii.eqb_spec c "+") as [-> |]; [discriminate | reflexivity].
Qed.

Lemma filter_str_all p s : forallb_str p s = true -> filter_str p s = s.
Proof.
  induction s as [| c r IH]; [reflexivity |]. simpl.
  intros H. apply andb_true_iff in H as [Hc Hr]. rewrite Hc, (IH Hr). reflexivity.
Qed.

Lemma int_body_ok_digits s :
  forallb_str is_digit s = true -> int_body_ok s true = true.
Proof.
  induction s as [| c r IH]; [reflexivity |]. simpl.
  intros H. apply andb_true_iff in H as [Hc Hr]. rewrite Hc. exact (IH Hr).
Qed.

Lemma digits_no_int_space s :
  forallb_str is_digit s = true ->
  forallb_str (fun c => negb (is_int_space c)) s = true.
Proof.
  apply forallb_str_impl. intros c Hc. rewrite (digit_not_int_space c Hc). reflexivity.
Qed.

(** [int] of a non-empty run of digits: its value, unless the run is longer
    than the limit. *)
Lemma py_int_digits ds :
  ds <> EmptyString -> forallb_str is_digit ds = true ->
  py_int ds
  = if (Z.of_nat (String.length ds) <=? MAX_STR_DIGITS)%Z
    then Ok (int_of_digits ds) else Raise ValueError.
Proof.
  intros Hne Hd. unfold py_int.
  destruct ds as [| c r]; [congruence |].
  pose proof Hd as Hd'. simpl in Hd'. apply andb_true_iff in Hd' as [Hc Hr].
  rewrite (lstrip_with_fixed _ _ _ (digit_not_int_space c Hc)).
  rewrite (rstrip_with_none _ _ (digits_no_int_space _ Hd)).
  rewrite (digit_not_minus c Hc), (digit_not_plus c Hc).
  rewrite (filter_str_all _ _ Hd).
  cbn [int_body_ok]. rewrite Hc, (int_body_ok_digits r Hr). reflexivity.
Qed.

(** [int] of a minus sign and a non-empty run of digits. *)
Lemma py_int_minus_digits ds :
  ds <> EmptyString -> forallb_str is_digit ds = true ->
  py_int (String "-" ds)
  = if (Z.of_nat (String.length ds) <=? MAX_STR_DIGITS)%Z
    then Ok (- int_of_digits ds) else Raise ValueError.
Proof.
  intros Hne Hd. unfold py_int.
  rewrite (lstrip_with_fixed is_int_space "-" ds eq_refl).
  assert (Hs : forallb_str (fun c => negb (is_int_space c)) (String "-" ds) = true)
    by (simpl; apply digits_no_int_space, Hd).
  rewrite (rstrip_with_none _ _ Hs).
  change (Ascii.eqb "-" "-") with true. cbv iota.
  rewrite (filter_str_all _ _ Hd).
  destruct ds as [| c r]; [congruence |].
  simpl in Hd. apply andb_true_iff in Hd as [Hc Hr].
  cbn [int_body_ok]. rewrite Hc, (int_body_ok_digits r Hr). reflexivity.
Qed.

(** The number of digits of [str(n)]: the least [k >= 1] with
    [n < 10 ^ k]. *)
Lemma digits_go_length fuel n acc :
  (n < 10 ^ N.of_nat (S fuel))%N -> (0 < n)%N ->
  exists len,
    String.length (digits_go (S fuel) n acc) = (S len + String.length acc)%nat
    /\ (10 ^ N.of_nat len <= n < 10 ^ N.of_nat (S len))%N.
Proof.
  revert n acc. induction fuel as [| f IH]; intros n acc Hn Hpos;
    rewrite digits_go_S;
    pose proof (N.mod_lt n 10 ltac:(discriminate)) as Hmod;
    pose proof (N.div_mod n 10 ltac:(discriminate)) as Hdm;
    (destruct (N.eqb_spec (n / 10) 0) as [Hz | Hnz];
     [ exists 0%nat; split; [reflexivity |];
       change (10 ^ N.of_nat 0)%N with 1%N; change (10 ^ N.of_nat 1)%N with 10%N; lia
     | ]).
  - exfalso. apply Hnz, N.div_small. exact Hn.
  - assert (Hdiv : (n / 10 < 10 ^ N.of_nat (S f))%N).
    { apply N.Div0.div_lt_upper_bound.
      replace (N.of_nat (S (S f))) with (N.succ (N.of_nat (S f))) in Hn by lia.
      rewrite N.pow_succ_r' in Hn. exact Hn. }
    destruct (IH (n / 10)%N (String (digit_char (n mod 10)) acc) Hdiv ltac:(lia))
      as (len & Hlen & Hlo & Hhi).
    exists (S len). split; [rewrite Hlen; simpl; lia |].
    assert (E1 : (10 ^ N.of_nat (S len) = 10 * 10 ^ N.of_nat len)%N)
      by (rewrite Nat2N.inj_succ; apply N.pow_succ_r').
    assert (E2 : (10 ^ N.of_nat (S (S len)) = 10 * 10 ^ N.of_nat (S len))%N)
      by (rewrite (Nat2N.inj_succ (S len)); apply N.pow_succ_r').
    rewrite E2, E1. rewrite E1 in Hhi.
    set (P := (10 ^ N.of_nat len)%N) in *. clearbody P.
    set (d := (n / 10)%N) in *. clearbody d.
    set (r := (n mod 10)%N) in *. clearbody r.
    clear - Hdm Hmod Hlo Hhi. lia.
Qed.

Lemma str_of_N_length n (k : nat) :
  (1 <= k)%nat ->
  (String.length (str_of_N n) <= k)%nat <-> (n < 10 ^ N.of_nat k)%N.
Proof.
  intros Hk. destruct (N.eq_dec n 0%N) as [-> | Hn].
  - change (String.length (str_of_N 0)) with 1%nat.
    split; [intros _ | intros _; exact Hk].
    apply N.lt_le_trans with (10 ^ 0)%N; [reflexivity |].
    apply N.pow_le_mono_r; lia.
  - unfold str_of_N.
    destruct (digits_go_length _ n EmptyString (str_of_N_fuel n) ltac:(lia))
      as (len & Hlen & Hlo & Hhi).
    rewrite Hlen. cbn [String.length]. rewrite Nat.add_0_r. split; intros H.
    + apply N.lt_le_trans with (10 ^ N.of_nat (S len))%N; [exact Hhi |].
      apply N.pow_le_mono_r; lia.
    + destruct (Nat.le_gt_cases (S len) k) as [Hle | Hgt]; [exact Hle | exfalso].
      assert (10 ^ N.of_nat k <= 10 ^ N.of_nat len)%N by (apply N.pow_le_mono_r; lia).
      lia.
Qed.

(** The digits of [str(n)] are within the conversion limit exactly when
    [|n| < 10 ^ 4300]. *)
Lemma str_of_N_short n :
  (Z.of_nat (String.length (str_of_N n)) <=? MAX_STR_DIGITS)%Z
  = (Z.of_N n <? 10 ^ MAX_STR_DIGITS)%Z.
Proof.
  pose proof (str_of_N_length n (Z.to_nat MAX_STR_DIGITS)) as H.
  assert (Hk : (1 <= Z.to_nat MAX_STR_DIGITS)%nat) by (unfold MAX_STR_DIGITS; lia).
  specialize (H Hk).
  assert (Hpow : Z.of_N (10 ^ N.of_nat (Z.to_nat MAX_STR_DIGITS)) = 10 ^ MAX_STR_DIGITS).
  { rewrite N2Z.inj_pow. reflexivity. }
  destruct (Z.leb_spec (Z.of_nat (String.length (str_of_N n))) MAX_STR_DIGITS) as [Hl | Hl];
    destruct (Z.ltb_spec (Z.of_N n) (10 ^ MAX_STR_DIGITS)) as [Hv | Hv];
    try reflexivity; exfalso; rewrite <- Hpow in Hv.
  - apply N2Z.inj_le in Hv. apply N.le_ngt in Hv. apply Hv, H.
    unfold MAX_STR_DIGITS in *. lia.
  - apply N2Z.inj_lt in Hv. apply H in Hv. unfold MAX_STR_DIGITS in *. lia.
Qed.

(** *** The token pattern *)

Lemma span_rest p s a b :
  span p s = (a, b) -> match b with String y _ => p y = false | EmptyString => True end.
Proof.
  revert a b. induction s as [| c r IH]; simpl; intros a b H.
  - injection H as <- <-. exact I.
  - destruct (p c) eqn:Pc.
    + destruct (span p r) as [a' b'] eqn:E. injection H as <- <-.
      eapply IH. reflexivity.
    + injection H as <- <-. exact Pc.
Qed.

Lemma bracket_group_app s body rest :
  bracket_group s = Some (body, rest) -> "[" +:+ body +:+ "]" +:+ rest = s.
Proof.
  unfold bracket_group. destruct s as [| c r]; [discriminate |].
  destruct (Ascii.eqb_spec c "["); [subst c | discriminate].
  destruct (span not_rbracket r) as [a b] eqn:E.
  destruct a as [| x a]; [discriminate |]. destruct b as [| y b]; [discriminate |].
  intros H. injection H as <- <-.
  pose proof (span_app _ _ _ _ E) as Happ.
  pose proof (span_rest _ _ _ _ E) as Hy. simpl in Hy.
  unfold not_rbracket in Hy.
  destruct (Ascii.eqb_spec y "]"); [subst y | discriminate].
  rewrite <- Happ. reflexivity.
Qed.

(** A match and the text after it make up the text the pattern was tried
    on, and the match is not empty. *)
Lemma SKILL_PARAM_RE_app s m rest :
  SKILL_PARAM_RE s = Some (m, rest) ->
  group0 m +:+ rest = s /\ (1 <= String.length (group0 m))%nat.
Proof.
  unfold SKILL_PARAM_RE. destruct s as [| c r]; [discriminate |].
  destruct (Ascii.eqb_spec c "#"); [subst c | discriminate].
  destruct (span is_digit r) as [ds r1] eqn:E1.
  destruct (is_empty ds); [discriminate |].
  pose proof (span_app _ _ _ _ E1) as H1.
  destruct (bracket_group r1) as [[body r2] |] eqn:E2.
  - pose proof (bracket_group_app _ _ _ E2) as H2.
    destruct r2 as [| p r3].
    + intros H. injection H as <- <-. simpl. split; [| lia].
      f_equal. rewrite <- H1, <- H2. rewrite !append_assoc. reflexivity.
    + destruct (Ascii.eqb_spec p "%"); [subst p |];
        intros H; injection H as <- <-; simpl; (split; [| lia]);
        f_equal; rewrite <- H1, <- H2; rewrite !append_assoc; reflexivity.
  - destruct r1 as [| p r3].
    + intros H. injection H as <- <-. simpl. split; [| lia].
      f_equal. rewrite <- H1. rewrite !append_assoc. reflexivity.
    + destruct (Ascii.eqb_spec p "%"); [subst p |];
        intros H; injection H as <- <-; simpl; (split; [| lia]);
        f_equal; rewrite <- H1; rewrite !append_assoc; reflexivity.
Qed.

(** *** Substitution *)

Lemma re_sub_go_segments re repl s k :
  re_sub_go re repl s k = render_segments repl (scan_go re s k).
Proof.
  revert k. induction s as [| c r IH]; intros k; [reflexivity |].
  simpl. destruct k as [| k]; [| apply IH].
  destruct (re (String c r)) as [[m rest] |]; simpl; rewrite IH; reflexivity.
Qed.

(** The segments spell the text, for any pattern whose matches are
    non-empty prefixes of the text they are tried on. *)
Lemma scan_go_text re s k :
  (forall t m rest, re t = Some (m, rest) ->
     group0 m +:+ rest = t /\ (1 <= String.length (group0 m))%nat) ->
  concat_text (scan_go re s k) = drop k s.
Proof.
  intros Hre. revert k.
  induction s as [| c r IH]; intros k; [symmetry; apply drop_all |].
  cbn [scan_go]. destruct k as [| k]; [| apply IH].
  destruct (re (String c r)) as [[m rest] |] eqn:E.
  - apply Hre in E as [Happ Hlen].
    cbn [concat_text segment_text drop]. rewrite IH.
    destruct (group0 m) as [| x g] eqn:G; [simpl in Hlen; lia |].
    rewrite append_cons in Happ. injection Happ as -> <-.
    rewrite append_cons. f_equal.
    cbn [String.length]. replace (S (String.length g) - 1)%nat with (String.length g) by lia.
    rewrite drop_app. reflexivity.
  - cbn [concat_text segment_text drop]. rewrite IH. reflexivity.
Qed.

Lemma render_unchanged repl sgs :
  (forall m, Tok m ∈ sgs -> repl m = Ok (group0 m)) ->
  render_segments repl sgs = Ok (concat_text sgs).
Proof.
  induction sgs as [| sg rest IH]; intros H; [reflexivity |].
  assert (Hrest : render_segments repl rest = Ok (concat_text rest)).
  { apply IH. intros m Hm. apply H. apply elem_of_cons. right. exact Hm. }
  destruct sg as [c | m]; simpl; rewrite Hrest; [reflexivity |].
  rewrite (H m) by (apply elem_of_cons; left; reflexivity). reflexivity.
Qed.

(** A token of the scan is a match of the pattern at a suffix of the text. *)
Lemma scan_go_tokens re s k m :
  Tok m ∈ scan_go re s k ->
  exists pre t rest, s = pre +:+ t /\ re t = Some (m, rest).
Proof.
  revert k. induction s as [| c r IH]; intros k H; [simpl in H; set_solver |].
  cbn [scan_go] in H.
  assert (Htail : forall j, Tok m ∈ scan_go re r j ->
            exists pre t rest, String c r = pre +:+ t /\ re t = Some (m, rest)).
  { intros j Hj. destruct (IH j Hj) as (pre & t & rest & -> & Hre).
    exists (String c pre), t, rest. split; [reflexivity | exact Hre]. }
  destruct k as [| k]; [| exact (Htail _ H)].
  destruct (re (String c r)) as [[m' rest] |] eqn:E.
  - apply elem_of_cons in H as [H | H]; [| exact (Htail _ H)].
    injection H as ->. exists EmptyString, (String c r), rest.
    split; [reflexivity | exact E].
  - apply elem_of_cons in H as [H | H]; [discriminate | exact (Htail _ H)].
Qed.

Lemma SKILL_PARAM_RE_hash t m rest :
  SKILL_PARAM_RE t = Some (m, rest) -> exists r, t = String "#" r.
Proof.
  unfold SKILL_PARAM_RE. destruct t as [| c r]; [discriminate |].
  destruct (Ascii.eqb_spec c "#"); [subst c | discriminate].
  intros _. exists r. reflexivity.
Qed.

Lemma SKILL_PARAM_RE_plain t m rest :
  SKILL_PARAM_RE t = Some (m, rest) -> without_char "[" t = true -> group2 m = None.
Proof.
  unfold SKILL_PARAM_RE, without_char. destruct t as [| c r]; [discriminate |].
  destruct (Ascii.eqb_spec c "#"); [subst c | discriminate].
  destruct (span is_digit r) as [ds r1] eqn:E1.
  destruct (is_empty ds); [discriminate |].
  intros H Hno. simpl in Hno.
  rewrite <- (span_app _ _ _ _ E1), forallb_str_app in Hno.
  apply andb_true_iff in Hno as [_ Hno].
  assert (Hb : bracket_group r1 = None).
  { destruct r1 as [| x r1]; [reflexivity |]. simpl in Hno.
    apply andb_true_iff in Hno as [Hx _]. apply negb_true_iff in Hx.
    unfold bracket_group. rewrite Hx. reflexivity. }
  rewrite Hb in H.
  destruct r1 as [| p r']; [injection H as <- _; reflexivity |].
  destruct (Ascii.eqb p "%"); injection H as <- _; reflexivity.
Qed.

(** The index of a match is a non-empty run of digits. *)
Lemma SKILL_PARAM_RE_group1 t m rest :
  SKILL_PARAM_RE t = Some (m, rest) ->
  group1 m <> EmptyString /\ forallb_str is_digit (group1 m) = true.
Proof.
  unfold SKILL_PARAM_RE. destruct t as [| c r]; [discriminate |].
  destruct (Ascii.eqb c "#"); [| discriminate].
  destruct (span is_digit r) as [ds r1] eqn:E1.
  destruct (is_empty ds) eqn:Ee; [discriminate |].
  intros H.
  assert (G : group1 m = ds).
  { repeat match type of H with
           | context [match ?x with _ => _ end] => destruct x
           end; injection H as <- _; reflexivity. }
  rewrite G. split; [destruct ds; [discriminate Ee | discriminate] |].
  exact (span_forall _ _ _ _ E1).
Qed.

(** The index of a token of a template: the value of its digits less one,
    unless the digits exceed the conversion limit. *)
Lemma token_index_scan template m :
  Tok m ∈ scan template ->
  token_index m
  = if (index_digits m <=? MAX_STR_DIGITS)%Z
    then Ok (int_of_digits (group1 m) - 1) else Raise ValueError.
Proof.
  intros Hm. destruct (scan_go_tokens _ _ _ _ Hm) as (pre & t & rest & _ & Hre).
  destruct (SKILL_PARAM_RE_group1 _ _ _ Hre) as [Hne Hd].
  unfold token_index, index_digits. rewrite (py_int_digits _ Hne Hd).
  destruct (Z.of_nat (String.length (group1 m)) <=? MAX_STR_DIGITS)%Z; reflexivity.
Qed.

Lemma repl_out_of_range params m index :
  token_index m = Ok index ->
  index < 0 \/ Z.of_nat (length params) <= index ->
  repl params m = Ok (group0 m).
Proof.
  unfold repl. intros -> H. cbn [mbind result_bind].
  destruct (Z.ltb_spec index 0); [reflexivity |].
  destruct (Z.leb_spec (Z.of_nat (length params)) index); [reflexivity | lia].
Qed.

Lemma repl_raises params m e : token_index m = Raise e -> repl params m = Raise e.
Proof. unfold repl. intros ->. reflexivity. Qed.

(** A replacement that raises ends the substitution. *)
Lemma render_raises repl sgs m e :
  Tok m ∈ sgs -> repl m = Raise e -> exists e', render_segments repl sgs = Raise e'.
Proof.
  intros Hm Hr. induction sgs as [| sg rest IH]; [set_solver |].
  apply elem_of_cons in Hm as [<- | Hm].
  - exists e. cbn [render_segments]. rewrite Hr. reflexivity.
  - destruct (IH Hm) as [e' He']. destruct sg as [c | m'].
    + exists e'. cbn [render_segments]. rewrite He'. reflexivity.
    + cbn [render_segments]. destruct (repl m') as [out | e0].
      * exists e'. rewrite He'. reflexivity.
      * exists e0. reflexivity.
Qed.

Lemma apply_param_template_segments lib template raw params :
  parse_param_values lib raw = Ok params ->
  apply_param_template lib (Some template) raw =
  match params with
  | [] => Ok (Some template)
  | _ => out ← render_segments (repl params) (scan template); Ok (Some out)
  end.
Proof.
  intros Hp. unfold apply_param_template. rewrite Hp. simpl.
  destruct params; [reflexivity |].
  unfold re_sub. rewrite re_sub_go_segments. reflexivity.
Qed.

(** C5, counterexample: rendering raises [OverflowError] when an in-range
    token with the integer format meets an infinite parameter, whatever
    out-of-range tokens the template also holds. *)
Lemma renders_claim_fails :
  ~ renders no_parsers "Deals #1[i] damage, #9 unused" (JArr [JFloat (Inf false)]).
Proof. intros [out H]. vm_compute in H. discriminate. Qed.

(** C5, amended: for every template and every parameter list whose
    extraction succeeds, the template is cut into literal characters and
    tokens that spell it; a token whose index is written with at most 4300
    digits and is 0 or exceeds the number of parameters is replaced by its
    own text, without raising; a token whose index is written with more
    than 4300 digits makes the replacement raise [ValueError], whatever
    the parameters; the rendered text is the segments rendered in order; a
    template all of whose tokens have at most 4300 digits and are out of
    range renders to itself; with at least one parameter, a template that
    holds a token of more than 4300 digits raises; [#9 unused] with two
    parameters renders to itself, and [#] followed by 4301 nines with one
    parameter raises [ValueError].  Rendering as a whole can also raise on
    an in-range token. *)
Theorem out_of_range_tokens_amended lib template raw params :
  parse_param_values lib raw = Ok params ->
  concat_text (scan template) = template
  /\ (forall m, Tok m ∈ scan template -> index_digits m <= MAX_STR_DIGITS ->
        out_of_range params m -> repl params m = Ok (group0 m))
  /\ (forall m, Tok m ∈ scan template -> MAX_STR_DIGITS < index_digits m ->
        repl params m = Raise ValueError)
  /\ apply_param_template lib (Some template) raw =
       match params with
       | [] => Ok (Some template)
       | _ => out ← render_segments (repl params) (scan template); Ok (Some out)
       end
  /\ ((forall m, Tok m ∈ scan template ->
         index_digits m <= MAX_STR_DIGITS /\ out_of_range params m) ->
      apply_param_template lib (Some template) raw = Ok (Some template))
  /\ ((exists m, Tok m ∈ scan template /\ MAX_STR_DIGITS < index_digits m) ->
      params <> [] ->
      exists e, apply_param_template lib (Some template) raw = Raise e)
  /\ apply_param_template lib (Some "#9 unused") (JArr [JInt 1; JInt 2])
       = Ok (Some "#9 unused")
  /\ apply_param_template lib (Some long_token) (JArr [JInt 1]) = Raise ValueError.
Proof.
  intros Hp.
  assert (Htext : concat_text (scan template) = template).
  { unfold scan. rewrite scan_go_text by apply SKILL_PARAM_RE_app.
    destruct template; reflexivity. }
  assert (Hin : forall m, Tok m ∈ scan template -> index_digits m <= MAX_STR_DIGITS ->
            out_of_range params m -> repl params m = Ok (group0 m)).
  { intros m Hm Hshort Hout.
    apply (repl_out_of_range params m (int_of_digits (group1 m) - 1)).
    - rewrite (token_index_scan template m Hm).
      destruct (Z.leb_spec (index_digits m) MAX_STR_DIGITS); [reflexivity | lia].
    - unfold out_of_range in Hout. lia. }
  assert (Hlong : forall m, Tok m ∈ scan template -> MAX_STR_DIGITS < index_digits m ->
            repl params m = Raise ValueError).
  { intros m Hm Hl. apply repl_raises. rewrite (token_index_scan template m Hm).
    destruct (Z.leb_spec (index_digits m) MAX_STR_DIGITS); [lia | reflexivity]. }
  split; [exact Htext |].
  split; [exact Hin |].
  split; [exact Hlong |].
  split; [apply apply_param_template_segments, Hp |].
  split; [| split; [| split; vm_compute; reflexivity]].
  - intros Hall. rewrite (apply_param_template_segments _ _ _ _ Hp).
    destruct params as [| p ps]; [reflexivity |].
    rewrite render_unchanged.
    + simpl. rewrite Htext. reflexivity.
    + intros m Hm. destruct (Hall m Hm) as [Hs Ho]. apply (Hin m Hm Hs Ho).
  - intros (m & Hm & Hl) Hne. rewrite (apply_param_template_segments _ _ _ _ Hp).
    destruct params as [| p ps]; [congruence |].
    destruct (render_raises (repl (p :: ps)) (scan template) m ValueError Hm
                (Hlong m Hm Hl)) as [e He].
    exists e. rewrite He. reflexivity.
Qed.

(** C5, witness: a template with the tokens [#0] and [#3[f2]%] and two
    parameters. *)
Lemma out_of_range_tokens_witness :
  concat_text (scan "#0 and #3[f2]%") = "#0 and #3[f2]%"
  /\ apply_param_template no_parsers (Some "#0 and #3[f2]%")
       (JArr [JFloat (Fin 1); JInt 2]) = Ok (Some "#0 and #3[f2]%").
Proof.
  destruct (out_of_range_tokens_amended no_parsers "#0 and #3[f2]%"
              (JArr [JFloat (Fin 1); JInt 2]) [Fin 1; Fin 2])
    as (H1 & _ & _ & _ & H4 & _).
  - vm_compute. reflexivity.
  - split; [exact H1 |]. apply H4.
    intros m Hm.
    let l := eval vm_compute in (scan "#0 and #3[f2]%") in
      change (scan "#0 and #3[f2]%") with l in Hm.
    rewrite !elem_of_cons, elem_of_nil in Hm.
    repeat (destruct Hm as [Hm | Hm]; try discriminate Hm);
      try (injection Hm as ->; split;
           [vm_compute; discriminate
           | vm_compute; (left; discriminate) || (right; reflexivity)]).
    destruct Hm.
Defined.

(** C4: the template [Deals #1[i] damage and #2% chance to stun.] with the
    parameters 150.4 and 0.35 renders to
    [Deals 150 damage and 35% chance to stun.]: 150.4 rounds to the integer
    150; 0.35 times 100.0 is 35.0, which the natural format prints as 35
    before the percent sign. *)
Theorem render_example lib :
  apply_param_template lib (Some "Deals #1[i] damage and #2% chance to stun.")
    (JArr [JFloat (lit 1504 1); JFloat (lit 35 2)])
  = Ok (Some "Deals 150 damage and 35% chance to stun.")
  /\ round0 (lit 1504 1) = Ok 150
  /\ feq (fmul (lit 35 2) (of_Z 100)) (Fin 35)
  /\ format_num (fmul (lit 35 2) (of_Z 100)) None true = Ok "35".
Proof.
  split; [vm_compute; reflexivity |].
  split; [vm_compute; reflexivity |].
  split; vm_compute; reflexivity.
Qed.

Lemma Qfloor_halfway q n : (q == inject_Z n + (1 # 2))%Q -> Qfloor q = n.
Proof.
  intros Hq.
  pose proof (Qfloor_le q) as Hlo. pose proof (Qlt_floor q) as Hhi.
  rewrite inject_Z_plus in Hhi. change (inject_Z 1) with 1%Q in Hhi.
  assert (H1 : (inject_Z (Qfloor q) < inject_Z (n + 1))%Q)
    by (rewrite inject_Z_plus; change (inject_Z 1) with 1%Q; lra).
  assert (H2 : (inject_Z n < inject_Z (Qfloor q + 1))%Q)
    by (rewrite inject_Z_plus; change (inject_Z 1) with 1%Q; lra).
  rewrite <- Zlt_Qlt in H1, H2. lia.
Qed.

Lemma round0_halfway x n : halfway x n -> round0 x = Ok (even_neighbour n).
Proof.
  intros (q & -> & Hq). simpl. f_equal. unfold round_half_even, even_neighbour.
  rewrite (Qfloor_halfway q n Hq).
  destruct (Qcompare_spec (q - inject_Z n) (1 # 2)) as [C | C | C];
    [reflexivity | exfalso; lra | exfalso; lra].
Qed.

Lemma repl_integer_format params m index p :
  integer_format m -> token_index m = Ok index -> 0 <= index ->
  params !! Z.to_nat index = Some p ->
  repl params m = (k ← round0 (scaled m p); Ok (str_of_Z k +:+ percent_suffix m)).
Proof.
  intros Hi Htok Hidx Hp. unfold repl. rewrite Htok. cbn [mbind result_bind].
  destruct (Z.ltb_spec index 0); [lia |].
  apply lookup_lt_Some in Hp as Hlen.
  destruct (Z.leb_spec (Z.of_nat (length params)) index); [lia |].
  cbn [orb]. rewrite Hp. unfold integer_format in Hi. rewrite Hi.
  change (default NaN (Some p)) with p.
  destruct (round0 (scaled m p)); reflexivity.
Qed.

(** C10: a token with the integer format whose index, once converted, is
    in range renders [round] of the scaled parameter; when that value lies
    halfway between [n] and [n + 1] the even one of the two is printed.
    Under [#1[i]], 2.5 renders as 2 and 3.5 as 4. *)
Theorem integer_format_half_even params m index p n :
  integer_format m -> token_index m = Ok index -> 0 <= index ->
  params !! Z.to_nat index = Some p ->
  halfway (scaled m p) n ->
  repl params m = (k ← round0 (scaled m p); Ok (str_of_Z k +:+ percent_suffix m))
  /\ repl params m = Ok (str_of_Z (even_neighbour n) +:+ percent_suffix m)
  /\ apply_param_template no_parsers (Some "#1[i]") (JArr [JFloat (Fin (5 # 2))])
       = Ok (Some "2")
  /\ apply_param_template no_parsers (Some "#1[i]") (JArr [JFloat (Fin (7 # 2))])
       = Ok (Some "4").
Proof.
  intros Hi Htok Hidx Hp Hh.
  pose proof (repl_integer_format params m index p Hi Htok Hidx Hp) as Hr.
  split; [exact Hr |]. split; [| split; vm_compute; reflexivity].
  rewrite Hr, (round0_halfway _ _ Hh). reflexivity.
Qed.

(** C10, witness: 0.025 under [#1[i]%] scales to 2.5 and renders as 2%. *)
Lemma integer_format_witness :
  repl [Fin (1 # 40)] percent_token = Ok "2%".
Proof.
  destruct (integer_format_half_even [Fin (1 # 40)] percent_token 0 (Fin (1 # 40)) 2)
    as (_ & H & _).
  - reflexivity.
  - reflexivity.
  - lia.
  - reflexivity.
  - exists (5 # 2)%Q. split; vm_compute; reflexivity.
  - exact H.
Defined.

(** ** Text lookup and hash keys *)

(** *** Text lookup *)

Lemma found_nonempty text :
  (found text = true /\ nonempty_text text = text)
  \/ (found text = false /\ nonempty_text text = None).
Proof.
  destruct text as [t |]; simpl; [| right; split; reflexivity].
  destruct (truthy t); [left | right]; split; reflexivity.
Qed.

(** C6, counterexample: the JP text stored for the key is the empty string;
    the lookup passes over it and returns the CHS text. *)
Lemma fallback_claim_fails :
  ~ fallback_claim no_hashers empty_jp_store "JP" (Some "123") None.
Proof. unfold fallback_claim. vm_compute. discriminate. Qed.

(** C6, amended: the lookup tries the requested language, then CHS, then
    EN, and returns the first text that is not empty, or else the supplied
    fallback; a non-empty text stored for the requested language is the one
    returned; an empty stored text counts as absent. *)
Theorem fallback_chain_amended h text_map lang raw_key fallback :
  let lookup l := nonempty_text (resolve_text_from_key h text_map l raw_key) in
  resolve_text_with_fallback h text_map lang raw_key fallback
    = first_text lookup [lang; "CHS"; "EN"] fallback
  /\ (forall t, resolve_text_from_key h text_map lang raw_key = Some t ->
        t <> EmptyString ->
        resolve_text_with_fallback h text_map lang raw_key fallback = Some t)
  /\ ((forall l, l ∈ [lang; "CHS"; "EN"] -> lookup l = None) ->
      resolve_text_with_fallback h text_map lang raw_key fallback = fallback).
Proof.
  intros lookup.
  assert (Hmain : resolve_text_with_fallback h text_map lang raw_key fallback
                  = first_text lookup [lang; "CHS"; "EN"] fallback).
  { unfold resolve_text_with_fallback, lookup. cbn [first_text].
    destruct (found_nonempty (resolve_text_from_key h text_map lang raw_key))
      as [[F N] | [F N]]; rewrite F, N.
    { destruct (resolve_text_from_key h text_map lang raw_key); [reflexivity | discriminate]. }
    destruct (String.eqb_spec lang "CHS") as [-> | Hchs]; cbn [negb andb].
    - rewrite N.
      destruct (found_nonempty (resolve_text_from_key h text_map "EN" raw_key))
        as [[F' N'] | [F' N']]; rewrite F', N'; cbn [negb andb String.eqb]; [| reflexivity].
      destruct (resolve_text_from_key h text_map "EN" raw_key); [reflexivity | discriminate].
    - destruct (found_nonempty (resolve_text_from_key h text_map "CHS" raw_key))
        as [[F' N'] | [F' N']]; rewrite F', N'.
      { destruct (resolve_text_from_key h text_map "CHS" raw_key); [reflexivity | discriminate]. }
      destruct (String.eqb_spec lang "EN") as [-> | Hen]; cbn [negb andb].
      + rewrite N. reflexivity.
      + destruct (found_nonempty (resolve_text_from_key h text_map "EN" raw_key))
          as [[F2 N2] | [F2 N2]]; rewrite F2, N2; [| reflexivity].
        destruct (resolve_text_from_key h text_map "EN" raw_key); [reflexivity | discriminate]. }
  split; [exact Hmain |]. split.
  - intros t Ht Hne. rewrite Hmain. cbn [first_text]. unfold lookup. rewrite Ht.
    destruct t as [| c t]; [congruence | reflexivity].
  - intros Hnone. rewrite Hmain. cbn [first_text].
    rewrite !Hnone by (rewrite !elem_of_cons; tauto). reflexivity.
Qed.

(** C6, witness: the CHS text stands in for the empty JP text, and a
    non-empty CHS text is returned for CHS. *)
Lemma fallback_chain_witness :
  resolve_text_with_fallback no_hashers empty_jp_store "CHS" (Some "123") None
  = Some "Trailblazer".
Proof.
  destruct (fallback_chain_amended no_hashers empty_jp_store "CHS" (Some "123") None)
    as (_ & H & _).
  apply H; [vm_compute; reflexivity | discriminate].
Defined.

(** *** Hash-key resolution *)

Lemma hash_with_xxhash_fails h token :
  xxhash_fails h token -> hash_with_xxhash h token = None.
Proof.
  unfold xxhash_fails, hash_with_xxhash.
  destruct (xxhash h) as [f |]; [| reflexivity]. intros ->. reflexivity.
Qed.

Lemma hash_with_xxhsum_fails h token :
  xxhsum_fails h token -> hash_with_xxhsum h token = None.
Proof.
  unfold xxhsum_fails, hash_with_xxhsum.
  destruct (XXHSUM_BIN h) as [run |]; [| reflexivity].
  destruct (run token) as [[rc out] |]; [| reflexivity].
  destruct (Z.eqb_spec rc 0) as [-> | Hrc]; [| reflexivity].
  intros [Hne | Hw]; [congruence |].
  destruct (first_word out) as [w |]; [| reflexivity]. rewrite Hw. reflexivity.
Qed.

(** C7: when the trimmed key is not a numeral and neither hashing path
    yields a digest for it, [hash_text_key] returns [None], the text lookup
    returns [None] as for a missing text, and the fallback lookup returns
    its fallback.  None of the three can raise. *)
Theorem hashing_unavailable h text_map lang raw_key fallback :
  RAW_HASH_RE (strip raw_key) = false ->
  xxhash_fails h (strip raw_key) ->
  xxhsum_fails h (strip raw_key) ->
  hash_text_key h raw_key = None
  /\ resolve_text_from_key h text_map lang (Some raw_key) = None
  /\ resolve_text_with_fallback h text_map lang (Some raw_key) fallback = fallback.
Proof.
  intros Hraw H1 H2.
  assert (Hk : hash_text_key h raw_key = None).
  { unfold hash_text_key. destruct (is_empty (strip raw_key)); [reflexivity |].
    rewrite Hraw, (hash_with_xxhash_fails _ _ H1). apply hash_with_xxhsum_fails, H2. }
  assert (Hr : forall l, resolve_text_from_key h text_map l (Some raw_key) = None).
  { intros l. unfold resolve_text_from_key. rewrite Hk.
    destruct (is_empty raw_key); reflexivity. }
  split; [exact Hk |]. split; [apply Hr |].
  unfold resolve_text_with_fallback. rewrite !Hr. cbn [found andb].
  rewrite !andb_false_r. reflexivity.
Qed.

(** C7, witness: no hashing path at all, and a literal key. *)
Lemma hashing_unavailable_witness :
  hash_text_key no_hashers "AvatarName_1001" = None
  /\ resolve_text_from_key no_hashers empty_jp_store "JP" (Some "AvatarName_1001") = None
  /\ resolve_text_with_fallback no_hashers empty_jp_store "JP"
       (Some "AvatarName_1001") None = None.
Proof.
  apply (hashing_unavailable no_hashers empty_jp_store "JP" "AvatarName_1001" None).
  - vm_compute. reflexivity.
  - exact I.
  - exact I.
Defined.

Lemma lstrip_all_space s :
  forallb_str is_space s = true -> lstrip_with is_space s = EmptyString.
Proof.
  induction s as [| c r IH]; simpl; [reflexivity |].
  destruct (is_space c); [exact IH | discriminate].
Qed.

(** C8: a key that is empty or all whitespace resolves to [None]; a key
    whose trimmed form is a non-empty run of decimal digits resolves to the
    trimmed form, whatever the hashing paths do; the key 123 resolves to
    123. *)
Theorem numeral_short_circuit h raw_key :
  (forallb_str is_space raw_key = true -> hash_text_key h raw_key = None)
  /\ (strip raw_key <> EmptyString -> forallb_str is_digit (strip raw_key) = true ->
      hash_text_key h raw_key = Some (strip raw_key))
  /\ hash_text_key h "123" = Some "123".
Proof.
  split; [| split].
  - intros Hs. unfold hash_text_key, strip.
    rewrite (lstrip_all_space _ Hs). reflexivity.
  - intros Hne Hd. unfold hash_text_key, RAW_HASH_RE, truthy.
    destruct (strip raw_key) as [| c t]; [congruence |].
    cbn [is_empty negb andb]. rewrite Hd. reflexivity.
  - reflexivity.
Qed.

(** C8, witness: a blank key and a padded numeral, with no hashing path. *)
Lemma numeral_short_circuit_witness :
  hash_text_key no_hashers "   " = None
  /\ hash_text_key no_hashers " 8017 " = Some "8017".
Proof.
  destruct (numeral_short_circuit no_hashers "   ") as (H1 & _ & _).
  destruct (numeral_short_circuit no_hashers " 8017 ") as (_ & H2 & _).
  split.
  - apply H1. reflexivity.
  - apply H2; [discriminate | reflexivity].
Defined.

(** *** Module closure *)

Section SqlCollect.
Context {R : Type} (col : R -> option string).

Lemma add_hashes_from_sql_mono needed table a :
  a ∈ needed -> a ∈ add_hashes_from_sql needed col table.
Proof.
  unfold add_hashes_from_sql. revert needed.
  induction table as [| r table IH]; intros needed Ha; simpl; [exact Ha |].
  apply IH. destruct (col r) as [v |]; [| exact Ha].
  destruct (is_empty v); [exact Ha | set_solver].
Qed.

Lemma add_hashes_from_sql_collects needed table r a :
  r ∈ table -> is_address (col r) a -> a ∈ add_hashes_from_sql needed col table.
Proof.
  intros Hr [Hc Hne]. revert needed.
  induction table as [| r' table IH]; intros needed; [set_solver |].
  apply elem_of_cons in Hr as [<- | Hr].
  - unfold add_hashes_from_sql. simpl. fold (add_hashes_from_sql
      (match col r with Some v => if is_empty v then needed else {[v]} ∪ needed
       | None => needed end) col table).
    apply add_hashes_from_sql_mono. rewrite Hc.
    destruct a; [congruence |]. simpl. set_solver.
  - unfold add_hashes_from_sql in *. simpl. apply IH, Hr.
Qed.

End SqlCollect.

Lemma add_hashes_from_iter_mono needed extra a :
  a ∈ needed -> a ∈ add_hashes_from_iter needed extra.
Proof. unfold add_hashes_from_iter. set_solver. Qed.

(** C1, counterexample: the trigger address of an eidolon row is not in the
    closure of the avatar module. *)
Lemma closure_claim_fails : ~ closure_claim no_parsers no_hashers one_rank_db no_resources.
Proof.
  intros H.
  assert (Hin : "7100101" ∈ module_closure no_parsers no_hashers one_rank_db no_resources Avatar).
  { apply (H (Some "7100101")).
    - unfold all_hash_fields, collected_fields. simpl. set_solver.
    - split; [reflexivity | discriminate]. }
  assert (E : module_closure no_parsers no_hashers one_rank_db no_resources Avatar = ∅)
    by (vm_compute; reflexivity).
  rewrite E in Hin. set_solver.
Qed.

(** C1, amended: every non-empty hash field of the rows of [avatar],
    [avatar_promotion] and [avatar_skill] is in the closure computed for the
    avatar module; [avatar_rank.trigger_hash], which no reader dereferences,
    is not collected. *)
Theorem avatar_closure_amended lib h db res v a :
  v ∈ collected_fields db -> is_address v a ->
  a ∈ module_closure lib h db res Avatar.
Proof.
  intros Hv Ha. unfold module_closure, copy_module_tables, gather_module_hashes.
  cbn [avatar avatar_skill avatar_rank].
  apply add_hashes_from_iter_mono.
  unfold collected_fields in Hv. rewrite !elem_of_app in Hv.
  destruct Hv as [Hv | [Hv | Hv]].
  - apply list_elem_of_In, in_flat_map in Hv as (r & Hr & Hf).
    apply list_elem_of_In in Hr, Hf. unfold avatar_fields in Hf.
    rewrite !elem_of_cons, elem_of_nil in Hf.
    destruct Hf as [-> | [-> | []]].
    + do 4 apply add_hashes_from_sql_mono.
      eapply add_hashes_from_sql_collects; eassumption.
    + do 3 apply add_hashes_from_sql_mono.
      eapply add_hashes_from_sql_collects; eassumption.
  - apply list_elem_of_In, in_flat_map in Hv as (r & _ & []).
  - apply list_elem_of_In, in_flat_map in Hv as (r & Hr & Hf).
    apply list_elem_of_In in Hr, Hf. unfold skill_fields in Hf.
    rewrite !elem_of_cons, elem_of_nil in Hf.
    destruct Hf as [-> | [-> | [-> | []]]].
    + do 2 apply add_hashes_from_sql_mono.
      eapply add_hashes_from_sql_collects; eassumption.
    + do 1 apply add_hashes_from_sql_mono.
      eapply add_hashes_from_sql_collects; eassumption.
    + eapply add_hashes_from_sql_collects; eassumption.
Qed.

(** C1, witness: the description address of a skill row. *)
Lemma avatar_closure_witness :
  "2048737107" ∈ module_closure no_parsers no_hashers one_avatar_db no_resources Avatar.
Proof.
  apply (avatar_closure_amended no_parsers no_hashers one_avatar_db no_resources
           (Some "2048737107")).
  - unfold collected_fields. simpl. rewrite !elem_of_cons. tauto.
  - split; [reflexivity | discriminate].
Defined.

(** *** Reference extraction *)

Lemma nearest_tag_snoc chain node :
  nearest_tag (chain ++ [node]) =
  match own_tag node with
  | Some t => Some t
  | None => nearest_tag chain
  end.
Proof. unfold nearest_tag. rewrite fold_left_app. reflexivity. Qed.

Lemma emit_all_cons_ok row rs st :
  emit_all (Ok row :: rs) st = emit_all rs (emit_opt st row).
Proof. unfold emit_all. cbn [collect mbind result_bind]. destruct (collect rs); reflexivity. Qed.

Lemma emit_all_app a b st :
  emit_all (a ++ b) st = (st' ← emit_all a st; emit_all b st').
Proof.
  revert st. induction a as [| [row | e] a IH]; intros st; [reflexivity | | reflexivity].
  change ((Ok row :: a) ++ b) with (Ok row :: (a ++ b)).
  rewrite !emit_all_cons_ok. apply IH.
Qed.

(** The walk emits, for every object node it meets, the row under the
    nearest tag of the node's chain, provided the tag it was handed is the
    nearest tag of the ancestors; it raises when the row of a node does. *)
Lemma walk_nearest_tag rel_path node :
  forall path ancestors st,
    walk rel_path (source_group rel_path) node path (nearest_tag ancestors) st
    = emit_all (map (row_by_nearest_tag rel_path) (object_nodes node path ancestors)) st.
Proof.
  induction node as [| b | n | x | s | items IH | members IH] using json_induction;
    intros path ancestors st; try reflexivity.
  - (* array: the tag is handed on unchanged *)
    cbn [walk object_nodes].
    assert (Htag : nearest_tag (ancestors ++ [JArr items]) = nearest_tag ancestors)
      by (rewrite nearest_tag_snoc; reflexivity).
    revert Htag. generalize (ancestors ++ [JArr items]) as chain. intros chain Htag.
    generalize 0%nat as i. revert st.
    induction IH as [| v rest Hv _ IHrest]; intros st i; [reflexivity |].
    rewrite map_app, emit_all_app. rewrite <- Hv, Htag.
    destruct (walk rel_path (source_group rel_path) v (index_path path i)
                (nearest_tag ancestors) st) as [st' | e]; [| reflexivity].
    cbn [mbind result_bind]. apply IHrest.
  - (* object: the own tag, when a string, replaces the inherited one *)
    cbn [walk object_nodes map].
    assert (Htag : nearest_tag (ancestors ++ [JObj members])
                   = match as_str (dict_get "$type" members) with
                     | Some t => Some t
                     | None => nearest_tag ancestors
                     end)
      by (rewrite nearest_tag_snoc; reflexivity).
    change (row_by_nearest_tag rel_path (path, ancestors, members))
      with (node_row rel_path (source_group rel_path) members path
              (nearest_tag (ancestors ++ [JObj members]))).
    rewrite Htag.
    destruct (node_row rel_path (source_group rel_path) members path
                match as_str (dict_get "$type" members) with
                | Some t => Some t
                | None => nearest_tag ancestors
                end) as [row | e]; [| reflexivity].
    rewrite emit_all_cons_ok.
    generalize (emit_opt st row) as st1.
    revert Htag.
    generalize (match as_str (dict_get "$type" members) with
                | Some t => Some t
                | None => nearest_tag ancestors
                end) as tag.
    generalize (ancestors ++ [JObj members]) as chain. intros chain tag Htag.
    induction IH as [| [key value] rest Hv _ IHrest]; intros st1; [reflexivity |].
    rewrite map_app, emit_all_app. simpl in Hv. rewrite <- Hv, Htag.
    destruct (walk rel_path (source_group rel_path) value (child_path path key) tag st1)
      as [st' | e]; [| reflexivity].
    cbn [mbind result_bind]. apply IHrest.
Qed.

(** C9: the rows extracted from a document are those of its object nodes in
    visiting order, each under the tag of the nearest node that carries
    one on the chain from the root to the node itself: the node's own
    [$type] when it is a string, else that of its nearest tagged ancestor;
    the extraction raises when the row of a node does.  An array on the
    chain changes nothing, and no node outside the chain contributes.  In
    the sample scene the third entry of the task list keeps the tag of the
    scene, not that of the second entry. *)
Theorem type_tag_inheritance rel_path data :
  extract_reference_rows rel_path data
  = (found_rows ← collect (map (row_by_nearest_tag rel_path) (object_nodes data "$" []));
     Ok (dedup_rows found_rows))
  /\ (forall chain node,
        nearest_tag (chain ++ [node])
        = match own_tag node with Some t => Some t | None => nearest_tag chain end)
  /\ (forall chain items, nearest_tag (chain ++ [JArr items]) = nearest_tag chain)
  /\ (found_rows ← extract_reference_rows "Story/M/1.json" sample_document;
      Ok (map task_type found_rows))
     = Ok [Some "PlayTimeline"; Some "PlayTimeline";
           Some "PlayOptionTalk"; Some "PlayTimeline"].
Proof.
  split; [| split; [| split]].
  - unfold extract_reference_rows, dedup_rows.
    change None with (nearest_tag []). rewrite walk_nearest_tag. unfold emit_all.
    destruct (collect (map (row_by_nearest_tag rel_path) (object_nodes data "$" [])));
      reflexivity.
  - apply nearest_tag_snoc.
  - intros chain items. apply nearest_tag_snoc.
  - vm_compute. reflexivity.
Qed.

(** * Further properties *)

(** ** Addresses and hash fields *)

Lemma hex_val_nonneg c : is_hex c = true -> 0 <= hex_val c.
Proof.
  unfold is_hex, hex_val, is_digit. intros H.
  repeat match goal with
         | |- context [(?a <=? ?b)%N] => destruct (N.leb_spec a b)
         | H : context [(?a <=? ?b)%N] |- _ => destruct (N.leb_spec a b)
         | |- context [(?a <=? ?b)%Z] => destruct (Z.leb_spec a b)
         end; simpl in *; try discriminate; lia.
Qed.

Lemma int_of_hex_acc_nonneg s a :
  forallb_str is_hex s = true -> 0 <= a -> 0 <= int_of_hex_acc s a.
Proof.
  revert a. induction s as [| c s IH]; intros a Hs Ha; [exact Ha |].
  simpl in Hs. apply andb_true_iff in Hs as [Hc Hs]. simpl. apply IH; [exact Hs |].
  pose proof (hex_val_nonneg c Hc). lia.
Qed.

(** A non-empty run of digits is its own address. *)
Lemma hash_text_key_numeral h a :
  a <> EmptyString -> forallb_str is_digit a = true -> hash_text_key h a = Some a.
Proof.
  intros Hne Hd. unfold hash_text_key, RAW_HASH_RE, truthy.
  rewrite (strip_digits a Hd). destruct a; [congruence |].
  cbn [is_empty negb andb]. rewrite Hd. reflexivity.
Qed.

(** An address is never empty and is made of decimal digits. *)
Lemma hash_text_key_digits h raw_key a :
  hash_text_key h raw_key = Some a ->
  a <> EmptyString /\ forallb_str is_digit a = true.
Proof.
  intros H. unfold hash_text_key in H.
  destruct (is_empty (strip raw_key)) eqn:Ee; [discriminate |].
  destruct (RAW_HASH_RE (strip raw_key)) eqn:Er.
  { injection H as <-. unfold RAW_HASH_RE in Er.
    apply andb_true_iff in Er as [_ Hd].
    split; [destruct (strip raw_key); [discriminate | discriminate] | exact Hd]. }
  assert (Hsum : forall r, hash_with_xxhsum h (strip raw_key) = Some r ->
            r <> EmptyString /\ forallb_str is_digit r = true).
  { unfold hash_with_xxhsum. intros r Hr.
    destruct (XXHSUM_BIN h) as [run |]; [| discriminate].
    destruct (run (strip raw_key)) as [[rc out] |]; [| discriminate].
    destruct (rc =? 0)%Z; [| discriminate].
    destruct (first_word out) as [w |]; [| discriminate].
    destruct (XXH64_TOKEN_RE w) eqn:Ew; [| discriminate].
    injection Hr as <-. unfold XXH64_TOKEN_RE in Ew.
    apply andb_true_iff in Ew as [_ Hhex].
    destruct (str_of_Z_nonneg (int_of_hex w)) as (_ & Hd & Hn);
      [apply int_of_hex_acc_nonneg; [exact Hhex | lia] | tauto]. }
  unfold hash_with_xxhash in H.
  destruct (xxhash h) as [f |]; [| apply Hsum, H].
  destruct (f (strip raw_key)) as [digest |]; [| apply Hsum, H].
  injection H as <-. destruct (str_of_N_spec digest) as (_ & Hd & Hn). tauto.
Qed.

(** X1: every address [hash_text_key] returns is a non-empty decimal
    numeral, and resolves to itself. *)
Theorem hash_key_address h raw_key a :
  hash_text_key h raw_key = Some a ->
  a <> EmptyString /\ forallb_str is_digit a = true /\ hash_text_key h a = Some a.
Proof.
  intros H. destruct (hash_text_key_digits h raw_key a H) as [Hne Hd].
  split; [exact Hne |]. split; [exact Hd |].
  apply hash_text_key_numeral; assumption.
Qed.

(** Witness of X1: a padded numeral. *)
Lemma hash_key_address_witness :
  "8017" <> EmptyString /\ forallb_str is_digit "8017" = true
  /\ hash_text_key no_hashers "8017" = Some "8017".
Proof.
  apply (hash_key_address no_hashers " 8017 " "8017"). reflexivity.
Defined.

(** X2: whitespace around a key never changes its address. *)
Theorem hash_key_ignores_padding h raw_key :
  hash_text_key h (strip raw_key) = hash_text_key h raw_key.
Proof. unfold hash_text_key. rewrite strip_idem. reflexivity. Qed.

Lemma not_space_minus : negb (is_space "-") = true.
Proof. reflexivity. Qed.

Lemma str_of_Z_no_space n :
  forallb_str (fun c => negb (is_space c)) (str_of_Z n) = true.
Proof.
  destruct n as [| p | p]; [reflexivity | |].
  - destruct (str_of_N_spec (Npos p)) as (_ & Hd & _).
    revert Hd. apply forallb_str_impl, digit_not_space.
  - simpl. destruct (str_of_N_spec (Npos p)) as (_ & Hd & _).
    revert Hd. apply forallb_str_impl, digit_not_space.
Qed.

Lemma str_of_Z_nonempty n : str_of_Z n <> EmptyString.
Proof.
  destruct n as [| p | p]; [discriminate | | discriminate].
  apply (str_of_N_spec (Npos p)).
Qed.

(** X3: [as_hash] yields nothing, or a non-empty string without
    surrounding whitespace. *)
Theorem as_hash_clean value s :
  as_hash value = Some s -> s <> EmptyString /\ strip s = s.
Proof.
  unfold as_hash.
  set (raw := match value with
              | Some (JObj members) =>
                  match dict_get "Hash" members with Some v => Some v | None => value end
              | _ => value
              end).
  destruct raw as [[| b | n | x | t | items | members] |]; try discriminate.
  - intros H. injection H as <-. split; [apply str_of_Z_nonempty |].
    apply strip_no_space, str_of_Z_no_space.
  - destruct (is_empty (strip t)) eqn:E; [discriminate |].
    intros H. injection H as <-. split; [| apply strip_idem].
    destruct (strip t); [discriminate | discriminate].
Qed.

(** Witness of X3: a padded string under a [Hash] wrapper. *)
Lemma as_hash_clean_witness :
  "1493290868" <> EmptyString /\ strip "1493290868" = "1493290868".
Proof.
  apply (as_hash_clean (Some (JObj [("Hash", JStr " 1493290868 ")]))). reflexivity.
Defined.

(** X4: a non-negative integer hash, bare or under a [Hash] wrapper, is
    stored as its decimal numeral, and the text lookup by that field reads
    the row of the text map with exactly that address. *)
Theorem integer_hash_lookup h text_map lang n :
  0 <= n ->
  as_hash (Some (JInt n)) = Some (str_of_Z n)
  /\ as_hash (Some (JObj [("Hash", JInt n)])) = Some (str_of_Z n)
  /\ resolve_text_from_key h text_map lang (as_hash (Some (JInt n)))
     = text_map !! (lang, str_of_Z n).
Proof.
  intros Hn. split; [reflexivity |]. split; [reflexivity |].
  destruct (str_of_Z_nonneg n Hn) as (_ & Hd & Hne).
  unfold resolve_text_from_key. cbn [as_hash].
  rewrite (hash_text_key_numeral h _ Hne Hd).
  destruct (str_of_Z n); [congruence | reflexivity].
Qed.

(** Witness of X4. *)
Lemma integer_hash_lookup_witness :
  resolve_text_from_key no_hashers empty_jp_store "CHS" (as_hash (Some (JInt 123)))
  = empty_jp_store !! ("CHS", str_of_Z 123).
Proof.
  destruct (integer_hash_lookup no_hashers empty_jp_store "CHS" 123) as (_ & _ & H);
    [lia | exact H].
Defined.

(** X5: the build-time and the read-time hash extractors agree on every
    value that holds no boolean. *)
Theorem hash_extractors_agree value :
  no_boolean value -> extract_hash_value value = as_hash value.
Proof.
  unfold no_boolean, extract_hash_value, as_hash.
  destruct value as [[| b | n | x | t | items | members] |]; try reflexivity; try tauto.
  destruct (dict_get "Hash" members) as [[| b | n | x | t | items | ms] |];
    try reflexivity; tauto.
Qed.

(** Witness of X5. *)
Lemma hash_extractors_agree_witness :
  extract_hash_value (Some (JObj [("Hash", JInt 371857150)]))
  = as_hash (Some (JObj [("Hash", JInt 371857150)])).
Proof. apply hash_extractors_agree. exact I. Defined.

Lemma to_int_digits s :
  s <> EmptyString -> forallb_str is_digit s = true ->
  to_int (Some (JStr s))
  = (if (Z.of_nat (String.length s) <=? MAX_STR_DIGITS)%Z
     then Some (int_of_digits s) else None)
  /\ to_int (Some (JStr (String "-" s)))
    = (if (Z.of_nat (String.length s) <=? MAX_STR_DIGITS)%Z
       then Some (- int_of_digits s) else None).
Proof.
  intros Hne Hd.
  assert (Hraw : RAW_HASH_RE s = true).
  { unfold RAW_HASH_RE, truthy. rewrite Hd. destruct s; [congruence | reflexivity]. }
  split.
  - unfold to_int. rewrite (strip_digits s Hd), (py_int_digits s Hne Hd).
    assert (Hre : SIGNED_INT_RE s = true).
    { destruct s as [| c r]; [congruence |]. unfold SIGNED_INT_RE.
      simpl in Hd. apply andb_true_iff in Hd as [Hc _].
      rewrite (digit_not_minus c Hc). exact Hraw. }
    rewrite Hre. destruct (Z.of_nat (String.length s) <=? MAX_STR_DIGITS)%Z; reflexivity.
  - unfold to_int.
    assert (Hs : strip (String "-" s) = String "-" s).
    { apply strip_no_space. simpl. revert Hd. apply forallb_str_impl, digit_not_space. }
    rewrite Hs, (py_int_minus_digits s Hne Hd).
    unfold SIGNED_INT_RE. change (Ascii.eqb "-" "-") with true. cbv iota. rewrite Hraw.
    destruct (Z.of_nat (String.length s) <=? MAX_STR_DIGITS)%Z; reflexivity.
Qed.

(** Whitespace is no digit and no sign. *)
Lemma space_not_digit c :
  is_space c = true ->
  is_digit c = false /\ Ascii.eqb c "-" = false /\ Ascii.eqb c "+" = false.
Proof.
  destruct c as [b0 b1 b2 b3 b4 b5 b6 b7].
  destruct b0, b1, b2, b3, b4, b5, b6, b7; intros H;
    try (vm_compute in H; discriminate H); repeat split; reflexivity.
Qed.

(** [int] refuses a text that begins with a character it does not skip and
    that is no digit and no sign. *)
Lemma py_int_bad_head c r :
  is_int_space c = false -> is_digit c = false ->
  Ascii.eqb c "-" = false -> Ascii.eqb c "+" = false ->
  py_int (String c r) = Raise ValueError.
Proof.
  intros Hs Hd Hm Hp. unfold py_int.
  rewrite (lstrip_with_fixed _ _ _ Hs).
  destruct (rstrip_with_keeps_head is_int_space c r Hs) as [t ->].
  rewrite Hm, Hp. cbn [int_body_ok]. rewrite Hd.
  destruct (Ascii.eqb c "_"); reflexivity.
Qed.

(** X6: [to_int] reads back the decimal form of an integer whose absolute
    value is below [10 ^ 4300], and gives no value for the decimal form of
    a larger one, the [ValueError] of the conversion being caught; it keeps
    an integer as it is and refuses a boolean.  A string that begins with
    one of the separators that [strip] removes and [int] does not skip
    (the code points 28 to 31) gives no value, whatever follows; blanks
    around a numeral are skipped. *)
Theorem to_int_round_trip n b :
  to_int (Some (JStr (str_of_Z n)))
  = (if (Z.abs n <? 10 ^ MAX_STR_DIGITS)%Z then Some n else None)
  /\ to_int (Some (JInt n)) = Some n
  /\ to_int (Some (JBool b)) = None
  /\ (forall c rest, is_space c = true -> is_int_space c = false ->
        to_int (Some (JStr (String c rest))) = None)
  /\ to_int (Some (JStr " 12 ")) = Some 12.
Proof.
  split; [| split; [reflexivity | split; [reflexivity | split; [| reflexivity]]]].
  - destruct n as [| p | p]; [reflexivity | |].
    + destruct (str_of_N_spec (Npos p)) as (Hv & Hd & Hne).
      destruct (to_int_digits _ Hne Hd) as [H _].
      change (str_of_Z (Z.pos p)) with (str_of_N (N.pos p)).
      rewrite H, Hv, str_of_N_short. reflexivity.
    + destruct (str_of_N_spec (Npos p)) as (Hv & Hd & Hne).
      destruct (to_int_digits _ Hne Hd) as [_ H].
      change (str_of_Z (Z.neg p)) with (String "-" (str_of_N (N.pos p))).
      rewrite H, Hv, str_of_N_short. reflexivity.
  - intros c rest Hsp Hint. destruct (space_not_digit c Hsp) as (Hd & Hm & Hp).
    unfold to_int. rewrite (py_int_bad_head c rest Hint Hd Hm Hp).
    destruct (SIGNED_INT_RE (strip (String c rest))); reflexivity.
Qed.

(** X7: the digits found by [TALK_SENTENCE_RE] are a non-empty run of
    digits that follows [TalkSentence_] in the string, and the id read from
    the string is their value, which is not negative, unless the run is
    longer than 4300 digits: then reading the id raises [ValueError].
    From [TalkSentence_<n>] the id [n] is read back when [n < 10 ^ 4300],
    and the reading raises otherwise. *)
Theorem talk_sentence_pattern :
  (forall s ds, TALK_SENTENCE_RE s = Some ds ->
     exists before after,
       s = before +:+ "TalkSentence_" +:+ ds +:+ after
       /\ ds <> EmptyString /\ forallb_str is_digit ds = true
       /\ 0 <= int_of_digits ds
       /\ talk_id_from (Some s)
          = if (Z.of_nat (String.length ds) <=? MAX_STR_DIGITS)%Z
            then Ok (Some (int_of_digits ds)) else Raise ValueError)
  /\ (forall n, talk_id_from (Some ("TalkSentence_" +:+ str_of_N n))
                = if (Z.of_N n <? 10 ^ MAX_STR_DIGITS)%Z
                  then Ok (Some (Z.of_N n)) else Raise ValueError).
Proof.
  assert (Hid : forall s ds, TALK_SENTENCE_RE s = Some ds ->
            ds <> EmptyString -> forallb_str is_digit ds = true ->
            talk_id_from (Some s)
            = if (Z.of_nat (String.length ds) <=? MAX_STR_DIGITS)%Z
              then Ok (Some (int_of_digits ds)) else Raise ValueError).
  { intros s ds H Hne Hd. unfold talk_id_from.
    destruct s as [| c r]; [discriminate H |]. cbn [truthy is_empty negb].
    rewrite H, (py_int_digits ds Hne Hd).
    destruct (Z.of_nat (String.length ds) <=? MAX_STR_DIGITS)%Z; reflexivity. }
  assert (Hfound : forall s ds, TALK_SENTENCE_RE s = Some ds ->
            exists before after,
              s = before +:+ "TalkSentence_" +:+ ds +:+ after
              /\ ds <> EmptyString /\ forallb_str is_digit ds = true).
  { intros s. induction s as [| c r IH]; intros n H; [discriminate |].
    cbn [TALK_SENTENCE_RE] in H.
    destruct (startswith "TalkSentence_" (String c r)) eqn:Es.
    + destruct (span is_digit (drop 13 (String c r))) as [ds after] eqn:Ed.
      destruct ds as [| d ds].
      * destruct (IH n H) as (before & after' & -> & Hrest).
        exists (String c before), after'. split; [reflexivity | exact Hrest].
      * injection H as <-.
        exists EmptyString, after.
        pose proof (span_forall _ _ _ _ Ed) as Hd.
        split; [| split; [discriminate | exact Hd]].
        rewrite (span_app _ _ _ _ Ed). apply (startswith_app _ _ Es).
    + destruct (IH n H) as (before & after' & -> & Hrest).
      exists (String c before), after'. split; [reflexivity | exact Hrest]. }
  split.
  - intros s ds H. destruct (Hfound s ds H) as (before & after & Hs & Hne & Hd).
    exists before, after.
    split; [exact Hs | split; [exact Hne | split; [exact Hd | split]]].
    + apply int_of_digits_acc_nonneg; [exact Hd | lia].
    + apply (Hid s ds H Hne Hd).
  - intros n. destruct (str_of_N_spec n) as (Hv & Hd & Hne).
    rewrite <- str_of_N_short, <- Hv. apply Hid; [| exact Hne | exact Hd].
    change ("TalkSentence_" +:+ str_of_N n)
      with (String "T" ("alkSentence_" +:+ str_of_N n)).
    cbn [TALK_SENTENCE_RE].
    change (String "T" ("alkSentence_" +:+ str_of_N n))
      with ("TalkSentence_" +:+ str_of_N n).
    assert (Es : startswith "TalkSentence_" ("TalkSentence_" +:+ str_of_N n) = true)
      by reflexivity.
    rewrite Es.
    change (drop 13 ("TalkSentence_" +:+ str_of_N n)) with (str_of_N n).
    rewrite (span_all _ _ Hd).
    destruct (str_of_N n); [congruence | reflexivity].
Qed.

(** ** More on reference extraction *)

Lemma emit_keys_tracked st r : keys_tracked st -> keys_tracked (emit st r).
Proof.
  intros [Hnd Hseen]. unfold emit.
  destruct (bool_decide (key_of r ∈ seen st)) eqn:E; [split; assumption |].
  apply bool_decide_eq_false in E. split; cbn [rows seen].
  - rewrite map_app. simpl. apply NoDup_app. split; [exact Hnd |].
    split; [| apply NoDup_singleton].
    intros k Hk Hk'. apply list_elem_of_singleton in Hk'. subst k.
    apply E, Hseen, Hk.
  - intros k. rewrite map_app, elem_of_app, elem_of_union, elem_of_singleton.
    simpl. rewrite list_elem_of_singleton, Hseen. tauto.
Qed.

Lemma fold_emit_keys_tracked rs st :
  keys_tracked st -> keys_tracked (fold_left emit_opt rs st).
Proof.
  revert st. induction rs as [| r rs IH]; intros st H; [exact H |].
  simpl. apply IH. destruct r as [r |]; [apply emit_keys_tracked, H | exact H].
Qed.

Lemma extract_as_fold rel_path data :
  extract_reference_rows rel_path data
  = (found_rows ← collect (map (row_by_nearest_tag rel_path) (object_nodes data "$" []));
     Ok (rows (fold_left emit_opt found_rows {| rows := []; seen := ∅ |}))).
Proof.
  unfold extract_reference_rows.
  change (@None string) with (nearest_tag []).
  rewrite walk_nearest_tag. unfold emit_all.
  destruct (collect (map (row_by_nearest_tag rel_path) (object_nodes data "$" [])));
    reflexivity.
Qed.

Lemma collect_elem {A} (rs : list (result A)) l :
  collect rs = Ok l -> forall a, a ∈ l -> Ok a ∈ rs.
Proof.
  revert l. induction rs as [| [a0 | e] rs IH]; intros l H a Ha.
  - injection H as <-. set_solver.
  - cbn [collect mbind result_bind] in H.
    destruct (collect rs) as [l0 | e]; [| discriminate]. injection H as <-.
    apply elem_of_cons in Ha as [-> | Ha]; [left |]. right. exact (IH l0 eq_refl a Ha).
  - discriminate H.
Qed.

Lemma collect_all_ok {A} (rs : list (result A)) :
  (forall r, r ∈ rs -> exists a, r = Ok a) -> exists l, collect rs = Ok l.
Proof.
  induction rs as [| r rs IH]; intros H; [exists []; reflexivity |].
  destruct (H r) as [a ->]; [left |].
  destruct IH as [l Hl]; [intros r' Hr'; apply H; right; exact Hr' |].
  exists (a :: l). cbn [collect mbind result_bind]. rewrite Hl. reflexivity.
Qed.

(** X8: no two rows extracted from one document have the same key
    (json path, type tag and the six reference fields); and the extraction
    returns its rows when the row of no object node raises. *)
Theorem extracted_keys_distinct rel_path data :
  (forall found_rows, extract_reference_rows rel_path data = Ok found_rows ->
     NoDup (map key_of found_rows))
  /\ ((forall n, n ∈ object_nodes data "$" [] ->
         exists row, row_by_nearest_tag rel_path n = Ok row) ->
      exists found_rows, extract_reference_rows rel_path data = Ok found_rows)
  /\ (found_rows ← extract_reference_rows "S/M/1.json" sample_document;
      Ok (length found_rows)) = Ok 4%nat.
Proof.
  split; [| split; [| vm_compute; reflexivity]].
  - intros found_rows H. rewrite extract_as_fold in H.
    destruct (collect _) as [rs |]; [| discriminate]. injection H as <-.
    apply fold_emit_keys_tracked.
    split; [constructor |]. intros k. simpl. set_solver.
  - intros Hall. rewrite extract_as_fold.
    destruct (collect_all_ok
                (map (row_by_nearest_tag rel_path) (object_nodes data "$" []))) as [l Hl].
    + intros r Hr. apply list_elem_of_fmap in Hr as (n & -> & Hn). apply Hall, Hn.
    + rewrite Hl. eexists. reflexivity.
Qed.

Lemma fold_emit_rows (P : reference_row -> Prop) rs st :
  (forall r, r ∈ rows st -> P r) ->
  (forall r, Some r ∈ rs -> P r) ->
  forall r, r ∈ rows (fold_left emit_opt rs st) -> P r.
Proof.
  revert st. induction rs as [| o rs IH]; intros st Hst Hrs; [exact Hst |].
  simpl. apply IH.
  - destruct o as [r0 |]; [| exact Hst]. unfold emit_opt, emit.
    destruct (bool_decide _); [exact Hst |]. cbn [rows].
    intros r Hr. apply elem_of_app in Hr as [Hr | Hr]; [apply Hst, Hr |].
    apply list_elem_of_singleton in Hr. subst r. apply Hrs. set_solver.
  - intros r Hr. apply Hrs. set_solver.
Qed.

Lemma node_row_shape rel_path group members path tag r :
  node_row rel_path group members path tag = Ok (Some r) ->
  source_path r = rel_path /\ ref_group r = group /\ json_path r = path
  /\ task_type r = tag /\ has_reference r.
Proof.
  unfold node_row.
  set (trigger := as_custom (dict_get "TriggerCustomString" members)).
  set (custom := as_custom (dict_get "CustomString" members)).
  destruct (talk_id_of members trigger custom) as [talk | e]; [| discriminate].
  cbn [mbind result_bind].
  set (timeline := as_str (dict_get "TimelineName" members)).
  set (ptype := as_str (dict_get "PerformanceType" members)).
  set (pid := to_int (dict_get "PerformanceID" members)).
  destruct (_ || _) eqn:E; [| discriminate].
  intros H. injection H as <-. cbn. repeat split; try reflexivity.
  unfold has_reference. cbn.
  repeat (apply orb_true_iff in E as [E | E]);
    try apply bool_decide_eq_true in E; tauto.
Qed.

(** X9: every extracted row carries the path of its document, the group
    derived from that path, and at least one reference field. *)
Theorem extracted_rows_shape rel_path data found_rows r :
  extract_reference_rows rel_path data = Ok found_rows ->
  r ∈ found_rows ->
  source_path r = rel_path /\ ref_group r = source_group rel_path /\ has_reference r.
Proof.
  intros H. rewrite extract_as_fold in H.
  destruct (collect _) as [rs |] eqn:Ec; [| discriminate]. injection H as <-.
  revert r. apply fold_emit_rows; [simpl; set_solver |].
  intros r Hr. apply (collect_elem _ _ Ec) in Hr.
  apply list_elem_of_fmap in Hr as ([[path anc] members] & Hrow & _).
  symmetry in Hrow. unfold row_by_nearest_tag in Hrow.
  apply node_row_shape in Hrow. tauto.
Qed.

(** Witness of X9: the first row of the sample scene. *)
Lemma extracted_rows_shape_witness :
  exists found_rows r,
    extract_reference_rows "S/M/1.json" sample_document = Ok found_rows
    /\ r ∈ found_rows
    /\ source_path r = "S/M/1.json" /\ ref_group r = source_group "S/M/1.json"
    /\ has_reference r.
Proof.
  destruct (extract_reference_rows "S/M/1.json" sample_document)
    as [[| r rs] | e] eqn:E.
  - vm_compute in E. discriminate E.
  - exists (r :: rs), r. split; [reflexivity |]. split; [left |].
    apply (extracted_rows_shape "S/M/1.json" sample_document (r :: rs) r E). left.
  - vm_compute in E. discriminate E.
Defined.

(** ** Source groups *)

Lemma replace_char_app a b s t :
  replace_char a b (s +:+ t) = replace_char a b s +:+ replace_char a b t.
Proof.
  induction s as [| c s IH]; [reflexivity |].
  rewrite append_cons. simpl. rewrite IH. reflexivity.
Qed.

Lemma replace_char_idem a b s :
  a <> b -> replace_char a b (replace_char a b s) = replace_char a b s.
Proof.
  intros Hab. induction s as [| c s IH]; [reflexivity |]. simpl. rewrite IH. f_equal.
  destruct (Ascii.eqb_spec c a) as [-> | Hc].
  - destruct (Ascii.eqb_spec b a); [congruence | reflexivity].
  - destruct (Ascii.eqb_spec c a); [congruence | reflexivity].
Qed.

Lemma replace_char_no_separator s :
  no_separator s = true -> replace_char "\" "/" s = s.
Proof.
  unfold no_separator. induction s as [| c s IH]; [reflexivity |]. simpl.
  intros H. apply andb_true_iff in H as [Hc Hs]. rewrite (IH Hs).
  apply andb_true_iff in Hc as [_ Hb]. apply negb_true_iff in Hb.
  rewrite Hb. reflexivity.
Qed.

Lemma split_char_segment s t :
  no_separator s = true ->
  split_char "/" (s +:+ String "/" t) = s :: split_char "/" t.
Proof.
  unfold no_separator. induction s as [| c s IH]; [reflexivity |].
  rewrite append_cons. simpl. intros H. apply andb_true_iff in H as [Hc Hs].
  apply andb_true_iff in Hc as [Hslash _]. apply negb_true_iff in Hslash.
  rewrite Hslash, (IH Hs). reflexivity.
Qed.

Lemma split_char_last s :
  no_separator s = true -> split_char "/" s = [s].
Proof.
  unfold no_separator. induction s as [| c s IH]; [reflexivity |].
  simpl. intros H. apply andb_true_iff in H as [Hc Hs].
  apply andb_true_iff in Hc as [Hslash _]. apply negb_true_iff in Hslash.
  rewrite Hslash, (IH Hs). reflexivity.
Qed.

Lemma split_char_nonempty sep s : split_char sep s <> [].
Proof.
  induction s as [| c s IH]; [discriminate |]. simpl.
  destruct (Ascii.eqb c sep); [discriminate |].
  destruct (split_char sep s); discriminate.
Qed.

(** X10: a document under [Story/<a>/] belongs to the group [Story/<a>], one
    under [Config/Level/<a>/] to [Config/Level/<a>]; backslashes count as
    slashes. *)
Theorem source_group_of_path a rest :
  no_separator a = true ->
  source_group ("Story/" +:+ a +:+ "/" +:+ rest) = "Story/" +:+ a
  /\ source_group ("Config/Level/" +:+ a +:+ "/" +:+ rest) = "Config/Level/" +:+ a
  /\ source_group ("Story\" +:+ a +:+ "\" +:+ rest) = "Story/" +:+ a
  /\ forall path, source_group (replace_char "\" "/" path) = source_group path.
Proof.
  intros Ha.
  assert (Hsplit : forall t,
    split_char "/" (replace_char "\" "/" (a +:+ "/" +:+ t))
    = a :: split_char "/" (replace_char "\" "/" t)).
  { intros t. rewrite replace_char_app, (replace_char_no_separator a Ha).
    change (replace_char "\" "/" ("/" +:+ t)) with (String "/" (replace_char "\" "/" t)).
    apply split_char_segment, Ha. }
  assert (Hsplit' : forall t,
    split_char "/" (replace_char "\" "/" (a +:+ "\" +:+ t))
    = a :: split_char "/" (replace_char "\" "/" t)).
  { intros t. rewrite replace_char_app, (replace_char_no_separator a Ha).
    change (replace_char "\" "/" ("\" +:+ t)) with (String "/" (replace_char "\" "/" t)).
    apply split_char_segment, Ha. }
  split; [| split; [| split]].
  - unfold source_group.
    change ("Story/" +:+ a +:+ "/" +:+ rest) with ("Story" +:+ "/" +:+ (a +:+ "/" +:+ rest)).
    rewrite replace_char_app.
    change (replace_char "\" "/" ("/" +:+ (a +:+ "/" +:+ rest)))
      with (String "/" (replace_char "\" "/" (a +:+ "/" +:+ rest))).
    rewrite (split_char_segment "Story") by reflexivity.
    rewrite Hsplit. reflexivity.
  - unfold source_group.
    change ("Config/Level/" +:+ a +:+ "/" +:+ rest)
      with ("Config" +:+ "/" +:+ ("Level" +:+ "/" +:+ (a +:+ "/" +:+ rest))).
    rewrite replace_char_app.
    change (replace_char "\" "/" ("/" +:+ ("Level" +:+ "/" +:+ (a +:+ "/" +:+ rest))))
      with (String "/" (replace_char "\" "/" ("Level" +:+ "/" +:+ (a +:+ "/" +:+ rest)))).
    rewrite (split_char_segment "Config") by reflexivity.
    rewrite replace_char_app.
    change (replace_char "\" "/" ("/" +:+ (a +:+ "/" +:+ rest)))
      with (String "/" (replace_char "\" "/" (a +:+ "/" +:+ rest))).
    rewrite (split_char_segment "Level") by reflexivity.
    rewrite Hsplit.
    pose proof (split_char_nonempty "/" (replace_char "\" "/" rest)) as Hne.
    destruct (split_char "/" (replace_char "\" "/" rest)); [congruence | reflexivity].
  - unfold source_group.
    change ("Story\" +:+ a +:+ "\" +:+ rest) with ("Story" +:+ "\" +:+ (a +:+ "\" +:+ rest)).
    rewrite replace_char_app.
    change (replace_char "\" "/" ("\" +:+ (a +:+ "\" +:+ rest)))
      with (String "/" (replace_char "\" "/" (a +:+ "\" +:+ rest))).
    rewrite (split_char_segment "Story") by reflexivity.
    rewrite Hsplit'. reflexivity.
  - intros path. unfold source_group. rewrite replace_char_idem by discriminate.
    reflexivity.
Qed.

(** Witness of X10. *)
Lemma source_group_of_path_witness :
  source_group ("Story/" +:+ "Mission" +:+ "/" +:+ "1000101/Act1.json")
  = "Story/" +:+ "Mission".
Proof. apply (source_group_of_path "Mission" "1000101/Act1.json"). reflexivity. Defined.

(** ** More on template rendering *)

Lemma format_num_natural v : exists s, format_num v None true = Ok s.
Proof.
  unfold format_num. destruct (is_integer v) eqn:E.
  - destruct v as [q | s | |]; try discriminate E; eexists; reflexivity.
  - unfold format_fixed. change ((4 <? 0)%Z || (INT_MAX <? 4)%Z) with false.
    eexists. reflexivity.
Qed.

Lemma repl_plain params m index :
  token_index m = Ok index -> group2 m = None -> exists s, repl params m = Ok s.
Proof.
  intros Htok Hg. unfold repl. rewrite Htok. cbn [mbind result_bind].
  destruct (_ || _); [eexists; reflexivity |].
  unfold token_format. rewrite Hg.
  change (lower (strip (default EmptyString None))) with EmptyString.
  cbn [startswith].
  destruct (format_num_natural
              (scaled m (default NaN (params !! Z.to_nat index)))) as [s Hs].
  rewrite Hs. eexists. reflexivity.
Qed.

Lemma long_index_found sgs :
  forallb short_index sgs = false ->
  exists m, Tok m ∈ sgs /\ MAX_STR_DIGITS < index_digits m.
Proof.
  induction sgs as [| sg rest IH]; [discriminate |]. cbn [forallb].
  intros H. apply andb_false_iff in H as [H | H].
  - destruct sg as [c | m]; [discriminate H |]. exists m. split; [left |].
    cbn [short_index] in H. apply Z.leb_gt in H. exact H.
  - destruct (IH H) as (m & Hm & Hl). exists m. split; [right; exact Hm | exact Hl].
Qed.

Lemma render_segments_ok repl sgs :
  (forall m, Tok m ∈ sgs -> exists s, repl m = Ok s) ->
  exists out, render_segments repl sgs = Ok out.
Proof.
  induction sgs as [| sg rest IH]; intros H; [eexists; reflexivity |].
  destruct IH as [tail Ht].
  { intros m Hm. apply H. apply elem_of_cons. right. exact Hm. }
  destruct sg as [c | m]; simpl; rewrite Ht.
  - eexists. reflexivity.
  - destruct (H m) as [s Hs]; [apply elem_of_cons; left; reflexivity |].
    rewrite Hs. eexists. reflexivity.
Qed.

(** X11: a template without an opening bracket, whose token indices are
    written with at most 4300 digits each, is rendered, whatever the
    parameters are: a token without a bracket format cannot make the
    rendering raise but through the conversion of its index.  When an
    index has more digits and there is at least one parameter, the
    rendering raises. *)
Theorem plain_template_renders lib template raw params :
  without_char "[" template = true ->
  parse_param_values lib raw = Ok params ->
  (short_indices template = true -> renders lib template raw)
  /\ (short_indices template = false -> params <> [] ->
      exists e, apply_param_template lib (Some template) raw = Raise e).
Proof.
  intros Hno Hp. split.
  - intros Hshort. unfold renders.
    rewrite (apply_param_template_segments lib template raw params Hp).
    destruct params as [| p ps]; [eexists; reflexivity |].
    destruct (render_segments_ok (repl (p :: ps)) (scan template)) as [out Hout].
    + intros m Hm.
      apply (repl_plain (p :: ps) m (int_of_digits (group1 m) - 1)).
      * rewrite (token_index_scan template m Hm).
        unfold short_indices in Hshort. rewrite forallb_forall in Hshort.
        apply list_elem_of_In in Hm. apply Hshort in Hm. cbn [short_index] in Hm.
        rewrite Hm. reflexivity.
      * apply scan_go_tokens in Hm as (pre & t & rest & Ht & Hre).
        apply (SKILL_PARAM_RE_plain t m rest Hre).
        unfold without_char in *. rewrite Ht, forallb_str_app in Hno.
        apply andb_true_iff in Hno as [_ Hno]. exact Hno.
    + rewrite Hout. eexists. reflexivity.
  - intros Hlong Hne.
    rewrite (apply_param_template_segments lib template raw params Hp).
    destruct params as [| p ps]; [congruence |].
    destruct (long_index_found _ Hlong) as (m & Hm & Hl).
    destruct (render_raises (repl (p :: ps)) (scan template) m ValueError Hm)
      as [e He].
    + apply repl_raises. rewrite (token_index_scan template m Hm).
      destruct (Z.leb_spec (index_digits m) MAX_STR_DIGITS); [lia | reflexivity].
    + exists e. rewrite He. reflexivity.
Qed.

(** Witness of X11: a percentage of an infinite parameter. *)
Lemma plain_template_renders_witness :
  renders no_parsers "Deals #1% of ATK" (JArr [JFloat (Inf false)]).
Proof.
  apply (plain_template_renders no_parsers "Deals #1% of ATK"
           (JArr [JFloat (Inf false)]) [Inf false]); reflexivity.
Defined.

(** X12: a template without a hash sign comes back as it is, whatever the
    parameters are. *)
Theorem hashless_template_unchanged lib template raw params :
  without_char "#" template = true ->
  parse_param_values lib raw = Ok params ->
  apply_param_template lib (Some template) raw = Ok (Some template).
Proof.
  intros Hno Hp.
  rewrite (apply_param_template_segments lib template raw params Hp).
  destruct params as [| p ps]; [reflexivity |].
  rewrite render_unchanged.
  - unfold scan. rewrite (scan_go_text SKILL_PARAM_RE template 0 SKILL_PARAM_RE_app).
    reflexivity.
  - intros m Hm. exfalso.
    apply scan_go_tokens in Hm as (pre & t & rest & Ht & Hre).
    apply SKILL_PARAM_RE_hash in Hre as [r ->].
    unfold without_char in Hno. rewrite Ht, forallb_str_app in Hno.
    apply andb_true_iff in Hno as [_ Hno]. simpl in Hno. discriminate Hno.
Qed.

(** Witness of X12. *)
Lemma hashless_template_unchanged_witness :
  apply_param_template no_parsers (Some "Deals [i]% of ATK") (JArr [JInt 3])
  = Ok (Some "Deals [i]% of ATK").
Proof.
  apply (hashless_template_unchanged no_parsers "Deals [i]% of ATK" (JArr [JInt 3])
           [Fin 3]); reflexivity.
Defined.

(** *** The fixed-point format *)

Lemma length_repeat_char c n : String.length (repeat_char c n) = n.
Proof. induction n as [| n IH]; [reflexivity |]. simpl. rewrite IH. reflexivity. Qed.

Lemma str_take_drop n s : take n s +:+ drop n s = s.
Proof.
  revert s. induction n as [| n IH]; intros s; [destruct s; reflexivity |].
  destruct s as [| c s]; [reflexivity |]. simpl. rewrite append_cons, IH. reflexivity.
Qed.

Lemma length_take n s : (n <= String.length s)%nat -> String.length (take n s) = n.
Proof.
  revert s. induction n as [| n IH]; intros s H; [destruct s; reflexivity |].
  destruct s as [| c s]; simpl in *; [lia |]. rewrite IH by lia. reflexivity.
Qed.

Lemma take_all s : take (String.length s) s = s.
Proof. induction s as [| c s IH]; [reflexivity |]. simpl. rewrite IH. reflexivity. Qed.

Lemma append_empty_r (s : string) : s +:+ EmptyString = s.
Proof. induction s as [| c s IH]; [reflexivity |]. rewrite append_cons, IH. reflexivity. Qed.

Lemma repeat_zero_digits n : forallb_str is_digit (repeat_char "0" n) = true.
Proof. induction n as [| n IH]; [reflexivity |]. simpl. exact IH. Qed.

Lemma int_of_digits_zeros n s :
  int_of_digits (repeat_char "0" n +:+ s) = int_of_digits s.
Proof.
  unfold int_of_digits. induction n as [| n IH]; [reflexivity |].
  simpl repeat_char. rewrite append_cons. cbn [int_of_digits_acc]. exact IH.
Qed.

Lemma length_nonempty s : s <> EmptyString -> (1 <= String.length s)%nat.
Proof. destruct s; [congruence | simpl; lia]. Qed.

Lemma round_half_even_nonneg q : (0 <= q)%Q -> 0 <= round_half_even q.
Proof.
  intros H. rewrite <- (round_half_even_Z 0). apply round_half_even_mono. exact H.
Qed.

Lemma scaled_abs_nonneg q d : 0 <= d -> (0 <= Qabs q * inject_Z (10 ^ d))%Q.
Proof.
  intros Hd. apply Qmult_le_0_compat; [apply Qabs_nonneg |].
  change 0%Q with (inject_Z 0). rewrite <- Zle_Qle. apply Z.pow_nonneg. lia.
Qed.

(** The digits of a scaled value, padded to more than [d] digits and cut
    [d] digits before the end. *)
Lemma padded_digits_split (k : Z) (d : nat) :
  0 <= k ->
  let ds := str_of_N (Z.to_N k) in
  let padded := repeat_char "0" (S d - String.length ds) +:+ ds in
  let n := (String.length padded - d)%nat in
  take n padded <> EmptyString
  /\ forallb_str is_digit (take n padded) = true
  /\ forallb_str is_digit (drop n padded) = true
  /\ String.length (drop n padded) = d
  /\ int_of_digits (take n padded +:+ drop n padded) = k.
Proof.
  intros Hk ds padded n.
  destruct (str_of_N_spec (Z.to_N k)) as (Hval & Hdig & Hne). fold ds in Hval, Hdig, Hne.
  assert (Hlen : (S d <= String.length padded)%nat).
  { unfold padded. rewrite str_length_app, length_repeat_char. lia. }
  assert (Hpd : forallb_str is_digit padded = true).
  { unfold padded. rewrite forallb_str_app, repeat_zero_digits, Hdig. reflexivity. }
  pose proof (str_take_drop n padded) as Htd.
  rewrite <- Htd, forallb_str_app in Hpd. apply andb_true_iff in Hpd as [Hw Hf].
  split; [| split; [exact Hw | split; [exact Hf | split]]].
  - intros He. pose proof (length_take n padded ltac:(unfold n; lia)) as Hl.
    rewrite He in Hl. simpl in Hl. unfold n in Hl. lia.
  - pose proof (f_equal String.length Htd) as Hl.
    rewrite str_length_app, (length_take n padded) in Hl by (unfold n; lia).
    unfold n in Hl |- *. lia.
  - rewrite Htd. unfold padded. rewrite int_of_digits_zeros, Hval.
    apply Z2N.id, Hk.
Qed.



(** X14: for a finite value that is neither negative nor the negative
    zero, the fixed-point format with no places writes what the integer
    format writes: [str(int(round(value)))].  At the negative zero the two
    differ: the fixed-point format writes [-0], the integer format [0]. *)
Theorem zero_places_is_rounding q :
  (0 <= q)%Q ->
  format_num (Fin q) (Some 0) false = (n ← round0 (Fin q); Ok (str_of_Z n))
  /\ format_num NZero (Some 0) false = Ok "-0"
  /\ (n ← round0 NZero; Ok (str_of_Z n)) = Ok "0".
Proof.
  intros Hq. split; [| split; reflexivity].
  unfold format_num, format_fixed, fixed_text.
  change ((0 <? 0)%Z || (INT_MAX <? 0)%Z) with false.
  change (0 <? 0)%Z with false. cbn [mbind result_bind andb round0].
  assert (Hneg : is_neg q = false) by (apply is_neg_false, Hq).
  rewrite Hneg.
  assert (Hk : round_half_even (Qabs q * inject_Z (10 ^ 0)) = round_half_even q).
  { apply round_half_even_eq. rewrite (Qabs_pos q Hq).
    change (inject_Z (10 ^ 0)) with 1%Q. ring. }
  rewrite Hk.
  pose proof (round_half_even_nonneg q Hq) as Hn.
  set (k := round_half_even q) in *.
  assert (Hs : str_of_N (Z.to_N k) = str_of_Z k).
  { destruct k as [| p | p]; [reflexivity | reflexivity | lia]. }
  rewrite Hs.
  destruct (str_of_Z_nonneg k Hn) as (_ & _ & Hne).
  apply length_nonempty in Hne.
  change (Z.to_nat 0) with 0%nat.
  replace (1 - String.length (str_of_Z k))%nat with 0%nat by lia.
  change (repeat_char "0" 0 +:+ str_of_Z k) with (str_of_Z k).
  rewrite Nat.sub_0_r, take_all.
  rewrite append_empty_r. reflexivity.
Qed.

(** Witness of X14: a tie. *)
Lemma zero_places_is_rounding_witness :
  format_num (Fin (5 # 2)) (Some 0) false = (n ← round0 (Fin (5 # 2)); Ok (str_of_Z n))
  /\ format_num NZero (Some 0) false = Ok "-0"
  /\ (n ← round0 NZero; Ok (str_of_Z n)) = Ok "0".
Proof. apply (zero_places_is_rounding (5 # 2)). unfold Qle. simpl. lia. Defined.

(** *** Trimming of trailing zeros *)

Lemma rstrip_with_app p a b :
  rstrip_with p (a +:+ b)
  = match rstrip_with p b with
    | EmptyString => rstrip_with p a
    | String c r => a +:+ String c r
    end.
Proof.
  induction a as [| x a IH].
  - change (EmptyString +:+ b) with b. destruct (rstrip_with p b); reflexivity.
  - rewrite append_cons. cbn [rstrip_with]. rewrite IH.
    destruct (rstrip_with p b) as [| c r]; [reflexivity |].
    destruct a; reflexivity.
Qed.

Lemma rstrip_with_split p s :
  exists t, s = rstrip_with p s +:+ t /\ forallb_str p t = true.
Proof.
  induction s as [| c s (t & Hs & Ht)]; [exists EmptyString; split; reflexivity |].
  cbn [rstrip_with]. destruct (rstrip_with p s) as [| x r] eqn:E.
  - change (EmptyString +:+ t) with t in Hs. subst t.
    destruct (p c) eqn:Pc.
    + exists (String c s). split; [reflexivity |]. simpl. rewrite Pc. exact Ht.
    + exists s. split; [reflexivity | exact Ht].
  - exists t. split; [| exact Ht]. rewrite append_cons, <- Hs. reflexivity.
Qed.

Lemma rstrip_with_digits c s :
  is_digit c = false -> forallb_str is_digit s = true -> rstrip_with (Ascii.eqb c) s = s.
Proof.
  intros Hc Hs. apply rstrip_with_none. revert Hs. apply forallb_str_impl.
  intros x Hx. apply negb_true_iff. destruct (Ascii.eqb_spec c x); [congruence | reflexivity].
Qed.

(** X15: with a positive number of places, trimming removes only zeros at
    the end of the fraction, and the point when no digit of the fraction is
    left; the sign and the integer part are kept as they are. *)
Theorem trimmed_format_keeps_whole q decimals :
  0 < decimals <= INT_MAX ->
  exists whole kept zeros,
    format_num (Fin q) (Some decimals) false
    = Ok ((if is_neg q then "-" else EmptyString) +:+ whole
            +:+ String "." (kept +:+ zeros))
    /\ format_num (Fin q) (Some decimals) true
       = Ok ((if is_neg q then "-" else EmptyString) +:+ whole
               +:+ (if is_empty kept then EmptyString else String "." kept))
    /\ whole <> EmptyString
    /\ forallb_str is_digit whole = true
    /\ forallb_str is_digit kept = true
    /\ forallb_str (Ascii.eqb "0") zeros = true
    /\ rstrip_char "0" kept = kept.
Proof.
  intros [Hlo Hhi].
  assert (Hparts : exists whole frac,
            format_fixed (Fin q) decimals
            = Ok ((if is_neg q then "-" else EmptyString) +:+ whole +:+ String "." frac)
            /\ whole <> EmptyString /\ forallb_str is_digit whole = true
            /\ forallb_str is_digit frac = true).
  { unfold format_fixed, fixed_text.
    destruct (Z.ltb_spec decimals 0); [lia |].
    destruct (Z.ltb_spec INT_MAX decimals); [lia |]. cbn [orb].
    destruct (Z.ltb_spec 0 decimals); [| lia].
    set (k := round_half_even (Qabs q * inject_Z (10 ^ decimals))).
    assert (Hk : 0 <= k) by (apply round_half_even_nonneg, scaled_abs_nonneg; lia).
    destruct (padded_digits_split k (Z.to_nat decimals) Hk) as (Hp1 & Hp2 & Hp3 & _).
    eexists _, _. split; [reflexivity |].
    split; [exact Hp1 |]. split; [exact Hp2 | exact Hp3]. }
  destruct Hparts as (whole & frac & Hout & Hne & Hw & Hf).
  set (sign := if is_neg q then "-" else EmptyString) in *.
  destruct (rstrip_with_split (Ascii.eqb "0") frac) as (zeros & Hfrac & Hz).
  set (kept := rstrip_with (Ascii.eqb "0") frac) in *.
  assert (Hk : forallb_str is_digit kept = true).
  { rewrite Hfrac, forallb_str_app in Hf. apply andb_true_iff in Hf as [Hk _]. exact Hk. }
  exists whole, kept, zeros. unfold format_num. rewrite Hout.
  destruct (Z.ltb_spec 0 decimals); [| lia]. cbn [mbind result_bind andb].
  split; [rewrite <- Hfrac; reflexivity |].
  split; [| split; [exact Hne | split; [exact Hw | split; [exact Hk | split;
    [exact Hz | apply rstrip_with_idem]]]]].
  f_equal. unfold rstrip_char.
  assert (Hwhole : rstrip_with (Ascii.eqb ".") (sign +:+ whole) = sign +:+ whole).
  { rewrite rstrip_with_app, (rstrip_with_digits "." whole eq_refl Hw).
    destruct whole; [congruence | reflexivity]. }
  rewrite <- append_assoc.
  rewrite (rstrip_with_app (Ascii.eqb "0") (sign +:+ whole) (String "." frac)).
  cbn [rstrip_with]. fold kept.
  destruct kept as [| x r] eqn:Ek.
  - change (Ascii.eqb "0" ".") with false. cbv iota.
    rewrite rstrip_with_app. cbn [rstrip_with]. change (Ascii.eqb "." ".") with true.
    cbv iota. rewrite Hwhole, append_empty_r. reflexivity.
  - rewrite rstrip_with_app. cbn [is_empty].
    assert (Hr : rstrip_with (Ascii.eqb ".") (String "." (String x r))
                 = String "." (String x r)).
    { change (String "." (String x r)) with (String "." EmptyString +:+ String x r).
      rewrite rstrip_with_app, (rstrip_with_digits "." (String x r) eq_refl Hk).
      reflexivity. }
    rewrite Hr, append_assoc. reflexivity.
Qed.

(** Witness of X15: 1.50 at two places. *)
Lemma trimmed_format_keeps_whole_witness :
  exists whole kept zeros,
    format_num (Fin (3 # 2)) (Some 2) false
    = Ok ((if is_neg (3 # 2) then "-" else EmptyString) +:+ whole
            +:+ String "." (kept +:+ zeros))
    /\ format_num (Fin (3 # 2)) (Some 2) true
       = Ok ((if is_neg (3 # 2) then "-" else EmptyString) +:+ whole
               +:+ (if is_empty kept then EmptyString else String "." kept))
    /\ whole <> EmptyString
    /\ forallb_str is_digit whole = true
    /\ forallb_str is_digit kept = true
    /\ forallb_str (Ascii.eqb "0") zeros = true
    /\ rstrip_char "0" kept = kept.
Proof. apply (trimmed_format_keeps_whole (3 # 2) 2). unfold INT_MAX. lia. Defined.

(** ** The two level tables *)

Lemma same_float_refl x : same_float x x.
Proof. destruct x as [q | s | |]; simpl; try reflexivity; exact I. Qed.

Lemma rnd64_feq a b : (a == b)%Q -> feq (rnd64 a) (rnd64 b).
Proof.
  intros H. apply fle_antisym; apply rnd64_mono; rewrite H; apply Qle_refl.
Qed.

Lemma rnd64_same a b : (a == b)%Q -> same_float (rnd64 a) (rnd64 b).
Proof.
  intros H. pose proof (rnd64_feq a b H) as F.
  destruct (rnd64 a) as [x | s | |], (rnd64 b) as [y | t | |]; simpl in *; tauto.
Qed.

Lemma is_zero_eq a b : (a == b)%Q -> is_zero a = is_zero b.
Proof.
  intros H. destruct (is_zero a) eqn:Ea, (is_zero b) eqn:Eb; try reflexivity.
  - apply is_zero_true in Ea. apply is_zero_false in Eb. exfalso. apply Eb. lra.
  - apply is_zero_true in Eb. apply is_zero_false in Ea. exfalso. apply Ea. lra.
Qed.

Lemma is_neg_eq a b : (a == b)%Q -> is_neg a = is_neg b.
Proof.
  intros H. destruct (is_neg a) eqn:Ea, (is_neg b) eqn:Eb; try reflexivity.
  - apply is_neg_true in Ea. apply is_neg_false in Eb. exfalso. lra.
  - apply is_neg_true in Eb. apply is_neg_false in Ea. exfalso. lra.
Qed.

(** Two zeros are the same value, whatever their signs. *)
Lemma fzero_same s t : same_float (fzero s) (fzero t).
Proof. destruct s, t; simpl; reflexivity. Qed.

(** Values that are the same are both NaN, the same infinity, or finite
    with equal rationals. *)
Lemma same_float_cases x y :
  same_float x y ->
  (x = NaN /\ y = NaN) \/ (exists s, x = Inf s /\ y = Inf s)
  \/ (finite x /\ finite y /\ (fval x == fval y)%Q).
Proof.
  destruct x as [a | s | |], y as [b | t | |]; simpl; try tauto.
  intros ->. right. left. exists t. tauto.
Qed.

Lemma finite_same x y :
  finite x -> finite y -> (fval x == fval y)%Q -> same_float x y.
Proof. destruct x as [a | s | |], y as [b | t | |]; simpl; tauto. Qed.

(** Among finite values of equal non-zero rationals the sign bits agree. *)
Lemma signbit_eq x y :
  finite x -> finite y -> (fval x == fval y)%Q -> is_zero (fval x) = false ->
  signbit x = signbit y.
Proof.
  destruct x as [a | s | |], y as [b | t | |]; simpl; try tauto; intros _ _ H Hz.
  - apply is_neg_eq, H.
  - apply is_zero_false in Hz. exfalso. apply Hz. lra.
  - discriminate Hz.
Qed.

Lemma fadd_finite_eq x y :
  finite x -> finite y ->
  fadd x y = match x, y with
             | NZero, NZero => NZero
             | _, _ => rnd64 (fval x + fval y)
             end.
Proof. destruct x as [a | s | |], y as [b | t | |]; simpl; tauto || reflexivity. Qed.

Lemma fadd_same a a' b b' :
  same_float a a' -> same_float b b' -> same_float (fadd a b) (fadd a' b').
Proof.
  intros Ha Hb.
  destruct (same_float_cases _ _ Ha) as [[-> ->] | [(s & -> & ->) | (Fa & Fa' & Ea)]];
    [destruct b, b'; exact I | |].
  - destruct (same_float_cases _ _ Hb) as [[-> ->] | [(t & -> & ->) | (Fb & Fb' & Eb)]].
    + exact I.
    + apply same_float_refl.
    + destruct b as [y | t | |], b' as [y' | t' | |]; simpl in Fb, Fb'; try tauto;
        apply same_float_refl.
  - destruct (same_float_cases _ _ Hb) as [[-> ->] | [(t & -> & ->) | (Fb & Fb' & Eb)]].
    + destruct a, a'; exact I.
    + rewrite !fadd_inf_r by assumption. apply same_float_refl.
    + assert (H : same_float (rnd64 (fval a + fval b)) (rnd64 (fval a' + fval b')))
        by (apply rnd64_same; rewrite Ea, Eb; reflexivity).
      rewrite !fadd_finite_eq by assumption.
      destruct a as [x | s | |], b as [y | t | |]; simpl in Fa, Fb; try tauto;
      destruct a' as [x' | s' | |], b' as [y' | t' | |]; simpl in Fa', Fb'; try tauto;
        cbn [fval] in *; first [exact H | exact I].
Qed.

Lemma fmul_finite_eq x y :
  finite x -> finite y ->
  fmul x y = if is_zero (fval x * fval y)
             then fzero (xorb (signbit x) (signbit y))
             else rnd64 (fval x * fval y).
Proof. destruct x as [a | s | |], y as [b | t | |]; simpl; tauto || reflexivity. Qed.

Lemma fmul_inf_l s y :
  finite y -> fmul (Inf s) y = if is_zero (fval y) then NaN else Inf (xorb s (signbit y)).
Proof. destruct y as [b | t | |]; simpl; tauto || reflexivity. Qed.

Lemma fmul_inf_r x t :
  finite x -> fmul x (Inf t) = if is_zero (fval x) then NaN else Inf (xorb t (signbit x)).
Proof. destruct x as [a | s | |]; simpl; tauto || reflexivity. Qed.

Lemma fmul_same a a' b b' :
  same_float a a' -> same_float b b' -> same_float (fmul a b) (fmul a' b').
Proof.
  intros Ha Hb.
  destruct (same_float_cases _ _ Ha) as [[-> ->] | [(s & -> & ->) | (Fa & Fa' & Ea)]];
    [destruct b, b'; exact I | |].
  - destruct (same_float_cases _ _ Hb) as [[-> ->] | [(t & -> & ->) | (Fb & Fb' & Eb)]].
    + exact I.
    + apply same_float_refl.
    + rewrite !fmul_inf_l by assumption. rewrite <- (is_zero_eq _ _ Eb).
      destruct (is_zero (fval b)) eqn:Ez; [exact I |].
      rewrite (signbit_eq b b' Fb Fb' Eb Ez). apply same_float_refl.
  - destruct (same_float_cases _ _ Hb) as [[-> ->] | [(t & -> & ->) | (Fb & Fb' & Eb)]].
    + destruct a, a'; exact I.
    + rewrite !fmul_inf_r by assumption. rewrite <- (is_zero_eq _ _ Ea).
      destruct (is_zero (fval a)) eqn:Ez; [exact I |].
      rewrite (signbit_eq a a' Fa Fa' Ea Ez). apply same_float_refl.
    + rewrite !fmul_finite_eq by assumption.
      assert (Ep : (fval a * fval b == fval a' * fval b')%Q) by (rewrite Ea, Eb; reflexivity).
      rewrite <- (is_zero_eq _ _ Ep).
      destruct (is_zero (fval a * fval b)); [apply fzero_same | apply rnd64_same, Ep].
Qed.

Lemma round_nd_same x y : same_float x y -> same_float (round_nd 4 x) (round_nd 4 y).
Proof.
  intros H.
  destruct (same_float_cases _ _ H) as [[-> ->] | [(s & -> & ->) | (Fx & Fy & E)]];
    [exact I | apply same_float_refl |].
  assert (Hk : forall q, (q == 0)%Q -> round_half_even (q * inject_Z (10 ^ 4)) = 0).
  { intros q Hq. rewrite (round_half_even_eq _ (inject_Z 0)); [apply round_half_even_Z |].
    rewrite Hq. reflexivity. }
  destruct x as [a | s | |], y as [b | t | |]; simpl in Fx, Fy; try tauto;
    cbn [fval] in E; cbn [round_nd].
  - rewrite (round_half_even_eq (a * inject_Z (10 ^ 4)) (b * inject_Z (10 ^ 4)))
      by (rewrite E; reflexivity).
    destruct (_ =? 0)%Z; [apply fzero_same | apply same_float_refl].
  - rewrite (Hk a E). apply (fzero_same _ true).
  - rewrite (Hk b) by (symmetry; exact E). apply (fzero_same true).
Qed.

Lemma float_or_zero_same x : same_float (float_or_zero (Some x)) x.
Proof.
  destruct x as [q | s | |]; simpl; try reflexivity; try exact I.
  destruct (is_zero q) eqn:E; simpl; [| apply Qeq_refl].
  apply is_zero_true in E. lra.
Qed.

Lemma worker_row_same stage level :
  complete stage -> same_stats (worker_row stage level) (stats_row stage level).
Proof.
  intros ([pr Hpr] & [hb Hhb] & [ha Hha] & [ab Hab] & [aa Haa]
          & [db Hdb] & [da Hda] & [sp Hsp]).
  unfold same_stats, worker_row, stats_row, stat_at_level, same_stat.
  cbn [w_level w_promotion w_hp w_attack w_defence w_speed
       row_level row_promotion row_hp row_attack row_defence row_speed].
  rewrite Hpr, Hhb, Hha, Hab, Haa, Hdb, Hda, Hsp.
  split; [reflexivity |]. split; [reflexivity |].
  repeat split;
    repeat first [ apply round_nd_same | apply fadd_same | apply fmul_same
                 | apply float_or_zero_same | apply same_float_refl ].
Qed.

Lemma valid_has_max_level promotions p :
  p ∈ sort_by_key level_key (List.filter has_max_level promotions) ->
  p ∈ promotions /\ has_max_level p = true.
Proof.
  rewrite sort_by_key_perm. intros H. apply list_elem_of_In in H.
  apply filter_In in H as [H1 H2]. split; [apply list_elem_of_In, H1 | exact H2].
Qed.

(** X16: when every breakpoint with a ceiling has all its fields, the
    worker's level table is the server's, row by row: equal level and
    promotion, and numerically equal hp, attack, defence and speed. *)
Theorem worker_table_agrees promotions level_max :
  (forall p, p ∈ promotions -> has_max_level p = true -> complete p) ->
  Forall2 same_stats (build_level_stats promotions level_max)
                     (build_avatar_level_stats promotions level_max).
Proof.
  intros Hc. unfold build_level_stats, build_avatar_level_stats.
  destruct (sort_by_key level_key (List.filter has_max_level promotions))
    as [| first rest] eqn:Hv; [constructor |].
  set (valid := first :: rest) in *.
  assert (Hfinal : List.last valid first ∈ valid) by (apply last_in; discriminate).
  apply Forall2_fmap, Forall2_same_length_lookup. split; [reflexivity |].
  intros i l l' Hl Hl'. rewrite Hl in Hl'. injection Hl' as <-.
  apply worker_row_same.
  pose proof (pick_stage_in valid (List.last valid first) l Hfinal) as Hin.
  assert (Hin' : pick_stage valid (List.last valid first) l
                 ∈ sort_by_key level_key (List.filter has_max_level promotions))
    by (rewrite Hv; exact Hin).
  apply valid_has_max_level in Hin' as [H1 H2].
  apply Hc; assumption.
Qed.

(** Witness of X16. *)
Lemma worker_table_agrees_witness :
  Forall2 same_stats (build_level_stats rising_promotions 3)
                     (build_avatar_level_stats rising_promotions 3).
Proof.
  apply (worker_table_agrees rising_promotions 3).
  intros p Hp _. unfold rising_promotions in Hp.
  apply elem_of_cons in Hp as [-> | Hp];
    [| apply list_elem_of_singleton in Hp; subst p];
    unfold complete, breakpoint; simpl; repeat split; eexists; reflexivity.
Defined.

(** *** Order of the breakpoints *)

Lemma key_injective {A : Type} (key : A -> Z) (l : list A) x y :
  NoDup (map key l) -> x ∈ l -> y ∈ l -> key x = key y -> x = y.
Proof.
  induction l as [| z l IH]; [set_solver |].
  simpl. intros Hnd Hx Hy Hk. apply NoDup_cons in Hnd as [Hz Hnd].
  apply elem_of_cons in Hx as [-> | Hx]; apply elem_of_cons in Hy as [-> | Hy].
  - reflexivity.
  - exfalso. apply Hz. rewrite Hk. apply list_elem_of_fmap. exists y. split; [reflexivity | exact Hy].
  - exfalso. apply Hz. rewrite <- Hk. apply list_elem_of_fmap. exists x. split; [reflexivity | exact Hx].
  - apply IH; assumption.
Qed.

Lemma sorted_perm_unique {A : Type} (key : A -> Z) (l l' : list A) :
  StronglySorted (le_key key) l -> StronglySorted (le_key key) l' ->
  l ≡ₚ l' -> NoDup (map key l) -> l = l'.
Proof.
  intros Hs. revert l'. induction Hs as [| x t Hs IH Hx]; intros l' Hs' Hp Hnd.
  - apply Permutation_nil in Hp. congruence.
  - destruct Hs' as [| y t' Hs' Hy].
    { symmetry in Hp. apply Permutation_nil in Hp. discriminate. }
    assert (Hxy : x = y).
    { assert (Hyin : y ∈ x :: t) by (rewrite Hp; left).
      assert (Hxin : x ∈ y :: t') by (rewrite <- Hp; left).
      apply (key_injective key (x :: t)); [exact Hnd | left | exact Hyin |].
      apply Z.le_antisymm.
      - apply elem_of_cons in Hyin as [-> | Hyin]; [lia |].
        rewrite List.Forall_forall in Hx. apply Hx, list_elem_of_In, Hyin.
      - apply elem_of_cons in Hxin as [-> | Hxin]; [lia |].
        rewrite List.Forall_forall in Hy. apply Hy, list_elem_of_In, Hxin. }
    subst y. f_equal. apply IH; [exact Hs' | |].
    + apply (Permutation_cons_inv Hp).
    + simpl in Hnd. apply NoDup_cons in Hnd as [_ Hnd]. exact Hnd.
Qed.

Lemma filter_perm {A : Type} (f : A -> bool) (l l' : list A) :
  l ≡ₚ l' -> List.filter f l ≡ₚ List.filter f l'.
Proof.
  induction 1 as [| x l l' _ IH | x y l | l l' l'' _ IH1 _ IH2]; simpl.
  - reflexivity.
  - destruct (f x); [constructor |]; exact IH.
  - destruct (f x), (f y); try reflexivity. apply perm_swap.
  - etransitivity; eassumption.
Qed.

(** X17: when the ceilings of the breakpoints are pairwise different, the
    level table does not depend on the order in which the breakpoints are
    given. *)
Theorem level_table_order_free promotions promotions' level_max :
  promotions ≡ₚ promotions' ->
  NoDup (map level_key (List.filter has_max_level promotions)) ->
  build_avatar_level_stats promotions' level_max
  = build_avatar_level_stats promotions level_max.
Proof.
  intros Hp Hnd. unfold build_avatar_level_stats.
  assert (Hv : sort_by_key level_key (List.filter has_max_level promotions)
               = sort_by_key level_key (List.filter has_max_level promotions')).
  { apply (sorted_perm_unique level_key); try apply sort_by_key_sorted.
    - rewrite !sort_by_key_perm. apply filter_perm, Hp.
    - rewrite (fmap_Permutation level_key _ _ (sort_by_key_perm level_key _)).
      exact Hnd. }
  rewrite Hv. reflexivity.
Qed.

(** Witness of X17: the two stages given in reverse order. *)
Lemma level_table_order_free_witness :
  build_avatar_level_stats (rev rising_promotions) 3
  = build_avatar_level_stats rising_promotions 3.
Proof.
  apply (level_table_order_free rising_promotions (rev rising_promotions) 3).
  - apply Permutation_rev.
  - unfold rising_promotions, breakpoint. simpl. unfold level_key. simpl.
    apply NoDup_cons. split; [| apply NoDup_singleton].
    intros H. apply list_elem_of_singleton in H. discriminate H.
Defined.

(** ** More on the module closure *)

Lemma add_hash_if_any_spec h out raw a :
  a ∈ add_hash_if_any h out raw
  <-> a ∈ out \/ exists r, raw = Some r /\ hash_text_key h r = Some a.
Proof.
  unfold add_hash_if_any. destruct raw as [r |].
  2: { split; [tauto | intros [H | (r & Hr & _)]; [exact H | discriminate]]. }
  destruct (is_empty r) eqn:Er.
  { destruct r; [| discriminate]. split; [tauto |].
    intros [H | (r & Hr & Hk)]; [exact H |]. injection Hr as <-. discriminate Hk. }
  destruct (hash_text_key h r) as [address |] eqn:Ek.
  2: { split; [tauto |]. intros [H | (r' & Hr & Hk)]; [exact H |].
       injection Hr as <-. congruence. }
  destruct (hash_text_key_digits h r address Ek) as [Hne _].
  destruct address as [| c t]; [congruence |]. cbn [is_empty].
  rewrite elem_of_union, elem_of_singleton. split.
  - intros [-> | H]; [right; exists r; split; [reflexivity | exact Ek] | left; exact H].
  - intros [H | (r' & Hr & Hk)]; [right; exact H |].
    injection Hr as <-. left. congruence.
Qed.

Lemma add_hashes_spec h raws out a :
  a ∈ add_hashes h out raws
  <-> a ∈ out \/ exists r, Some r ∈ raws /\ hash_text_key h r = Some a.
Proof.
  unfold add_hashes. revert out. induction raws as [| raw raws IH]; intros out; simpl.
  - split; [tauto | intros [H | (r & Hr & _)]; [exact H | set_solver]].
  - rewrite IH, add_hash_if_any_spec. split.
    + intros [[H | (r & -> & Hk)] | (r & Hr & Hk)].
      * left. exact H.
      * right. exists r. split; [left | exact Hk].
      * right. exists r. split; [right; exact Hr | exact Hk].
    + intros [H | (r & Hr & Hk)]; [tauto |].
      apply elem_of_cons in Hr as [<- | Hr].
      * left. right. exists r. split; [reflexivity | exact Hk].
      * right. exists r. split; [exact Hr | exact Hk].
Qed.

Lemma fold_add_hashes_spec {R : Type} h (keys : R -> list (option string)) rows out a :
  a ∈ fold_left (fun out row => add_hashes h out (keys row)) rows out
  <-> a ∈ out \/ exists row r, row ∈ rows /\ Some r ∈ keys row /\ hash_text_key h r = Some a.
Proof.
  revert out. induction rows as [| row rows IH]; intros out; simpl.
  - split; [tauto | intros [H | (row & r & Hr & _)]; [exact H | set_solver]].
  - rewrite IH, add_hashes_spec. split.
    + intros [[H | (r & Hr & Hk)] | (row' & r & Hrow & Hr & Hk)].
      * left. exact H.
      * right. exists row, r. split; [left | tauto].
      * right. exists row', r. split; [right; exact Hrow | tauto].
    + intros [H | (row' & r & Hrow & Hr & Hk)]; [tauto |].
      apply elem_of_cons in Hrow as [-> | Hrow].
      * left. right. exists r. tauto.
      * right. exists row', r. tauto.
Qed.

Lemma add_hashes_from_sql_spec {R : Type} (col : R -> option string) table needed a :
  a ∈ add_hashes_from_sql needed col table
  <-> a ∈ needed \/ exists r, r ∈ table /\ is_address (col r) a.
Proof.
  unfold add_hashes_from_sql, is_address. revert needed.
  induction table as [| r table IH]; intros needed; simpl.
  - split; [tauto | intros [H | (r & Hr & _)]; [exact H | set_solver]].
  - rewrite IH. split.
    + intros [H | (r' & Hr & Hc)]; [| right; exists r'; split; [right; exact Hr | exact Hc]].
      destruct (col r) as [v |] eqn:Ec; [| left; exact H].
      destruct v as [| c t]; [left; exact H |]. cbn [is_empty] in H.
      apply elem_of_union in H as [H | H]; [| left; exact H].
      apply elem_of_singleton in H. subst a. right. exists r.
      split; [left |]. split; [exact Ec | discriminate].
    + intros [H | (r' & Hr & Hc & Hne)].
      * left. destruct (col r) as [v |]; [| exact H].
        destruct (is_empty v); [exact H | apply elem_of_union; right; exact H].
      * apply elem_of_cons in Hr as [-> | Hr]; [| right; exists r'; tauto].
        left. rewrite Hc. destruct a as [| c t]; [congruence |]. cbn [is_empty].
        apply elem_of_union. left. apply elem_of_singleton. reflexivity.
Qed.

Lemma add_hashes_from_iter_spec needed extra a :
  a ∈ add_hashes_from_iter needed extra
  <-> a ∈ needed \/ (a ∈ extra /\ a <> EmptyString).
Proof.
  unfold add_hashes_from_iter. rewrite elem_of_union, elem_of_filter.
  assert (He : is_empty a = false <-> a <> EmptyString)
    by (destruct a; cbn [is_empty]; split; congruence).
  tauto.
Qed.

(** X18: every needed address of every module is a non-empty string. *)
Theorem closure_has_no_empty_address lib h src res m a :
  a ∈ module_closure lib h src res m -> truthy a = true.
Proof.
  destruct a as [| c t]; [intros H; exfalso; revert H | reflexivity].
  unfold module_closure.
  destruct (gather_module_hashes lib h (copy_module_tables src m) res m ∅)
    as [needed extra] eqn:E.
  rewrite add_hashes_from_iter_spec. intros [H | [_ H]]; [| congruence].
  assert (Hsql : forall (R : Type) (col : R -> option string) table n,
            EmptyString ∉ n -> EmptyString ∉ add_hashes_from_sql n col table).
  { intros R col table n Hn. rewrite add_hashes_from_sql_spec.
    intros [Hin | (r & _ & _ & Hne)]; [exact (Hn Hin) | congruence]. }
  assert (H0 : EmptyString ∉ (∅ : gset string)) by set_solver.
  destruct m; cbn [gather_module_hashes] in E; injection E as <- _; revert H;
    repeat apply Hsql; exact H0.
Qed.

(** Witness of X18: the address of the name of the sample eidolon row. *)
Lemma closure_has_no_empty_address_witness : truthy "42" = true.
Proof.
  apply (closure_has_no_empty_address no_parsers constant_hasher one_rank_db
           no_resources Avatar "42").
  vm_compute. set_solver.
Defined.

Lemma numeral_address h r a : hash_text_key h r = Some a -> numeral a.
Proof. apply hash_text_key_digits. Qed.

(** X19: every address [gather_module_hashes] returns, for any module, is a
    non-empty decimal numeral that resolves to itself. *)
Theorem returned_addresses_are_numerals lib h db res m needed a :
  a ∈ snd (gather_module_hashes lib h db res m needed) ->
  numeral a /\ hash_text_key h a = Some a.
Proof.
  intros H.
  assert (Hn : numeral a);
    [| split; [exact Hn | destruct Hn; apply hash_text_key_numeral; assumption]].
  assert (E0 : a ∉ (∅ : gset string)) by set_solver.
  destruct m; cbn [gather_module_hashes snd] in H.
  - destruct (avatar_story_index res) as [[stories names] |].
    + apply add_hashes_spec in H as [H | (r & _ & Hk)]; [| exact (numeral_address _ _ _ Hk)].
      apply add_hashes_spec in H as [H | (r & _ & Hk)]; [| exact (numeral_address _ _ _ Hk)].
      apply fold_add_hashes_spec in H as [H | (row & r & _ & _ & Hk)];
        [tauto | exact (numeral_address _ _ _ Hk)].
    + apply fold_add_hashes_spec in H as [H | (row & r & _ & _ & Hk)];
        [tauto | exact (numeral_address _ _ _ Hk)].
  - tauto.
  - tauto.
  - destruct (light_cone_index res) as [lc |]; [| tauto].
    apply add_hashes_spec in H as [H | (r & _ & Hk)];
      [tauto | exact (numeral_address _ _ _ Hk)].
  - destruct (monster_index res) as [[items skills] |]; [| tauto].
    apply (fold_add_hashes_spec h
             (fun sk => [mskill_name_hash sk; mskill_desc_hash sk;
                         mskill_type_desc_hash sk; mskill_tag_hash sk]))
      in H as [H | (row & r & _ & _ & Hk)]; [| exact (numeral_address _ _ _ Hk)].
    apply (fold_add_hashes_spec h
             (fun it => [monster_name_hash it; monster_introduction_hash it]
                          ++ map Some (ability_name_keys it)))
      in H as [H | (row & r & _ & _ & Hk)];
      [tauto | exact (numeral_address _ _ _ Hk)].
Qed.

(** Witness of X19: the name key of an eidolon row with the in-process
    hasher. *)
Lemma returned_addresses_are_numerals_witness :
  numeral "42" /\ hash_text_key constant_hasher "42" = Some "42".
Proof.
  apply (returned_addresses_are_numerals no_parsers constant_hasher
           one_rank_db no_resources Avatar ∅ "42").
  vm_compute. set_solver.
Defined.

(** X20: the hash columns of the tables of the dialogue, mission and item
    modules are in the closure of their module. *)
Theorem module_columns_in_closure lib h src res a :
  (forall r, r ∈ talk_sentence src ->
     is_address (talk_speaker_hash r) a \/ is_address (talk_text_hash r) a ->
     a ∈ module_closure lib h src res Dialogue)
  /\ (forall r, r ∈ main_mission src -> is_address (mission_name_hash r) a ->
        a ∈ module_closure lib h src res Mission)
  /\ (forall r, r ∈ sub_mission src ->
        is_address (sub_target_hash r) a \/ is_address (sub_description_hash r) a ->
        a ∈ module_closure lib h src res Mission)
  /\ (forall r, r ∈ item src ->
        is_address (item_name_hash r) a \/ is_address (item_desc_hash r) a
        \/ is_address (item_bg_desc_hash r) a ->
        a ∈ module_closure lib h src res Item).
Proof.
  unfold module_closure.
  split; [| split; [| split]]; intros r Hr Ha;
    cbn [copy_module_tables gather_module_hashes talk_sentence main_mission
         sub_mission item];
    apply add_hashes_from_iter_spec; left;
    rewrite !add_hashes_from_sql_spec; eauto 10.
  - destruct Ha as [Ha | Ha]; eauto 10.
  - destruct Ha as [Ha | Ha]; eauto 10.
  - destruct Ha as [Ha | [Ha | Ha]]; eauto 10.
Qed.

(** X21: the address of every raw key of an eidolon row (its name, its
    description and the string entries of its ability list) is in the
    closure of the avatar module. *)
Theorem rank_keys_in_closure lib h src res row key a :
  row ∈ avatar_rank src ->
  Some key ∈ rank_raw_keys lib row ->
  hash_text_key h key = Some a ->
  a ∈ module_closure lib h src res Avatar.
Proof.
  intros Hrow Hkey Hk. unfold module_closure.
  cbn [copy_module_tables gather_module_hashes avatar avatar_skill avatar_rank].
  apply add_hashes_from_iter_spec. right.
  split; [| apply (hash_text_key_digits h key a Hk)].
  assert (H1 : a ∈ fold_left
                 (fun out row => add_hashes h out (rank_raw_keys lib row))
                 (avatar_rank src) ∅).
  { apply fold_add_hashes_spec. right. exists row, key. tauto. }
  unfold rank_raw_keys in H1.
  destruct (avatar_story_index res) as [[stories names] |]; [| exact H1].
  apply add_hashes_spec. left. apply add_hashes_spec. left. exact H1.
Qed.

(** Witness of X21: the name key of the sample eidolon row. *)
Lemma rank_keys_in_closure_witness :
  "42" ∈ module_closure no_parsers constant_hasher one_rank_db no_resources Avatar.
Proof.
  apply (rank_keys_in_closure no_parsers constant_hasher one_rank_db no_resources
           {| rank_id := 100101; rank_trigger_hash := Some "7100101";
              rank_name_raw := Some "AvatarRankName_100101";
              rank_desc_raw := Some "AvatarRankDesc_100101";
              rank_ability_json := Some "[]" |}
           "AvatarRankName_100101" "42").
  - unfold one_rank_db. simpl. left.
  - unfold rank_raw_keys. simpl. left.
  - reflexivity.
Defined.

(** *** The projected text map *)

Lemma copy_text_map_lookup text_map needed langs lang a :
  lang ∈ langs -> a ∈ needed ->
  copy_text_map_for_hashes text_map needed langs !! (lang, a) = text_map !! (lang, a).
Proof.
  intros Hl Ha. unfold copy_text_map_for_hashes.
  destruct (text_map !! (lang, a)) as [t |] eqn:E.
  - apply map_lookup_filter_Some. split; [exact E | split; assumption].
  - apply map_lookup_filter_None. left. exact E.
Qed.

Lemma resolve_text_projected h text_map needed langs lang key :
  lang ∈ langs ->
  (forall a, hash_text_key h key = Some a -> a ∈ needed) ->
  resolve_text_from_key h (copy_text_map_for_hashes text_map needed langs) lang (Some key)
  = resolve_text_from_key h text_map lang (Some key).
Proof.
  intros Hl Hn. unfold resolve_text_from_key.
  destruct (is_empty key); [reflexivity |].
  destruct (hash_text_key h key) as [a |] eqn:E; [| reflexivity].
  destruct (is_empty a); [reflexivity |].
  apply copy_text_map_lookup; [exact Hl | apply Hn; reflexivity].
Qed.

(** X22: a module database built for languages that include the requested
    one, CHS and EN answers a text lookup with fallback as the source
    database does, for every key whose address is needed. *)
Theorem module_text_lookup h text_map needed langs lang key fallback :
  lang ∈ langs -> "CHS" ∈ langs -> "EN" ∈ langs ->
  (forall a, hash_text_key h key = Some a -> a ∈ needed) ->
  resolve_text_with_fallback h (copy_text_map_for_hashes text_map needed langs)
    lang (Some key) fallback
  = resolve_text_with_fallback h text_map lang (Some key) fallback.
Proof.
  intros Hl Hc He Hn. unfold resolve_text_with_fallback.
  rewrite !resolve_text_projected by assumption. reflexivity.
Qed.

(** Witness of X22. *)
Lemma module_text_lookup_witness :
  resolve_text_with_fallback no_hashers
    (copy_text_map_for_hashes empty_jp_store {[ "123" ]} ["JP"; "CHS"; "EN"])
    "JP" (Some "123") None
  = resolve_text_with_fallback no_hashers empty_jp_store "JP" (Some "123") None.
Proof.
  apply (module_text_lookup no_hashers empty_jp_store {[ "123" ]} ["JP"; "CHS"; "EN"]
           "JP" "123" None).
  - left.
  - right. left.
  - right. right. left.
  - intros a Ha. vm_compute in Ha. injection Ha as <-. apply elem_of_singleton. reflexivity.
Defined.

(** ** The text map table *)

Lemma assoc_get_in {V : Type} (items : list (string * V)) k v :
  dict_like items -> ((k, v) ∈ items <-> assoc_get k items = Some v).
Proof.
  unfold dict_like. induction items as [| [k' v'] items IH]; simpl; intros Hnd.
  - split; [intros H; inversion H | discriminate].
  - apply NoDup_cons in Hnd as [Hk Hnd]. specialize (IH Hnd).
    destruct (String.eqb_spec k' k) as [-> | Hne].
    + split.
      * intros H. apply elem_of_cons in H as [H | H]; [congruence |].
        exfalso. apply Hk. apply list_elem_of_fmap. exists (k, v). split; [reflexivity | exact H].
      * intros H. injection H as ->. left.
    + rewrite <- IH. split.
      * intros H. apply elem_of_cons in H as [H | H]; [congruence | exact H].
      * intros H. right. exact H.
Qed.

Lemma assoc_get_none {V : Type} (items : list (string * V)) k :
  assoc_get k items = None <-> k ∉ map fst items.
Proof.
  induction items as [| [k' v'] items IH]; simpl.
  - split; [intros _ H; inversion H | reflexivity].
  - destruct (String.eqb_spec k' k) as [-> | Hne].
    + split; [discriminate | intros H; exfalso; apply H; left].
    + rewrite IH. split.
      * intros H H'. apply elem_of_cons in H' as [H' | H']; [congruence | exact (H H')].
      * intros H H'. apply H. right. exact H'.
Qed.

Lemma text_rows_in lang_maps lang k v :
  (lang, k, v) ∈ text_rows lang_maps
  <-> exists m, (lang, m) ∈ lang_maps /\ (k, v) ∈ m.
Proof.
  unfold text_rows. rewrite list_elem_of_In, in_flat_map. split.
  - intros ([l m] & Hlm & Hrow). apply in_map_iff in Hrow as ([k' v'] & E & Hkv).
    simpl in E. injection E as -> -> ->. exists m.
    split; apply list_elem_of_In; assumption.
  - intros (m & Hlm & Hkv). exists (lang, m). split; [apply list_elem_of_In, Hlm |].
    apply in_map_iff. exists (k, v). split; [reflexivity | apply list_elem_of_In, Hkv].
Qed.

Lemma text_rows_keys lang_maps :
  text_maps_like lang_maps -> NoDup (map fst (text_rows lang_maps)).
Proof.
  unfold text_maps_like, dict_like, text_rows.
  induction lang_maps as [| [l m] rest IH]; intros [Hnd Hin]; [constructor |].
  simpl in Hnd. apply NoDup_cons in Hnd as [Hl Hnd].
  simpl. rewrite map_app. apply NoDup_app. split; [| split].
  - rewrite map_map. simpl.
    assert (Hm : NoDup (map fst m)) by (apply (Hin l); left).
    clear -Hm. induction m as [| [k v] m IHm]; [constructor |].
    simpl in *. apply NoDup_cons in Hm as [Hk Hm]. apply NoDup_cons.
    split; [| apply IHm, Hm]. intros H. apply Hk.
    apply list_elem_of_fmap in H as ([k' v'] & E & H). simpl in E. injection E as <-.
    apply list_elem_of_fmap. exists (k, v'). split; [reflexivity | exact H].
  - intros [l' k] H1 H2.
    apply list_elem_of_fmap in H1 as ([[l1 k1] v1] & E1 & H1). simpl in E1.
    injection E1 as <- <-.
    apply list_elem_of_fmap in H1 as ([k0 v0] & E0 & _). simpl in E0.
    injection E0 as -> _ _.
    apply list_elem_of_fmap in H2 as ([[l2 k2] v2] & E2 & H2). simpl in E2.
    injection E2 as <- <-.
    apply (text_rows_in rest) in H2 as (m' & Hm' & _).
    apply Hl. apply list_elem_of_fmap. exists (l, m'). split; [reflexivity | exact Hm'].
  - apply IH. split; [exact Hnd |]. intros l' m' H. apply (Hin l'). right. exact H.
Qed.

Lemma fold_upsert_other rows text_map key :
  key ∉ map fst rows -> fold_left upsert_text rows text_map !! key = text_map !! key.
Proof.
  revert text_map. induction rows as [| [[l k] v] rows IH]; intros text_map Hk; [reflexivity |].
  simpl in *. rewrite IH by (intros H; apply Hk; right; exact H).
  unfold upsert_text. simpl. apply lookup_insert_ne.
  intros <-. apply Hk. left.
Qed.

Lemma fold_upsert_row rows text_map l k v :
  NoDup (map fst rows) -> (l, k, v) ∈ rows ->
  fold_left upsert_text rows text_map !! (l, k) = Some v.
Proof.
  revert text_map. induction rows as [| [[l' k'] v'] rows IH]; intros text_map Hnd Hin.
  - inversion Hin.
  - simpl in Hnd. apply NoDup_cons in Hnd as [Hk Hnd]. simpl.
    apply elem_of_cons in Hin as [E | Hin].
    + injection E as <- <- <-. rewrite fold_upsert_other by exact Hk.
      unfold upsert_text. simpl. apply lookup_insert_eq.
    + apply IH; assumption.
Qed.

(** X23: after [insert_text_map] the table holds, under a language and a
    non-empty key, the text that [resolve] finds in the text maps; where
    [resolve] finds none, the entry of the table is left as it was. *)
Theorem stored_texts_resolve text_map lang_maps lang k :
  text_maps_like lang_maps -> k <> EmptyString ->
  fst (insert_text_map text_map lang_maps) !! (lang, k)
  = match resolve lang_maps lang (Some k) with
    | Some v => Some v
    | None => text_map !! (lang, k)
    end.
Proof.
  intros Hlike Hk. pose proof (text_rows_keys lang_maps Hlike) as Hnd.
  destruct Hlike as [Hd Hin].
  unfold insert_text_map, resolve. cbn [fst].
  destruct k as [| c t]; [congruence |]. cbn [is_empty].
  destruct (assoc_get lang lang_maps) as [m |] eqn:El.
  - apply (assoc_get_in lang_maps lang m Hd) in El.
    destruct (assoc_get (String c t) m) as [v |] eqn:Ek.
    + apply (assoc_get_in m _ v (Hin lang m El)) in Ek.
      apply fold_upsert_row; [exact Hnd |]. apply text_rows_in. exists m. tauto.
    + apply fold_upsert_other. intros H.
      apply list_elem_of_fmap in H as ([[l' k'] v'] & E & H). simpl in E.
      injection E as <- <-. apply text_rows_in in H as (m' & Hm' & Hkv).
      assert (m' = m).
      { apply (assoc_get_in lang_maps lang m' Hd) in Hm'.
        apply (assoc_get_in lang_maps lang m Hd) in El. congruence. }
      subst m'. apply (assoc_get_in m _ v' (Hin lang m El)) in Hkv. congruence.
  - apply fold_upsert_other. intros H.
    apply list_elem_of_fmap in H as ([[l' k'] v'] & E & H). simpl in E.
    injection E as <- <-. apply text_rows_in in H as (m' & Hm' & _).
    apply assoc_get_none in El. apply El.
    apply list_elem_of_fmap. exists (lang, m'). split; [reflexivity | exact Hm'].
Qed.

Lemma sample_text_maps_like : text_maps_like sample_text_maps.
Proof.
  unfold text_maps_like, dict_like, sample_text_maps. split.
  - simpl. apply NoDup_cons. split; [| apply NoDup_singleton].
    intros H. apply list_elem_of_singleton in H. discriminate H.
  - intros l m H. apply elem_of_cons in H as [E | H].
    + injection E as _ ->. simpl. apply NoDup_cons. split; [| apply NoDup_singleton].
      intros H. apply list_elem_of_singleton in H. discriminate H.
    + apply list_elem_of_singleton in H. injection H as _ ->. simpl. apply NoDup_singleton.
Qed.

(** Witness of X23: an upsert over an older text. *)
Lemma stored_texts_resolve_witness :
  fst (insert_text_map {[ ("EN", "11") := "old" ]} sample_text_maps) !! ("EN", "11")
  = match resolve sample_text_maps "EN" (Some "11") with
    | Some v => Some v
    | None => ({[ ("EN", "11") := "old" ]} : text_store) !! ("EN", "11")
    end.
Proof.
  apply (stored_texts_resolve {[ ("EN", "11") := "old" ]} sample_text_maps "EN" "11").
  - exact sample_text_maps_like.
  - discriminate.
Defined.

(** ** Paging *)

Lemma as_int_bounds int_of_str value default_value lo hi :
  lo <= default_value <= hi ->
  lo <= as_int int_of_str value default_value lo hi <= hi.
Proof. unfold as_int. destruct (int_of_str value); lia. Qed.

Lemma qv_returns query key default_value :
  query !! key <> Some [] -> exists s, qv query key default_value = Some s.
Proof.
  unfold qv. destruct (query !! key) as [[| first rest] |]; simpl; intros H;
    [congruence | eexists; reflexivity | eexists; reflexivity].
Qed.

Lemma total_pages_ceiling page_size total :
  0 < page_size ->
  (total_pages page_size total - 1) * page_size < total
  /\ total <= total_pages page_size total * page_size.
Proof.
  intros Hs. unfold total_pages. destruct (Z.ltb_spec 0 page_size); [| lia].
  pose proof (Z.div_mod (total + page_size - 1) page_size ltac:(lia)) as Hdm.
  pose proof (Z.mod_pos_bound (total + page_size - 1) page_size Hs) as Hr.
  nia.
Qed.

(** X24: for a query whose [page] and [page_size] entries are not empty
    lists and a default size within [1, max_size], [paging] returns a page
    from 1 to 100000, a size from 1 to [max_size] and the offset
    [(page - 1) * page_size]; the page count of [with_paging_meta] is then
    the ceiling of [total / page_size], and a page lies within it exactly
    when its offset lies before the end of the results. *)
Theorem paging_bounds int_of_str query default_size max_size total payload :
  query !! "page" <> Some [] -> query !! "page_size" <> Some [] ->
  1 <= default_size <= max_size -> 0 <= total ->
  exists page page_size offset,
    paging int_of_str query default_size max_size = Some (page, page_size, offset)
    /\ 1 <= page <= 100000 /\ 1 <= page_size <= max_size
    /\ offset = (page - 1) * page_size /\ 0 <= offset
    /\ with_paging_meta payload page page_size total !! "total_pages"
       = Some (JInt (total_pages page_size total))
    /\ (total_pages page_size total - 1) * page_size < total
       <= total_pages page_size total * page_size
    /\ (page <= total_pages page_size total <-> offset < total).
Proof.
  intros Hp Hs Hd Ht. unfold paging.
  destruct (qv_returns query "page" "1" Hp) as [raw_page ->].
  destruct (qv_returns query "page_size" (str_of_Z default_size) Hs) as [raw_size ->].
  pose proof (as_int_bounds int_of_str raw_page 1 1 100000 ltac:(lia)) as Hpage.
  pose proof (as_int_bounds int_of_str raw_size default_size 1 max_size ltac:(lia)) as Hsize.
  set (page := as_int int_of_str raw_page 1 1 100000) in *.
  set (page_size := as_int int_of_str raw_size default_size 1 max_size) in *.
  pose proof (total_pages_ceiling page_size total ltac:(lia)) as [Hlo Hhi].
  exists page, page_size, ((page - 1) * page_size).
  split; [reflexivity |]. split; [exact Hpage |]. split; [exact Hsize |].
  split; [reflexivity |]. split; [nia |].
  split; [unfold with_paging_meta; apply lookup_insert_eq |].
  split; [split; assumption |].
  set (pages := total_pages page_size total) in *. split; intros H; nia.
Qed.

(** Witness of X24: an empty query. *)
Lemma paging_bounds_witness :
  exists page page_size offset,
    paging (fun _ => None) ∅ 20 100 = Some (page, page_size, offset)
    /\ 1 <= page <= 100000 /\ 1 <= page_size <= 100
    /\ offset = (page - 1) * page_size /\ 0 <= offset
    /\ with_paging_meta ∅ page page_size 45 !! "total_pages"
       = Some (JInt (total_pages page_size 45))
    /\ (total_pages page_size 45 - 1) * page_size < 45
       <= total_pages page_size 45 * page_size
    /\ (page <= total_pages page_size 45 <-> offset < 45).
Proof.
  apply (paging_bounds (fun _ => None) ∅ 20 100 45 ∅).
  - rewrite lookup_empty. discriminate.
  - rewrite lookup_empty. discriminate.
  - lia.
  - lia.
Defined.

(** ** Escaping of search terms *)

Lemma replace_with_app old new a b :
  replace_with old new (a +:+ b) = replace_with old new a +:+ replace_with old new b.
Proof.
  induction a as [| c a IH]; [reflexivity |].
  rewrite append_cons. simpl. rewrite IH. destruct (Ascii.eqb c old).
  - rewrite append_assoc. reflexivity.
  - rewrite append_cons. reflexivity.
Qed.

Lemma escape_like_cons c t :
  escape_like (String c t)
  = (if Ascii.eqb c "\" || Ascii.eqb c "%" || Ascii.eqb c "_"
     then String "\" (String c EmptyString) else String c EmptyString)
    +:+ escape_like t.
Proof.
  unfold escape_like.
  change (String c t) with (String c EmptyString +:+ t).
  rewrite !replace_with_app. f_equal.
  destruct (Ascii.eqb_spec c "\") as [-> | H1]; [reflexivity |].
  destruct (Ascii.eqb_spec c "%") as [-> | H2]; [reflexivity |].
  destruct (Ascii.eqb_spec c "_") as [-> | H3]; [reflexivity |].
  simpl. apply Ascii.eqb_neq in H1, H2, H3. rewrite H1. simpl. rewrite H2. simpl.
  rewrite H3. reflexivity.
Qed.

(** X25: an escaped search term has no wildcard and stands for the term
    itself; so different terms have different escaped forms. *)
Theorem escape_like_literal term :
  like_literal (escape_like term) = Some term
  /\ forall other, escape_like other = escape_like term -> other = term.
Proof.
  assert (H : forall t, like_literal (escape_like t) = Some t).
  { induction t as [| c t IH]; [reflexivity |].
    rewrite escape_like_cons.
    destruct (Ascii.eqb_spec c "\") as [-> | H1].
    { cbn [orb]. rewrite !append_cons. change (EmptyString +:+ escape_like t) with (escape_like t).
      cbn [like_literal Ascii.eqb Bool.eqb]. rewrite IH. reflexivity. }
    destruct (Ascii.eqb_spec c "%") as [-> | H2].
    { cbn [orb]. rewrite !append_cons. change (EmptyString +:+ escape_like t) with (escape_like t).
      cbn [like_literal Ascii.eqb Bool.eqb]. rewrite IH. reflexivity. }
    destruct (Ascii.eqb_spec c "_") as [-> | H3].
    { cbn [orb]. rewrite !append_cons. change (EmptyString +:+ escape_like t) with (escape_like t).
      cbn [like_literal Ascii.eqb Bool.eqb]. rewrite IH. reflexivity. }
    cbn [orb]. rewrite append_cons. change (EmptyString +:+ escape_like t) with (escape_like t).
    cbn [like_literal]. apply Ascii.eqb_neq in H1, H2, H3. rewrite H1, H2, H3.
    cbn [orb]. rewrite IH. reflexivity. }
  split; [apply H |]. intros other E.
  pose proof (H other) as Ho. rewrite E, H in Ho. congruence.
Qed.

(** ** Search queries *)

Lemma split_ws_go_pieces s g :
  Forall (fun w => forallb_str (fun c => negb (is_space c)) w = true) (split_ws_go s g).
Proof.
  revert g. induction s as [| c r IH]; intros g; simpl.
  - apply List.Forall_cons; [reflexivity | apply List.Forall_nil].
  - destruct (is_space c) eqn:Ec.
    + destruct g; [apply IH |]. apply List.Forall_cons; [reflexivity | apply IH].
    + specialize (IH false). destruct (split_ws_go r false) as [| piece pieces].
      * apply List.Forall_cons; [simpl; rewrite Ec; reflexivity | apply List.Forall_nil].
      * inversion IH as [| ? ? Hp Hps]; subst.
        apply List.Forall_cons; [simpl; rewrite Ec, Hp; reflexivity | exact Hps].
Qed.

Lemma filter_truthy_words pieces :
  Forall (fun w => forallb_str (fun c => negb (is_space c)) w = true) pieces ->
  Forall word (List.filter truthy pieces).
Proof.
  induction 1 as [| w pieces Hw _ IH]; simpl; [apply List.Forall_nil |].
  destruct w as [| c t]; [exact IH |].
  apply List.Forall_cons; [split; [discriminate | exact Hw] | exact IH].
Qed.

Lemma split_ws_go_word w rest g :
  word w ->
  split_ws_go (w +:+ rest) g
  = match split_ws_go rest false with
    | piece :: pieces => (w +:+ piece) :: pieces
    | [] => [w]
    end.
Proof.
  intros [Hne Hw]. destruct w as [| c t]; [congruence |]. clear Hne.
  revert c g Hw. induction t as [| d t IH]; intros c g Hw.
  - simpl in Hw. rewrite andb_true_r in Hw. apply negb_true_iff in Hw.
    rewrite append_cons. change (EmptyString +:+ rest) with rest.
    cbn [split_ws_go]. rewrite Hw.
    destruct (split_ws_go rest false); reflexivity.
  - simpl in Hw. apply andb_true_iff in Hw as [Hc Hw]. apply negb_true_iff in Hc.
    rewrite append_cons. cbn [split_ws_go]. rewrite Hc.
    rewrite (IH d false) by exact Hw.
    destruct (split_ws_go rest false); reflexivity.
Qed.

Lemma rstrip_with_app_fixed p a b :
  b <> EmptyString -> rstrip_with p b = b -> rstrip_with p (a +:+ b) = a +:+ b.
Proof.
  intros Hne Hb. induction a as [| c a IH]; [exact Hb |].
  rewrite append_cons. simpl. rewrite IH.
  destruct (a +:+ b) eqn:E; [| reflexivity].
  destruct a; [change (EmptyString +:+ b) with b in E; congruence
              | rewrite append_cons in E; discriminate].
Qed.

Lemma join_words ws :
  Forall word ws -> ws <> [] ->
  (exists c t, join " " ws = String c t /\ is_space c = false)
  /\ rstrip_with is_space (join " " ws) = join " " ws
  /\ forall g, split_ws_go (join " " ws) g = ws.
Proof.
  induction 1 as [| w ws Hw Hws IH]; [congruence |]. intros _.
  assert (Hhead : exists c t, w = String c t /\ is_space c = false).
  { destruct Hw as [Hne Hf]. destruct w as [| c t]; [congruence |].
    simpl in Hf. apply andb_true_iff in Hf as [Hc _]. apply negb_true_iff in Hc.
    exists c, t. split; [reflexivity | exact Hc]. }
  destruct ws as [| w2 ws].
  - cbn [join]. split; [exact Hhead |].
    split; [apply rstrip_with_none, Hw |].
    intros g. rewrite <- (append_empty_r w) at 1.
    rewrite (split_ws_go_word w EmptyString g Hw). cbn [split_ws_go].
    rewrite append_empty_r. reflexivity.
  - destruct IH as ((c2 & t2 & Ej & Hc2) & Hr & Hsplit); [discriminate |].
    change (join " " (w :: w2 :: ws)) with (w +:+ String " " (join " " (w2 :: ws))).
    split; [| split].
    + destruct Hhead as (c & t & -> & Hc). rewrite append_cons. eauto.
    + apply rstrip_with_app_fixed; [discriminate |].
      change (String " " (join " " (w2 :: ws)))
        with (String " " EmptyString +:+ join " " (w2 :: ws)).
      apply rstrip_with_app_fixed; [rewrite Ej; discriminate | exact Hr].
    + intros g. rewrite (split_ws_go_word w _ g Hw).
      cbn [split_ws_go]. change (is_space " ") with true. cbv iota.
      rewrite Hsplit, append_empty_r. reflexivity.
Qed.

Lemma filter_truthy_fixed ws : Forall word ws -> List.filter truthy ws = ws.
Proof.
  induction 1 as [| w ws [Hne _] _ IH]; [reflexivity |]. simpl.
  destruct w; [congruence |]. cbn [truthy is_empty negb]. rewrite IH. reflexivity.
Qed.

Lemma split_ws_go_flag s :
  List.filter truthy (split_ws_go s true) = List.filter truthy (split_ws_go s false).
Proof.
  destruct s as [| c r]; [reflexivity |]. cbn [split_ws_go].
  destruct (is_space c); reflexivity.
Qed.

Lemma split_ws_go_nonempty s g : split_ws_go s g <> [].
Proof.
  revert g. induction s as [| c r IH]; intros g; [discriminate |].
  cbn [split_ws_go]. destruct (is_space c).
  - destruct g; [apply IH | discriminate].
  - destruct (split_ws_go r false); discriminate.
Qed.

(** The non-empty pieces of the split are the words. *)
Lemma words_from_split cur s :
  words_from cur s
  = match split_ws_go s false with
    | piece :: pieces => List.filter truthy ((cur +:+ piece) :: pieces)
    | [] => []
    end.
Proof.
  revert cur. induction s as [| c r IH]; intros cur.
  - cbn [words_from split_ws_go List.filter]. rewrite append_empty_r.
    destruct cur; reflexivity.
  - cbn [words_from split_ws_go]. destruct (is_space c).
    + assert (Hrest : words_from EmptyString r
                      = List.filter truthy (split_ws_go r true)).
      { rewrite IH, split_ws_go_flag.
        destruct (split_ws_go r false) as [| piece pieces]; reflexivity. }
      cbn [List.filter]. rewrite append_empty_r, Hrest.
      destruct cur; reflexivity.
    + rewrite IH. destruct (split_ws_go r false) as [| piece pieces] eqn:E.
      * exfalso. exact (split_ws_go_nonempty r false E).
      * rewrite append_assoc. reflexivity.
Qed.

Lemma words_split s : words s = List.filter truthy (re_split_ws s).
Proof.
  unfold words, re_split_ws. rewrite words_from_split.
  destruct (split_ws_go s false) as [| piece pieces] eqn:E; [| reflexivity].
  exfalso. exact (split_ws_go_nonempty s false E).
Qed.

Lemma words_lstrip s : words (lstrip_with is_space s) = words s.
Proof.
  unfold words. induction s as [| c r IH]; [reflexivity |].
  cbn [lstrip_with words_from]. destruct (is_space c) eqn:Ec; [exact IH |].
  cbn [words_from]. rewrite Ec. reflexivity.
Qed.

Lemma words_from_rstrip cur s :
  words_from cur (rstrip_with is_space s) = words_from cur s.
Proof.
  revert cur. induction s as [| c r IH]; intros cur; [reflexivity |].
  cbn [rstrip_with]. destruct (rstrip_with is_space r) as [| x r'] eqn:Er.
  - cbn [words_from]. destruct (is_space c) eqn:Ec.
    + rewrite <- !IH. reflexivity.
    + cbn [words_from]. rewrite Ec, <- IH. reflexivity.
  - change (words_from cur (String c (String x r')))
      with (if is_space c then
              if is_empty cur then words_from EmptyString (String x r')
              else cur :: words_from EmptyString (String x r')
            else words_from (cur +:+ String c EmptyString) (String x r')).
    rewrite !IH. reflexivity.
Qed.

Lemma words_strip s : words (strip s) = words s.
Proof. unfold strip, words. rewrite words_from_rstrip. apply words_lstrip. Qed.

Lemma join_empty_cons x l :
  join EmptyString (x :: l) = x +:+ join EmptyString l.
Proof. destruct l; [cbn [join]; rewrite append_empty_r |]; reflexivity. Qed.

(** The words hold the characters of the text that are not whitespace, in
    order. *)
Lemma words_from_squeeze cur s :
  join EmptyString (words_from cur s) = cur +:+ squeeze s.
Proof.
  unfold squeeze. revert cur. induction s as [| c r IH]; intros cur.
  - cbn [words_from filter_str]. rewrite append_empty_r.
    destruct cur; reflexivity.
  - cbn [words_from filter_str]. destruct (is_space c); cbn [negb].
    + destruct cur as [| a cur]; cbn [is_empty]; [apply IH |].
      rewrite join_empty_cons, IH. reflexivity.
    + rewrite IH, append_assoc. reflexivity.
Qed.

(** X26: a normalised query is the words of the query, its maximal runs of
    characters other than whitespace, in their order and joined by single
    spaces; the words hold the characters of the query that are not
    whitespace; the result has no whitespace at either end, and
    normalising it again changes nothing. *)
Theorem norm_fts_query_normal q :
  norm_fts_query q = join " " (words q)
  /\ Forall word (words q)
  /\ join EmptyString (words q) = squeeze q
  /\ strip (norm_fts_query q) = norm_fts_query q
  /\ norm_fts_query (norm_fts_query q) = norm_fts_query q
  /\ norm_fts_query "  star   rail " = "star rail".
Proof.
  assert (Hn : norm_fts_query q = join " " (words q)).
  { unfold norm_fts_query. rewrite <- words_split, words_strip. reflexivity. }
  assert (Hws : Forall word (words q)).
  { rewrite <- words_strip, words_split.
    apply filter_truthy_words, split_ws_go_pieces. }
  split; [exact Hn |]. split; [exact Hws |].
  split; [apply (words_from_squeeze EmptyString q) |].
  split; [| split; [| vm_compute; reflexivity]].
  - rewrite Hn. generalize dependent (words q). intros ws _ Hws.
    assert (Hcase : ws = [] \/ ws <> []) by (destruct ws; [left | right]; congruence).
    destruct Hcase as [-> | Hne]; [reflexivity |].
    destruct (join_words ws Hws Hne) as ((c & t & Ej & Hc) & Hr & _).
    unfold strip. rewrite Ej, (lstrip_with_fixed _ _ _ Hc), <- Ej. exact Hr.
  - rewrite Hn. generalize dependent (words q). intros ws _ Hws.
    assert (Hcase : ws = [] \/ ws <> []) by (destruct ws; [left | right]; congruence).
    destruct Hcase as [-> | Hne]; [reflexivity |].
    destruct (join_words ws Hws Hne) as ((c & t & Ej & Hc) & Hr & Hsplit).
    assert (Hstrip : strip (join " " ws) = join " " ws).
    { unfold strip. rewrite Ej, (lstrip_with_fixed _ _ _ Hc), <- Ej. exact Hr. }
    unfold norm_fts_query, re_split_ws. rewrite Hstrip, Hsplit.
    rewrite (filter_truthy_fixed ws Hws). reflexivity.
Qed.
